(** * updates.js: the version-resolution engine

    A shallow embedding of the functions of [updates.js] that decide which
    version replaces a dependency range ([updateRange], [isRangePrerelease],
    [rangeToVersion], [findVersion], [findNewVersion] and the loop that
    consumes the registry answers), together with the parts of the [semver]
    package (5.x / 6.x, the releases whose [Range] can be called without
    [new], as [isValidSemverRange] does) and of the JavaScript string
    built-ins these functions call.

    JavaScript strings are lists of characters; the characters are 8-bit
    ([ascii]), which covers every character that the regular expressions of
    the program distinguish except the two line separators U+2028/U+2029.
    [null] and [undefined] are [None]; a thrown exception is [Throw]. *)

From Stdlib Require Import List Ascii String NArith ZArith Bool Lia.
From Stdlib Require Import DecimalN DecimalPos DecimalFacts.
From stdpp Require Import gmap.
Import ListNotations.

Open Scope list_scope.
Open Scope char_scope.

(** ** JavaScript strings *)

Module Js.

Abbreviation jsstring := (list ascii).

(** A string literal of the source. *)
Definition str (s : string) : jsstring := list_ascii_of_string s.

Definition code (c : ascii) : N := N_of_ascii c.

Definition char_eqb (a b : ascii) : bool := (code a =? code b)%N.

(** [a === b] on strings. *)
Fixpoint string_eqb (a b : jsstring) : bool :=
  match a, b with
  | [], [] => true
  | x :: a', y :: b' => char_eqb x y && string_eqb a' b'
  | _, _ => false
  end.

(** [a < b] on strings: lexicographic on code units. *)
Fixpoint string_ltb (a b : jsstring) : bool :=
  match a, b with
  | _, [] => false
  | [], _ :: _ => true
  | x :: a', y :: b' =>
      if (code x <? code y)%N then true
      else if (code y <? code x)%N then false
      else string_ltb a' b'
  end.

(** [arr.includes(s)] on an array of strings. *)
Definition includes (arr : list jsstring) (s : jsstring) : bool :=
  existsb (string_eqb s) arr.

(** The regular-expression classes [[0-9]] (also [\d]) and [.]; the dot
    matches everything but a line terminator. *)
Definition is_digit (c : ascii) : bool :=
  ((48 <=? code c) && (code c <=? 57))%N.

Definition is_line_terminator (c : ascii) : bool :=
  ((code c =? 10) || (code c =? 13))%N.

Definition is_dot_char (c : ascii) : bool := negb (is_line_terminator c).

(** [[a-zA-Z0-9-]] *)
Definition is_alnum_dash (c : ascii) : bool :=
  (is_digit c
   || ((65 <=? code c) && (code c <=? 90))
   || ((97 <=? code c) && (code c <=? 122))
   || (code c =? 45))%N.

(** White space removed by [String.prototype.trim]: TAB, LF, VT, FF, CR,
    SPACE and NBSP among the 8-bit characters. *)
Definition is_white_space (c : ascii) : bool :=
  (((9 <=? code c) && (code c <=? 13)) || (code c =? 32) || (code c =? 160))%N.

(** The longest prefix whose characters satisfy [p], and the rest: what a
    greedy [p+] or [p*] consumes when nothing after it can take one of
    these characters back. *)
Fixpoint span (p : ascii -> bool) (s : jsstring) : jsstring * jsstring :=
  match s with
  | [] => ([], [])
  | c :: s' =>
      if p c then let '(a, r) := span p s' in (c :: a, r) else ([], s)
  end.

Fixpoint drop_while (p : ascii -> bool) (s : jsstring) : jsstring :=
  match s with
  | [] => []
  | c :: s' => if p c then drop_while p s' else s
  end.

Definition trim (s : jsstring) : jsstring :=
  rev (drop_while is_white_space (rev (drop_while is_white_space s))).

(** [s.split(c)] for a one-character separator. *)
Fixpoint split_on (c : ascii) (s : jsstring) : list jsstring :=
  match s with
  | [] => [[]]
  | x :: s' =>
      if char_eqb x c then [] :: split_on c s'
      else match split_on c s' with
           | h :: t => (x :: h) :: t
           | [] => [[x]]
           end
  end.

(** [arr.join(c)] *)
Fixpoint join (c : ascii) (arr : list jsstring) : jsstring :=
  match arr with
  | [] => []
  | [a] => a
  | a :: arr' => a ++ c :: join c arr'
  end.

(** The text before the first [c], and the text after it when there is
    one. *)
Fixpoint cut_at (c : ascii) (s : jsstring) : jsstring * option jsstring :=
  match s with
  | [] => ([], None)
  | x :: s' =>
      if char_eqb x c then ([], Some s')
      else let '(a, r) := cut_at c s' in (x :: a, r)
  end.

(** [String(v)] for a value that is a string or [null]. *)
Definition ToString (v : option jsstring) : jsstring :=
  match v with
  | Some s => s
  | None => str "null"
  end.

(** Truthiness of a value that is a string or [null]. *)
Definition truthy (v : option jsstring) : bool :=
  match v with
  | Some (_ :: _) => true
  | _ => false
  end.

(** *** Decimal numerals *)

Definition digit_val (c : ascii) : N := (code c - 48)%N.

(** The number a string of decimal digits denotes. *)
Definition number_of_digits (s : jsstring) : N :=
  fold_left (fun acc c => (10 * acc + digit_val c)%N) s 0%N.

Fixpoint digits_of_uint (d : Decimal.uint) : jsstring :=
  match d with
  | Decimal.Nil => []
  | Decimal.D0 d' => "0" :: digits_of_uint d'
  | Decimal.D1 d' => "1" :: digits_of_uint d'
  | Decimal.D2 d' => "2" :: digits_of_uint d'
  | Decimal.D3 d' => "3" :: digits_of_uint d'
  | Decimal.D4 d' => "4" :: digits_of_uint d'
  | Decimal.D5 d' => "5" :: digits_of_uint d'
  | Decimal.D6 d' => "6" :: digits_of_uint d'
  | Decimal.D7 d' => "7" :: digits_of_uint d'
  | Decimal.D8 d' => "8" :: digits_of_uint d'
  | Decimal.D9 d' => "9" :: digits_of_uint d'
  end.

(** [String(n)] for a non-negative integer below 2^53 (no exponent is
    printed below 10^21). *)
Definition string_of_number (n : N) : jsstring :=
  digits_of_uint (N.to_uint n).

(** *** Exceptions *)

Inductive exn : Type :=
| TypeError
| Error (message : jsstring).

Inductive result (A : Type) : Type :=
| Ok (a : A)
| Throw (e : exn).
Arguments Ok {A} a.
Arguments Throw {A} e.

Definition bind {A B} (r : result A) (k : A -> result B) : result B :=
  match r with
  | Ok a => k a
  | Throw e => Throw e
  end.

End Js.

Import Js.

Notation "'let*' x ':=' r 'in' k" := (Js.bind r (fun x => k))
  (at level 10, x name, r at level 100, k at level 200).

(** ** The version token of a range

    [updateRange] and [isRangePrerelease] search a range for
    [[0-9]+\.[0-9]+\.[0-9]+] followed by an optional or a mandatory [-.+].
    A backtracking matcher that gives a digit back to [[0-9]+] finds a
    digit where it needs a dot or the end of the pattern's digits, so each
    [[0-9]+] takes its whole run of digits; [.+] is greedy and nothing
    follows it, so it runs to the end of the line. *)

Module Token.

(** [[0-9]+]: the run of digits and the rest. *)
Definition digits1 (s : jsstring) : option (jsstring * jsstring) :=
  match span is_digit s with
  | ([], _) => None
  | (ds, r) => Some (ds, r)
  end.

(** A literal character. *)
Definition lit (c : ascii) (s : jsstring) : option jsstring :=
  match s with
  | x :: r => if char_eqb x c then Some r else None
  | [] => None
  end.

(** [[0-9]+\.[0-9]+\.[0-9]+] at the start of [s]: the matched text and
    the rest. *)
Definition main (s : jsstring) : option (jsstring * jsstring) :=
  match digits1 s with
  | None => None
  | Some (a, s1) =>
    match lit "." s1 with
    | None => None
    | Some s2 =>
      match digits1 s2 with
      | None => None
      | Some (b, s3) =>
        match lit "." s3 with
        | None => None
        | Some s4 =>
          match digits1 s4 with
          | None => None
          | Some (c, s5) => Some (a ++ "." :: b ++ "." :: c, s5)
          end
        end
      end
    end
  end.

(** [-.+] at the start of [s]. *)
Definition tag (s : jsstring) : option (jsstring * jsstring) :=
  match lit "-" s with
  | None => None
  | Some s1 =>
    match span is_dot_char s1 with
    | ([], _) => None
    | (t, r) => Some ("-" :: t, r)
    end
  end.

(** A match of [/[0-9]+\.[0-9]+\.[0-9]+(-.+)?/] at the start of [s]. *)
Record found := {
  matched : jsstring;          (* the whole match *)
  group1 : option jsstring;    (* the capture [(-.+)], when it took part *)
  after : jsstring             (* the text that follows the match *)
}.

Definition token (s : jsstring) : option found :=
  match main s with
  | None => None
  | Some (m, r) =>
    match tag r with
    | Some (t, r') => Some {| matched := m ++ t; group1 := Some t; after := r' |}
    | None => Some {| matched := m; group1 := None; after := r |}
    end
  end.

(** A match of [/[0-9]+\.[0-9]+\.[0-9]+-.+/] at the start of [s]. *)
Definition pre_token (s : jsstring) : bool :=
  match main s with
  | None => false
  | Some (_, r) => match tag r with Some _ => true | None => false end
  end.

(** [re.test(s)] for an unanchored pattern whose match at the start of a
    string is decided by [at_start]: try every position. *)
Fixpoint test (at_start : jsstring -> bool) (s : jsstring) : bool :=
  at_start s || match s with [] => false | _ :: s' => test at_start s' end.

End Token.

(** ** [String.prototype.replace] with a global regular expression *)

Module Replace.

(** [GetSubstitution]: the expansion of the replacement text for one
    match of a pattern with one capture group and no named groups.
    [$$] is a dollar, [$&] the match, [$`] the text before it, [$'] the
    text after it, [$1] and [$01] the capture (empty when it did not take
    part); any other dollar stands for itself. *)
Fixpoint GetSubstitution (matched before after : jsstring)
    (group1 : option jsstring) (replacement : jsstring) : jsstring :=
  let capture := match group1 with Some g => g | None => [] end in
  match replacement with
  | [] => []
  | c :: r =>
    if char_eqb c "$" then
      match r with
      | [] => [c]
      | d :: r' =>
        if char_eqb d "$" then
          "$" :: GetSubstitution matched before after group1 r'
        else if char_eqb d "&" then
          matched ++ GetSubstitution matched before after group1 r'
        else if char_eqb d "`" then
          before ++ GetSubstitution matched before after group1 r'
        else if char_eqb d "'" then
          after ++ GetSubstitution matched before after group1 r'
        else if char_eqb d "1" then
          capture ++ GetSubstitution matched before after group1 r'
        else if char_eqb d "0" then
          match r' with
          | e :: r'' =>
            if char_eqb e "1" then
              capture ++ GetSubstitution matched before after group1 r''
            else c :: GetSubstitution matched before after group1 r
          | [] => c :: GetSubstitution matched before after group1 r
          end
        else c :: GetSubstitution matched before after group1 r
      end
    else c :: GetSubstitution matched before after group1 r
  end.

(** The scan of [s.replace(/.../g, replacement)]: [before] is the text
    already passed, [skip] the number of characters of the current match
    still to pass, [s] the text ahead. Every match is non-empty, so the
    search resumes right after it. *)
Fixpoint replace_from (replacement before : jsstring) (skip : nat)
    (s : jsstring) : jsstring :=
  match s with
  | [] => []
  | c :: s' =>
    match skip with
    | S k => replace_from replacement (before ++ [c]) k s'
    | O =>
      match Token.token s with
      | Some f =>
          GetSubstitution (Token.matched f) before (Token.after f)
                          (Token.group1 f) replacement
          ++ replace_from replacement (before ++ [c])
                          (length (Token.matched f) - 1) s'
      | None => c :: replace_from replacement (before ++ [c]) 0 s'
      end
    end
  end.

Definition replace_all (s replacement : jsstring) : jsstring :=
  replace_from replacement [] 0 s.

End Replace.

(** ** The [semver] package

    The functions of semver 5.x / 6.x that [updates.js] calls, in strict
    (non-loose) mode: [parse], [valid], [coerce], [gt], [gte], [diff], with
    the [SemVer] constructor and its comparison methods. A value handed to
    them is a string or [null]/[undefined]. *)

Module semver.

Definition MAX_LENGTH : nat := 256.
Definition MAX_SAFE_INTEGER : N := 9007199254740991.

(** A prerelease identifier is kept as a number or as a string. *)
Inductive identifier : Type :=
| Num (n : N)
| Str (s : jsstring).

Record SemVer := {
  major : N;
  minor : N;
  patch : N;
  prerelease : list identifier;
  build : list jsstring
}.

(** NUMERICIDENTIFIER, [0|[1-9]\d*], matching the whole of [s]. *)
Definition numeric_identifier (s : jsstring) : bool :=
  forallb is_digit s &&
  match s with
  | [] => false
  | [_] => true
  | c :: _ => negb (char_eqb c "0")
  end.

(** PRERELEASEIDENTIFIER, [0|[1-9]\d*|\d*[a-zA-Z-][a-zA-Z0-9-]*]. *)
Definition prerelease_identifier (s : jsstring) : bool :=
  numeric_identifier s
  || (forallb is_alnum_dash s && existsb (fun c => negb (is_digit c)) s).

(** BUILDIDENTIFIER, [[0-9A-Za-z-]+]. *)
Definition build_identifier (s : jsstring) : bool :=
  forallb is_alnum_dash s && match s with [] => false | _ => true end.

(** The groups of a match of FULL,
    [^v?(NUM)\.(NUM)\.(NUM)(?:-(PRERELEASE))?(?:\+(BUILD))?$], where
    PRERELEASE and BUILD are identifiers of their kind separated by dots.
    The three numbers hold digits and dots only and prerelease identifiers
    hold no [+], so the build part starts at the first [+] and the
    prerelease part at the first [-] before it. *)
Record full_match := {
  m1 : jsstring;
  m2 : jsstring;
  m3 : jsstring;
  m4 : option jsstring;
  m5 : option jsstring
}.

Definition match_full (s : jsstring) : option full_match :=
  let s0 := match s with
            | c :: r => if char_eqb c "v" then r else s
            | [] => s
            end in
  let '(s1, bld) := cut_at "+" s0 in
  let '(mn, pre) := cut_at "-" s1 in
  match split_on "." mn with
  | [a; b; c] =>
      if numeric_identifier a && numeric_identifier b && numeric_identifier c
         && match pre with
            | Some p => forallb prerelease_identifier (split_on "." p)
            | None => true
            end
         && match bld with
            | Some p => forallb build_identifier (split_on "." p)
            | None => true
            end
      then Some {| m1 := a; m2 := b; m3 := c; m4 := pre; m5 := bld |}
      else None
  | _ => None
  end.

(** The prerelease identifiers that are all digits and below
    MAX_SAFE_INTEGER become numbers. *)
Definition numberify (id : jsstring) : identifier :=
  if forallb is_digit id && match id with [] => false | _ => true end then
    let num := number_of_digits id in
    if (num <? MAX_SAFE_INTEGER)%N then Num num else Str id
  else Str id.

(** [new SemVer(version)] *)
Definition new_SemVer (version : option jsstring) : result SemVer :=
  match version with
  | None => Throw TypeError
  | Some s =>
    if (MAX_LENGTH <? length s)%nat then Throw TypeError
    else
      match match_full (trim s) with
      | None => Throw TypeError
      | Some m =>
        let major := number_of_digits (m1 m) in
        let minor := number_of_digits (m2 m) in
        let patch := number_of_digits (m3 m) in
        if (MAX_SAFE_INTEGER <? major)%N then Throw TypeError
        else if (MAX_SAFE_INTEGER <? minor)%N then Throw TypeError
        else if (MAX_SAFE_INTEGER <? patch)%N then Throw TypeError
        else
          Ok {| major := major;
                minor := minor;
                patch := patch;
                prerelease := match m4 m with
                              | Some p => map numberify (split_on "." p)
                              | None => []
                              end;
                build := match m5 m with
                         | Some p => split_on "." p
                         | None => []
                         end |}
      end
  end.

Definition identifier_string (i : identifier) : jsstring :=
  match i with
  | Num n => string_of_number n
  | Str s => s
  end.

(** The field [version] that [format()] sets:
    major.minor.patch, then [-] and the identifiers when there are any. *)
Definition version (v : SemVer) : jsstring :=
  string_of_number (major v) ++ "." ::
  string_of_number (minor v) ++ "." ::
  string_of_number (patch v) ++
  match prerelease v with
  | [] => []
  | ids => "-" :: join "." (map identifier_string ids)
  end.

(** [semver.parse] *)
Definition parse (version : option jsstring) : option SemVer :=
  match version with
  | None => None
  | Some s =>
    if (MAX_LENGTH <? length s)%nat then None
    else
      match match_full s with
      | None => None
      | Some _ =>
        match new_SemVer version with
        | Ok v => Some v
        | Throw _ => None
        end
      end
  end.

(** [semver.valid] *)
Definition valid (v : option jsstring) : option jsstring :=
  match parse v with
  | Some p => Some (version p)
  | None => None
  end.

(** [/^[0-9]+$/.test(a)] *)
Definition numeric (a : identifier) : bool :=
  match a with
  | Num _ => true
  | Str s => forallb is_digit s && match s with [] => false | _ => true end
  end.

(** The double nearest to a non-negative integer (ties to even), as an
    integer; integers below 2^53 are doubles. *)
Definition nearest_double (n : N) : N :=
  if (n <? 2 ^ 53)%N then n
  else
    let e := (N.log2 n - 52)%N in
    let q := (n / 2 ^ e)%N in
    let r := (n mod 2 ^ e)%N in
    let half := (2 ^ (e - 1))%N in
    if (r <? half)%N then (q * 2 ^ e)%N
    else if (half <? r)%N then ((q + 1) * 2 ^ e)%N
    else if N.even q then (q * 2 ^ e)%N
    else ((q + 1) * 2 ^ e)%N.

(** [+a] for a numeric identifier. *)
Definition to_number (a : identifier) : N :=
  match a with
  | Num n => n
  | Str s => nearest_double (number_of_digits s)
  end.

(** [a === b] *)
Definition identifier_eqb (a b : identifier) : bool :=
  match a, b with
  | Num x, Num y => (x =? y)%N
  | Str x, Str y => string_eqb x y
  | _, _ => false
  end.

(** [a < b] for two identifiers that are not both numeric and where no
    number meets a non-numeric string: two strings. *)
Definition identifier_ltb (a b : identifier) : bool :=
  match a, b with
  | Str x, Str y => string_ltb x y
  | _, _ => false
  end.

Definition compareIdentifiers (a b : identifier) : Z :=
  let anum := numeric a in
  let bnum := numeric b in
  if anum && bnum then
    let x := to_number a in
    let y := to_number b in
    if (x =? y)%N then 0%Z else if (x <? y)%N then (-1)%Z else 1%Z
  else if identifier_eqb a b then 0%Z
  else if anum && negb bnum then (-1)%Z
  else if bnum && negb anum then 1%Z
  else if identifier_ltb a b then (-1)%Z
  else 1%Z.

(** [x || y] on numbers. *)
Definition or_else (x y : Z) : Z := if (x =? 0)%Z then y else x.

Definition compareMain (v other : SemVer) : Z :=
  or_else (compareIdentifiers (Num (major v)) (Num (major other)))
    (or_else (compareIdentifiers (Num (minor v)) (Num (minor other)))
       (compareIdentifiers (Num (patch v)) (Num (patch other)))).

(** The [do ... while (++i)] loop of [comparePre]. *)
Fixpoint comparePre_loop (a b : list identifier) : Z :=
  match a, b with
  | [], [] => 0%Z
  | _ :: _, [] => 1%Z
  | [], _ :: _ => (-1)%Z
  | x :: a', y :: b' =>
      if identifier_eqb x y then comparePre_loop a' b'
      else compareIdentifiers x y
  end.

Definition comparePre (v other : SemVer) : Z :=
  match prerelease v, prerelease other with
  | _ :: _, [] => (-1)%Z
  | [], _ :: _ => 1%Z
  | [], [] => 0%Z
  | a, b => comparePre_loop a b
  end.

(** [v.compare(other)] *)
Definition SemVer_compare (v other : SemVer) : Z :=
  if string_eqb (version v) (version other) then 0%Z
  else or_else (compareMain v other) (comparePre v other).

(** [semver.compare(a, b)] *)
Definition compare (a b : option jsstring) : result Z :=
  let* va := new_SemVer a in
  let* vb := new_SemVer b in
  Ok (SemVer_compare va vb).

Definition gt (a b : option jsstring) : result bool :=
  let* c := compare a b in Ok (0 <? c)%Z.

Definition gte (a b : option jsstring) : result bool :=
  let* c := compare a b in Ok (0 <=? c)%Z.

Definition eq (a b : option jsstring) : result bool :=
  let* c := compare a b in Ok (c =? 0)%Z.

(** [semver.diff]: [null] and [undefined] are both [None]. *)
Definition diff (version1 version2 : option jsstring)
  : result (option jsstring) :=
  let* same := eq version1 version2 in
  if same then Ok None
  else
    match parse version1, parse version2 with
    | Some v1, Some v2 =>
      let pre := match prerelease v1, prerelease v2 with
                 | [], [] => false
                 | _, _ => true
                 end in
      let prefix := if pre then str "pre" else [] in
      if negb (major v1 =? major v2)%N then Ok (Some (prefix ++ str "major"))
      else if negb (minor v1 =? minor v2)%N then Ok (Some (prefix ++ str "minor"))
      else if negb (patch v1 =? patch v2)%N then Ok (Some (prefix ++ str "patch"))
      else Ok (if pre then Some (str "prerelease") else None)
    | _, _ => Throw TypeError
    end.

(** [\d{1,16}] where the pattern goes on with something that is not a
    digit: a whole run of at most sixteen digits. *)
Definition digits_1_16 (s : jsstring) : option (jsstring * jsstring) :=
  match span is_digit s with
  | ([], _) => None
  | (ds, r) => if (length ds <=? 16)%nat then Some (ds, r) else None
  end.

(** [\.(\d{1,16})] *)
Definition dot_digits (s : jsstring) : option (jsstring * jsstring) :=
  match Token.lit "." s with
  | Some s1 => digits_1_16 s1
  | None => None
  end.

(** COERCE, [(^|[^\d])(\d{1,16})(?:\.(\d{1,16}))?(?:\.(\d{1,16}))?(?:$|[^\d])],
    with its first digit at the start of [s]: the three groups. After a
    whole run of digits the closing [(?:$|[^\d])] always holds. *)
Definition coerce_at (s : jsstring)
  : option (jsstring * option jsstring * option jsstring) :=
  match digits_1_16 s with
  | None => None
  | Some (a, s1) =>
    match dot_digits s1 with
    | Some (b, s2) =>
      match dot_digits s2 with
      | Some (c, _) => Some (a, Some b, Some c)
      | None => Some (a, Some b, None)
      end
    | None => Some (a, None, None)
    end
  end.

(** The leftmost match: the digits start at the start of the string or
    after a character that is not a digit. *)
Fixpoint coerce_search (boundary : bool) (s : jsstring)
  : option (jsstring * option jsstring * option jsstring) :=
  match (if boundary then coerce_at s else None) with
  | Some m => Some m
  | None =>
    match s with
    | [] => None
    | c :: s' => coerce_search (negb (is_digit c)) s'
    end
  end.

(** [semver.coerce] of a string. *)
Definition coerce (version : jsstring) : option SemVer :=
  match coerce_search true version with
  | None => None
  | Some (a, b, c) =>
    let zero := str "0" in
    parse (Some (a ++ "." :: match b with Some x => x | None => zero end
                   ++ "." :: match c with Some x => x | None => zero end))
  end.

End semver.

(** ** [updates.js] *)

Module Updates.

(** The registry's answer for one package, as far as the program reads it:
    [versions] is [Object.keys(data.versions)] in enumeration order,
    [latest] is [data["dist-tags"].latest], and [time], present when
    ["time" in data], gives [(new Date(data.time[v])).getTime()] for a key
    [v], with [None] for [NaN]. The answer is taken to have its [versions]
    and [dist-tags] objects. *)
Record Data := {
  name : jsstring;
  error : option jsstring;
  versions : list jsstring;
  latest : option jsstring;
  time : option (jsstring -> option Z)
}.

(** The second argument of [findNewVersion] and third of [findVersion]. *)
Record Opts := {
  usePre : bool;
  useRel : bool;
  useGreatest : bool;
  semvers : list jsstring;
  range : jsstring
}.

Definition updateRange (range : jsstring) (version : option jsstring)
  : jsstring :=
  Replace.replace_all range (ToString version).

Definition isVersionPrerelease (version : option jsstring) : bool :=
  match semver.parse version with
  | None => false
  | Some parsed =>
    match semver.prerelease parsed with
    | [] => false
    | _ => true
    end
  end.

Definition isRangePrerelease (range : jsstring) : bool :=
  Token.test Token.pre_token range.

(** [semver.coerce(range)] is [null] for a range without a number; reading
    [.version] of it throws, and the [catch] returns [null]. *)
Definition rangeToVersion (range : jsstring) : option jsstring :=
  match semver.coerce range with
  | Some v => Some (semver.version v)
  | None => None
  end.

(** The array [semvers] of [findVersion] once the prerelease classes are
    pushed. *)
Definition push_if (b : bool) (arr : list jsstring) (x : jsstring)
  : list jsstring :=
  if b then arr ++ [x] else arr.

Definition accepted (opts : Opts) (usePre : bool) : list jsstring :=
  if usePre then
    let s0 := semvers opts ++ [str "prerelease"] in
    let s1 := push_if (includes s0 (str "patch")) s0 (str "prepatch") in
    let s2 := push_if (includes s1 (str "minor")) s1 (str "preminor") in
    push_if (includes s2 (str "major")) s2 (str "premajor")
  else semvers opts.

(** A [for ... of] loop over strings that threads a state and may throw. *)
Fixpoint for_of {S : Type} (body : S -> jsstring -> result S)
    (l : list jsstring) (st : S) : result S :=
  match l with
  | [] => Ok st
  | x :: l' => let* st' := body st x in for_of body l' st'
  end.

(** ["time" in data] *)
Definition has_time (data : Data) : bool :=
  match time data with
  | Some _ => true
  | None => false
  end.

(** [(new Date(data.time[version])).getTime()], with [None] for [NaN]. *)
Definition getTime (data : Data) (version : jsstring) : option Z :=
  match time data with
  | Some time_of => time_of version
  | None => None
  end.

(** One turn of the loop of [findVersion] on the state
    [(tempVersion, tempDate)]; [continue] leaves the state as it is. *)
Definition findVersion_body (data : Data) (opts : Opts) (usePre : bool)
    (semvers : list jsstring) (st : option jsstring * Z) (version : jsstring)
  : result (option jsstring * Z) :=
  let '(tempVersion, tempDate) := st in
  match semver.parse (Some version) with
  | None => Throw TypeError
  | Some parsed =>
    if match semver.prerelease parsed with [] => false | _ => true end
       && (negb usePre || useRel opts)
    then Ok st
    else
      let* diff := semver.diff tempVersion (Some (semver.version parsed)) in
      if negb (truthy diff) || negb (includes semvers (ToString diff))
      then Ok st
      else if useGreatest opts || negb (has_time data) then
        (* some registries like github don't have data.time available,
           fall back to greatest on them *)
        match semver.coerce (semver.version parsed) with
        | None => Throw TypeError
        | Some coerced =>
          let* ge := semver.gte (Some (semver.version coerced)) tempVersion in
          if ge then Ok (Some (semver.version parsed), tempDate)
          else Ok st
        end
      else
        match getTime data version with
        | Some date =>
          if (0 <=? date)%Z && (tempDate <? date)%Z
          then Ok (Some (semver.version parsed), date)
          else Ok st
        | None => Ok st
        end
  end.

Definition findVersion (data : Data) (versions : list jsstring) (opts : Opts)
  : result (option jsstring) :=
  let tempVersion := rangeToVersion (range opts) in
  let tempDate := 0%Z in
  let usePre := isRangePrerelease (range opts) || usePre opts in
  let semvers := accepted opts usePre in
  let* st := for_of (findVersion_body data opts usePre semvers) versions
                    (tempVersion, tempDate) in
  Ok (if truthy (fst st) then fst st else None).

(** [diff.replace(/^pre/, "")] *)
Definition strip_pre (s : jsstring) : jsstring :=
  match s with
  | "p" :: "r" :: "e" :: r => r
  | _ => s
  end.

Definition findNewVersion (data : Data) (opts : Opts)
  : result (option jsstring) :=
  if string_eqb (range opts) (str "*") then Ok (Some (str "*"))
  else
    let versions :=
      filter (fun version => truthy (semver.valid (Some version)))
             (versions data) in
    let* version := findVersion data versions opts in
    if useGreatest opts then Ok version
    else
      let latestTag := latest data in
      match semver.coerce (range opts) with
      | None => Throw TypeError
      | Some coerced =>
        let oldVersion := Some (semver.version coerced) in
        let oldIsPre := isRangePrerelease (range opts) in
        let newIsPre := isVersionPrerelease version in
        let* isGreater := semver.gt version oldVersion in
        (* update to new prerelease *)
        if (negb (useRel opts) && usePre opts) || (oldIsPre && newIsPre)
        then Ok version
        (* downgrade from prerelease to release on --release-only *)
        else if useRel opts && negb isGreater && oldIsPre && negb newIsPre
        then Ok version
        (* update from prerelease to release *)
        else if oldIsPre && negb newIsPre && isGreater
        then Ok version
        (* do not downgrade from prerelease to release *)
        else if oldIsPre && negb newIsPre && negb isGreater
        then Ok None
        else
          (* check if latestTag is allowed by semvers *)
          let* diff := semver.diff oldVersion latestTag in
          if truthy diff
             && negb (string_eqb (ToString diff) (str "prerelease"))
             && negb (includes (semvers opts) (strip_pre (ToString diff)))
          then Ok version
          (* prevent upgrading to prerelease with --release-only *)
          else if useRel opts && isVersionPrerelease latestTag
          then Ok version
          (* in all other cases, return latest dist-tag *)
          else Ok latestTag
      end.

(** *** The loop over the registry answers *)

(** What [parseMixedArg] returns: a boolean, or an array of package
    names. *)
Inductive mixed : Type :=
| Flag (b : bool)
| Names (l : list jsstring).

Record Config := {
  greatest : mixed;
  prerelease : mixed;
  release : mixed;
  patch : mixed;
  minor : mixed
}.

(** [typeof m === "boolean" ? m : m.includes(name)], and equally
    [m === true || Array.isArray(m) && m.includes(name)]. *)
Definition applies (m : mixed) (name : jsstring) : bool :=
  match m with
  | Flag b => b
  | Names l => includes l name
  end.

(** An entry of [deps]. *)
Record Dep := {
  old : jsstring;
  new : option jsstring;
  info : option jsstring
}.

Section Handler.

(** [getInfoUrl(data.versions[newVersion] || data, registry, data.name)]:
    the link shown next to an update, computed by a collaborator. *)
Variable getInfoUrl : Data -> option jsstring -> jsstring.

Variable cfg : Config.

Definition semvers_for (nm : jsstring) : list jsstring :=
  if applies (patch cfg) nm then [str "patch"]
  else if applies (minor cfg) nm then [str "patch"; str "minor"]
  else [str "patch"; str "minor"; str "major"].

(** The body of [for (const [data, registry] of dati)]. *)
Definition handle (deps : gmap jsstring Dep) (data : Data)
  : result (gmap jsstring Dep) :=
  if truthy (error data) then Throw (Error (ToString (error data)))
  else
    let useGreatest := applies (greatest cfg) (name data) in
    let usePre := applies (prerelease cfg) (name data) in
    let useRel := applies (release cfg) (name data) in
    let semvers := semvers_for (name data) in
    match deps !! name data with
    | None => Throw TypeError
    | Some dep =>
      let oldRange := old dep in
      let* newVersion :=
        findNewVersion data {| usePre := usePre; useRel := useRel;
                               useGreatest := useGreatest;
                               semvers := semvers; range := oldRange |} in
      let newRange := updateRange oldRange newVersion in
      if negb (truthy newVersion) || string_eqb oldRange newRange
      then Ok (delete (name data) deps)
      else Ok (<[name data := {| old := old dep;
                                 new := Some newRange;
                                 info := Some (getInfoUrl data newVersion) |}]>
                 deps)
    end.

Fixpoint resolve (dati : list Data) (deps : gmap jsstring Dep)
  : result (gmap jsstring Dep) :=
  match dati with
  | [] => Ok deps
  | data :: dati' => let* deps' := handle deps data in resolve dati' deps'
  end.

End Handler.

End Updates.

Import Updates.

(** ** Notions used to state the properties *)

(** *** Rewriting a range *)

(** The leftmost token of a range: the text before it and the match. *)
Fixpoint first_token (s : jsstring) : option (jsstring * Token.found) :=
  match Token.token s with
  | Some f => Some ([], f)
  | None =>
    match s with
    | [] => None
    | c :: s' =>
      match first_token s' with
      | Some (p, f) => Some (c :: p, f)
      | None => None
      end
    end
  end.

(** The rewriter as the specification words it: the first token gives way
    to the new version, the text around it stays. *)
Definition rewrite_first (range version : jsstring) : jsstring :=
  match first_token range with
  | Some (p, f) => p ++ version ++ Token.after f
  | None => range
  end.

(** A replacement text without a dollar stands for itself. *)
Definition no_dollar (v : jsstring) : bool :=
  forallb (fun c => negb (char_eqb c "$")) v.

(** A version text of the shape major.minor.patch, nothing after it. *)
Definition release_text (v : jsstring) : bool :=
  match Token.main v with
  | Some (_, []) => true
  | _ => false
  end.

(** How far a scan of [[0-9]+\.[0-9]+\.[0-9]+] has come: before a number
    ([Q0], [Q2], [Q4]), inside the first two numbers ([Q1], [Q3]), or with
    a digit of the third number seen ([Q5]). *)
Inductive scan_state : Type := Q0 | Q1 | Q2 | Q3 | Q4 | Q5.

Definition on_digit (q : scan_state) : scan_state :=
  match q with
  | Q0 | Q1 => Q1
  | Q2 | Q3 => Q3
  | Q4 | Q5 => Q5
  end.

Definition on_dot (q : scan_state) : option scan_state :=
  match q with
  | Q1 => Some Q2
  | Q3 => Some Q4
  | _ => None
  end.

(** From state [q], the text [s] completes the pattern. *)
Fixpoint accepts (q : scan_state) (s : jsstring) : bool :=
  match q with
  | Q5 => true
  | _ =>
    match s with
    | [] => false
    | c :: s' =>
      if is_digit c then accepts (on_digit q) s'
      else if char_eqb c "." then
        match on_dot q with
        | Some q' => accepts q' s'
        | None => false
        end
      else false
    end
  end.

(** What can follow a token that has no prerelease part: no digit, and no
    dash that starts a prerelease part. *)
Definition ends_token (rest : jsstring) : bool :=
  match rest with
  | [] => true
  | c :: rest' =>
    negb (is_digit c)
    && negb (char_eqb c "-"
             && match rest' with
                | [] => false
                | d :: _ => is_dot_char d
                end)
  end.

(** *** Diff classes and ceilings *)

Inductive ceiling : Type := UpToPatch | UpToMinor | UpToMajor.

(** The array [semvers] that the loop over the registry answers builds. *)
Definition semvers_of (c : ceiling) : list jsstring :=
  match c with
  | UpToPatch => [str "patch"]
  | UpToMinor => [str "patch"; str "minor"]
  | UpToMajor => [str "patch"; str "minor"; str "major"]
  end.

(** The accepted diff classes of a ceiling, with the prerelease classes
    when prereleases are allowed. *)
Definition accepted_classes (c : ceiling) (allow_prerelease : bool)
  : list jsstring :=
  semvers_of c ++
  (if allow_prerelease then
     str "prerelease" ::
     match c with
     | UpToPatch => [str "prepatch"]
     | UpToMinor => [str "prepatch"; str "preminor"]
     | UpToMajor => [str "prepatch"; str "preminor"; str "premajor"]
     end
   else []).

(** The parsed version [t] is within the ceiling of [b]: the numbers
    above the ceiling agree. *)
Definition within (c : ceiling) (b t : semver.SemVer) : Prop :=
  match c with
  | UpToPatch => semver.major t = semver.major b
                 /\ semver.minor t = semver.minor b
  | UpToMinor => semver.major t = semver.major b
  | UpToMajor => True
  end.

(** *** Registry answers *)


(** The same answer with another [latest] dist-tag. *)
Definition with_latest (l : option jsstring) (data : Data) : Data :=
  {| name := name data; error := error data; versions := versions data;
     latest := l; time := time data |}.

(** An entry that records an actual change. *)
Definition changed (e : Dep) : Prop :=
  exists newRange, new e = Some newRange /\ newRange <> old e.


(** *** Examples *)

Definition all_classes : list jsstring := semvers_of UpToMajor.

(** A registry that gives no link. *)
Definition no_info : Data -> option jsstring -> jsstring := fun _ _ => [].

(** left-pad at [^1.2.3] with updates limited to minor for it; the
    registry has 1.2.3, 1.2.9, 1.3.0 and 2.0.0, the last one tagged
    latest. *)
Definition minor_cfg : Config :=
  {| greatest := Flag false; prerelease := Flag false; release := Flag false;
     patch := Flag false; minor := Names [str "left-pad"] |}.

Definition minor_versions : list jsstring :=
  [str "1.2.3"; str "1.2.9"; str "1.3.0"; str "2.0.0"].

Definition minor_data (tm : option (jsstring -> option Z)) : Data :=
  {| name := str "left-pad"; error := None; versions := minor_versions;
     latest := Some (str "2.0.0"); time := tm |}.

Definition minor_opts (pre rel great : bool) : Opts :=
  {| usePre := pre; useRel := rel; useGreatest := great;
     semvers := semvers_of UpToMinor; range := str "^1.2.3" |}.

Definition minor_deps : gmap jsstring Dep :=
  {[ str "left-pad" := {| old := str "^1.2.3"; new := None; info := None |} ]}.

(** A package on a prerelease track: the range is 1.0.0-beta.1 and the
    registry has the two betas and the release. *)
Definition track_versions : list jsstring :=
  [str "1.0.0-beta.1"; str "1.0.0-beta.2"; str "1.0.0"].

Definition track_data (l : option jsstring)
    (tm : option (jsstring -> option Z)) : Data :=
  {| name := str "pkg"; error := None; versions := track_versions;
     latest := l; time := tm |}.


(** A package whose beta line got a fix after the release candidate. *)
Definition late_beta_versions : list jsstring :=
  [str "1.0.0-beta.1"; str "1.0.0-rc.1"; str "1.0.0-beta.2"].

Definition late_beta_data : Data :=
  {| name := str "pkg"; error := None; versions := late_beta_versions;
     latest := Some (str "1.0.0-rc.1"); time := None |}.

Definition late_beta_opts : Opts :=
  {| usePre := true; useRel := false; useGreatest := true;
     semvers := all_classes; range := str "^1.0.0-beta.1" |}.

(** A package declared with the wildcard range. *)
Definition star_deps : gmap jsstring Dep :=
  {[ str "pkg" := {| old := str "*"; new := None; info := None |} ]}.

(** Publish times that follow the order of the list. *)
Definition in_order (l : list jsstring) (v : jsstring) : option Z :=
  (fix go (l : list jsstring) (t : Z) : option Z :=
     match l with
     | [] => None
     | x :: l' => if string_eqb x v then Some t else go l' (t + 1000)%Z
     end) l 1000%Z.

(** *** Texts of versions *)

Definition is_digit_or_dot (c : ascii) : bool :=
  is_digit c || char_eqb c ".".

(** The characters of a text that FULL matches. *)
Definition is_version_char (c : ascii) : bool :=
  is_alnum_dash c || char_eqb c "." || char_eqb c "+".

(** The digit a character stands for. *)
Definition uint_digit (c : ascii) (d : Decimal.uint) : Decimal.uint :=
  match digit_val c with
  | 0 => Decimal.D0 d
  | 1 => Decimal.D1 d
  | 2 => Decimal.D2 d
  | 3 => Decimal.D3 d
  | 4 => Decimal.D4 d
  | 5 => Decimal.D5 d
  | 6 => Decimal.D6 d
  | 7 => Decimal.D7 d
  | 8 => Decimal.D8 d
  | _ => Decimal.D9 d
  end%N.

Fixpoint uint_of_digits (s : jsstring) : Decimal.uint :=
  match s with
  | [] => Decimal.Nil
  | c :: s' => uint_digit c (uint_of_digits s')
  end.

(** The part of a matched text that [version] prints back: the three
    numbers and the prerelease identifiers, without a leading [v] and
    without the build identifiers. *)
Definition core (m : semver.full_match) : jsstring :=
  semver.m1 m ++ "." :: semver.m2 m ++ "." :: semver.m3 m ++
  match semver.m4 m with
  | Some p => "-" :: p
  | None => []
  end.

(** The object that the constructor builds from the groups of a match. *)
Definition built (m : semver.full_match) : semver.SemVer :=
  {| semver.major := number_of_digits (semver.m1 m);
     semver.minor := number_of_digits (semver.m2 m);
     semver.patch := number_of_digits (semver.m3 m);
     semver.prerelease := match semver.m4 m with
                          | Some p => map semver.numberify (split_on "." p)
                          | None => []
                          end;
     semver.build := match semver.m5 m with
                     | Some p => split_on "." p
                     | None => []
                     end |}.

(** A version read back from its own [version] text has lost its build
    identifiers. *)
Definition without_build (v : semver.SemVer) : semver.SemVer :=
  {| semver.major := semver.major v;
     semver.minor := semver.minor v;
     semver.patch := semver.patch v;
     semver.prerelease := semver.prerelease v;
     semver.build := [] |}.

(** A parsed version: what [semver.parse] returns for some text. *)
Definition parsed_version (v : semver.SemVer) : Prop :=
  exists s, semver.parse (Some s) = Some v.

(** *** Selected versions *)

(** Nothing, or the [version] of a version without prerelease
    identifiers. *)
Definition release_or_null (tv : option jsstring) : Prop :=
  match tv with
  | None => True
  | Some v => exists t, v = semver.version t /\ semver.prerelease t = []
  end.


(** [semver.diff] on two version objects. *)
Definition diff_of (v1 v2 : semver.SemVer) : option jsstring :=
  if (semver.SemVer_compare v1 v2 =? 0)%Z then None
  else
    let pre := match semver.prerelease v1, semver.prerelease v2 with
               | [], [] => false
               | _, _ => true
               end in
    let prefix := if pre then str "pre" else [] in
    if negb (semver.major v1 =? semver.major v2)%N
    then Some (prefix ++ str "major")
    else if negb (semver.minor v1 =? semver.minor v2)%N
    then Some (prefix ++ str "minor")
    else if negb (semver.patch v1 =? semver.patch v2)%N
    then Some (prefix ++ str "patch")
    else if pre then Some (str "prerelease") else None.

(** The running version of the selector, for a range whose coerced
    version is [b]: nothing when the range has none; otherwise the
    [version] of a parsed version within the ceiling of [b], a prerelease
    only if prereleases are allowed. *)
Definition selected_within (c : ceiling) (allow : bool)
    (b : option semver.SemVer) (tv : option jsstring) : Prop :=
  match b with
  | None => tv = None
  | Some bv =>
    exists t, tv = Some (semver.version t) /\ parsed_version t
              /\ within c bv t
              /\ (semver.prerelease t <> [] -> allow = true)
  end.
(** *** Rewriting a range twice *)

(** A version text: the three numbers with an optional prerelease part,
    the whole of the text being one token. *)
Definition version_text (v : jsstring) : bool :=
  match Token.token v with
  | Some f => match Token.after f with [] => true | _ => false end
  | None => false
  end.

(** The end of a line: the end of the text, or a line terminator. *)
Definition ends_line (rest : jsstring) : bool :=
  match rest with
  | [] => true
  | c :: _ => is_line_terminator c
  end.

(** Every token that the scan of [replace] finds in [s] is followed by
    the end of its line; [skip] is the number of characters of the
    current token still to pass. *)
Fixpoint tokens_end_lines_from (skip : nat) (s : jsstring) : bool :=
  match s with
  | [] => true
  | _ :: s' =>
    match skip with
    | S k => tokens_end_lines_from k s'
    | O =>
      match Token.token s with
      | Some f =>
          ends_line (Token.after f)
          && tokens_end_lines_from (length (Token.matched f) - 1) s'
      | None => tokens_end_lines_from 0 s'
      end
    end
  end.

Definition tokens_end_lines (s : jsstring) : bool :=
  tokens_end_lines_from 0 s.

(** *** Publish times of a back-ported patch *)



(** *** Versions without their tags *)

(** The numbers of a version, without prerelease and build identifiers:
    what [semver.coerce] reads back from its text. *)
Definition release_of (v : semver.SemVer) : semver.SemVer :=
  {| semver.major := semver.major v;
     semver.minor := semver.minor v;
     semver.patch := semver.patch v;
     semver.prerelease := [];
     semver.build := [] |}.

(** The numbers of [t] are not below those of [b], in the order of
    [compareMain]. *)
Definition main_ge (t b : semver.SemVer) : Prop :=
  (semver.major b < semver.major t)%N
  \/ (semver.major b = semver.major t
      /\ ((semver.minor b < semver.minor t)%N
          \/ (semver.minor b = semver.minor t
              /\ (semver.patch b <= semver.patch t)%N))).

(** The running version of the selector is the text of a parsed version
    whose numbers are not below those of the baseline [b]. *)
Definition not_below (b : option semver.SemVer) (tv : option jsstring)
  : Prop :=
  match b with
  | None => tv = None
  | Some bv =>
    exists t, tv = Some (semver.version t) /\ parsed_version t
              /\ main_ge t bv
  end.

(** ** The command line, the dependency set, the requests and the output *)

Module Cli.

(** *** Options *)

(** A value of [args]: an option declared as a string comes as a string,
    as an array of strings when it is given more than once, and is
    undefined when it is absent; a bare undeclared option is [true]. *)
Inductive arg : Type :=
| ArgUndefined
| ArgBoolean (b : bool)
| ArgString (s : jsstring)
| ArgArray (l : list jsstring).

Definition parseMixedArg (a : arg) : mixed :=
  match a with
  | ArgString [] => Flag true
  | ArgString s =>
      if existsb (fun c => char_eqb c ",") s then Names (split_on "," s)
      else Names [s]
  | ArgArray l => Names l
  | _ => Flag false
  end.

(** *** The dependency set *)

Section Collect.

(** [isValidSemverRange]: whether [semver.Range] accepts the text. *)
Variable isValidSemverRange : jsstring -> bool.

(** [pkg[key]] for a package file whose sections are objects of strings:
    the own entries of the section in the order of its keys, and
    [undefined] for a falsy value. *)
Variable pkg : jsstring -> option (list (jsstring * jsstring)).

(** The lists of names of the two options, [undefined] when the option
    is not given. *)
Variable include : option (list jsstring).
Variable exclude : option (list jsstring).

(** [pkg[key][name]] *)
Fixpoint property (entries : list (jsstring * jsstring)) (name : jsstring)
  : option jsstring :=
  match entries with
  | [] => None
  | (k, v) :: entries' =>
      if string_eqb k name then Some v else property entries' name
  end.

(** The two [filter] calls on [Object.keys(pkg[key])]. *)
Definition names_of (entries : list (jsstring * jsstring)) : list jsstring :=
  List.filter (fun name => match exclude with
                           | None => true
                           | Some l => negb (includes l name)
                           end)
    (List.filter (fun name => match include with
                              | None => true
                              | Some l => includes l name
                              end)
       (map fst entries)).

(** [deps[name] = value] on the plain object [deps], of which the map
    holds the own keys: the name [__proto__] goes to the setter of
    [Object.prototype], which gives [deps] another prototype and no
    key. *)
Definition assign (deps : gmap jsstring Dep) (name : jsstring) (value : Dep)
  : gmap jsstring Dep :=
  if string_eqb name (str "__proto__") then deps
  else <[name := value]> deps.

(** [for (const name of names)] *)
Fixpoint add_names (entries : list (jsstring * jsstring))
    (names : list jsstring) (deps : gmap jsstring Dep) : gmap jsstring Dep :=
  match names with
  | [] => deps
  | name :: names' =>
      add_names entries names'
        match property entries name with
        | Some old =>
            if isValidSemverRange old
            then assign deps name {| old := old; new := None; info := None |}
            else deps
        | None => deps
        end
  end.

(** [for (const key of dependencyTypes)] *)
Fixpoint collect (types : list jsstring) (deps : gmap jsstring Dep)
  : gmap jsstring Dep :=
  match types with
  | [] => deps
  | key :: types' =>
      collect types'
        match pkg key with
        | Some entries => add_names entries (names_of entries) deps
        | None => deps
        end
  end.

End Collect.

(** *** Requests *)

Definition npmRegisty : jsstring := str "https://registry.npmjs.org/".

Definition endsWith (s : jsstring) (c : ascii) : bool :=
  match rev s with
  | x :: _ => char_eqb x c
  | [] => false
  end.

Definition normalizeRegistryUrl (url : jsstring) : jsstring :=
  if endsWith url "/" then firstn (length url - 1) url else url.

(** [[a-z0-9]] under the [i] flag. *)
Definition is_alnum (c : ascii) : bool :=
  (is_digit c
   || ((65 <=? code c) && (code c <=? 90))
   || ((97 <=? code c) && (code c <=? 122)))%N.

(** [[\w-.]] *)
Definition is_word_dash_dot (c : ascii) : bool :=
  is_alnum c || char_eqb c "_" || char_eqb c "-" || char_eqb c ".".

(** A match of [/@[a-z0-9][\w-.]+\/[a-z0-9][\w-.]*/i] at the start of
    [s]: the run of the scope cannot hold the slash, so it is taken
    whole, and the last star takes what it finds. *)
Definition scoped_at (s : jsstring) : bool :=
  match s with
  | "@" :: c :: s1 =>
      is_alnum c
      && match span is_word_dash_dot s1 with
         | (_ :: _, "/" :: d :: _) => is_alnum d
         | _ => false
         end
  | _ => false
  end.

(** [GetSubstitution] for a pattern without capture groups: [$$], [$&],
    [$`] and [$'] are expanded, any other dollar stands for itself. *)
Fixpoint GetSubstitution (matched before after replacement : jsstring)
  : jsstring :=
  match replacement with
  | [] => []
  | c :: r =>
    if char_eqb c "$" then
      match r with
      | [] => [c]
      | d :: r' =>
        if char_eqb d "$" then "$" :: GetSubstitution matched before after r'
        else if char_eqb d "&"
        then matched ++ GetSubstitution matched before after r'
        else if char_eqb d "`"
        then before ++ GetSubstitution matched before after r'
        else if char_eqb d "'"
        then after ++ GetSubstitution matched before after r'
        else c :: GetSubstitution matched before after r
      end
    else c :: GetSubstitution matched before after r
  end.

(** [s.replace(re, replacement)] for a global pattern without capture
    groups whose match at the start of a text, never empty, is given by
    [at_start] as the matched text and the rest: [before] is the text
    already passed, [skip] the number of characters of the current match
    still to pass. *)
Fixpoint replace_from (at_start : jsstring -> option (jsstring * jsstring))
    (replacement before : jsstring) (skip : nat) (s : jsstring) : jsstring :=
  match s with
  | [] => []
  | c :: s' =>
    match skip with
    | S k => replace_from at_start replacement (before ++ [c]) k s'
    | O =>
      match at_start s with
      | Some (matched, after) =>
          GetSubstitution matched before after replacement
          ++ replace_from at_start replacement (before ++ [c])
                          (length matched - 1) s'
      | None => c :: replace_from at_start replacement (before ++ [c]) 0 s'
      end
    end
  end.

(** [/\//] at the start of [s]. *)
Definition slash (s : jsstring) : option (jsstring * jsstring) :=
  match s with
  | "/" :: r => Some (["/"], r)
  | _ => None
  end.

(** The address that [fetchFromRegistry] asks for. *)
Definition fetchFromRegistry (name registry : jsstring) : jsstring :=
  let name :=
    if Token.test scoped_at name
    then replace_from slash (str "%2f") [] 0 name
    else name in
  registry ++ "/" :: name.

(** *** The table *)

Section Highlight.

(** [chalk[added ? "green" : "red"]] *)
Variable color : jsstring -> jsstring.

(** [/^[0-9a-zA-Z-.]+$/.test(s)] *)
Definition versionPartRe (s : jsstring) : bool :=
  match s with
  | [] => false
  | _ => forallb (fun c => is_alnum_dash c || char_eqb c ".") s
  end.

(** The loop of [highlightDiff] from index [i] on: [aParts] and [bParts]
    are the parts from [i] on. *)
Fixpoint highlight_from (aParts bParts : list jsstring) (res : jsstring)
  : jsstring :=
  match aParts with
  | [] => res
  | a :: aParts' =>
    if negb match bParts with
            | b :: _ => string_eqb a b
            | [] => false
            end
    then
      if versionPartRe a then res ++ color (join "." aParts)
      else res
           ++ flat_map (fun char => if versionPartRe [char]
                                    then color [char] else [char]) a
           ++ color ("." :: join "." aParts')
    else highlight_from aParts' (tl bParts) (res ++ a ++ ["."])
  end.

Definition highlightDiff (a b : jsstring) : jsstring :=
  highlight_from (split_on "." a) (split_on "." b) [].

End Highlight.

(** *** The new package file *)

Definition dquote : ascii := "034".

(** The text [s] starts with [p]: the rest of it. *)
Fixpoint strip_prefix (p s : jsstring) : option jsstring :=
  match p with
  | [] => Some s
  | c :: p' =>
    match s with
    | x :: s' => if char_eqb x c then strip_prefix p' s' else None
    | [] => None
    end
  end.

(** The text of a quoted name with its colon. *)
Definition key_text (dep : jsstring) : jsstring :=
  dquote :: dep ++ [dquote; ":"].

Definition quoted (s : jsstring) : jsstring := dquote :: s ++ [dquote].

(** The pattern built from the escaped name and the escaped old range,
    the quoted name, a colon, one space or more and the quoted range, at
    the start of [s]: the matched text and the rest. The escaped texts
    match themselves; the run of spaces is taken whole, since a space
    given back could not be the quote that follows. *)
Definition entry_at (dep old : jsstring) (s : jsstring)
  : option (jsstring * jsstring) :=
  match strip_prefix (key_text dep) s with
  | None => None
  | Some s1 =>
    match span (fun c => char_eqb c " ") s1 with
    | ([], _) => None
    | (spaces, s2) =>
      match strip_prefix (quoted old) s2 with
      | None => None
      | Some after => Some (key_text dep ++ spaces ++ quoted old, after)
      end
    end
  end.

(** The template literal of the replacement; a missing [new] reads as
    [undefined]. *)
Definition entry_text (dep : jsstring) (e : Dep) : jsstring :=
  key_text dep ++ " " :: quoted match new e with
                                | Some range => range
                                | None => str "undefined"
                                end.

(** [updatePkg] on the entries of [deps] in the order of its keys. *)
Fixpoint updatePkg (entries : list (jsstring * Dep)) (newPkgStr : jsstring)
  : jsstring :=
  match entries with
  | [] => newPkgStr
  | (dep, e) :: entries' =>
      updatePkg entries'
        (replace_from (entry_at dep (old e)) (entry_text dep e) [] 0 newPkgStr)
  end.

End Cli.

(** *** The first part of a text that differs *)

(** The first part of [aParts] that is not the part of [bParts] at the
    same place, with the parts after it. *)
Fixpoint first_difference (aParts bParts : list jsstring)
  : option (jsstring * list jsstring) :=
  match aParts with
  | [] => None
  | a :: aParts' =>
    match bParts with
    | b :: bParts' =>
        if string_eqb a b then first_difference aParts' bParts'
        else Some (a, aParts')
    | [] => Some (a, aParts')
    end
  end.

(** *** Entries of the dependency set *)

(** The entry that the collection writes for a declared range. *)
Definition declared (range : jsstring) : Dep :=
  {| old := range; new := None; info := None |}.

(** A package file with left-pad in two sections and a dependency on a
    local directory. *)
Definition two_sections (key : jsstring)
  : option (list (jsstring * jsstring)) :=
  if string_eqb key (str "dependencies")
  then Some [(str "left-pad", str "^1.2.3"); (str "local", str "file:../local")]
  else if string_eqb key (str "devDependencies")
  then Some [(str "left-pad", str "~1.0.0")]
  else None.

(** The dependency types that are read when the option names none. *)
Definition default_types : list jsstring :=
  [str "dependencies"; str "devDependencies"; str "peerDependencies";
   str "optionalDependencies"].

(** A range check that accepts the ranges in which a version is found. *)
Definition has_version (range : jsstring) : bool :=
  match rangeToVersion range with
  | Some _ => true
  | None => false
  end.

(** [s.includes(p)] *)
Definition occurs (p s : jsstring) : bool :=
  Token.test (fun t => match Cli.strip_prefix p t with
                       | Some _ => true
                       | None => false
                       end) s.

(** A package file that depends on left-pad, with two spaces after the
    colon. *)
Definition left_pad_file (range : jsstring) (spaces : jsstring) : jsstring :=
  str "{ " ++ Cli.key_text (str "name") ++ " " :: Cli.quoted (str "app")
  ++ str ", " ++ Cli.key_text (str "dependencies") ++ str " { "
  ++ Cli.key_text (str "left-pad") ++ spaces ++ Cli.quoted range
  ++ str " } }".

(** The pattern of an entry matches somewhere in [s]. *)
Definition entry_occurs (dep old s : jsstring) : bool :=
  Token.test (fun t => match Cli.entry_at dep old t with
                       | Some _ => true
                       | None => false
                       end) s.

(** The changed entry of left-pad. *)
Definition left_pad_entry : Dep :=
  {| old := str "^1.2.3"; new := Some (str "^1.3.0"); info := Some [] |}.

(** ** The model on small inputs *)

Example parse_keeps_prerelease_drops_build :
  option_map semver.version
             (semver.parse (Some (str "v1.2.3-beta.1+build.5")))
  = Some (str "1.2.3-beta.1").
Proof. reflexivity. Qed.

Example parse_refuses_leading_zero :
  semver.parse (Some (str "01.2.3")) = None
  /\ semver.parse (Some (str "1.2.3-beta.01")) = None
  /\ semver.parse (Some (str " 1.2.3")) = None
  /\ semver.parse (Some (str "1.2")) = None
  /\ semver.parse None = None.
Proof. repeat split. Qed.

Example parse_refuses_unsafe_number :
  semver.parse (Some (str "9007199254740992.0.0")) = None
  /\ option_map semver.version
                (semver.parse (Some (str "9007199254740991.0.0")))
     = Some (str "9007199254740991.0.0").
Proof. split; vm_compute; reflexivity. Qed.

Example coerce_drops_operator_and_tag :
  rangeToVersion (str "^1.2.3-beta") = Some (str "1.2.3")
  /\ rangeToVersion (str ">=1") = Some (str "1.0.0")
  /\ rangeToVersion (str "~1.2") = Some (str "1.2.0")
  /\ rangeToVersion (str "1.2.3.4") = Some (str "1.2.3")
  /\ rangeToVersion (str "*") = None
  /\ rangeToVersion (str "") = None.
Proof. repeat split. Qed.

Example diff_classes :
  semver.diff (Some (str "1.2.3")) (Some (str "1.2.9")) = Ok (Some (str "patch"))
  /\ semver.diff (Some (str "1.2.9")) (Some (str "1.3.0"))
     = Ok (Some (str "minor"))
  /\ semver.diff (Some (str "1.3.0")) (Some (str "2.0.0"))
     = Ok (Some (str "major"))
  /\ semver.diff (Some (str "1.0.0")) (Some (str "2.0.0-rc.1"))
     = Ok (Some (str "premajor"))
  /\ semver.diff (Some (str "1.0.0-beta.2")) (Some (str "1.0.0"))
     = Ok (Some (str "prerelease"))
  /\ semver.diff (Some (str "1.0.0")) (Some (str "1.0.0+build")) = Ok None
  /\ semver.diff None (Some (str "1.0.0")) = Throw TypeError.
Proof. repeat split. Qed.

Example prerelease_order :
  semver.gt (Some (str "1.0.0")) (Some (str "1.0.0-rc.1")) = Ok true
  /\ semver.gt (Some (str "1.0.0-beta.10")) (Some (str "1.0.0-beta.2"))
     = Ok true
  /\ semver.gt (Some (str "1.0.0-beta")) (Some (str "1.0.0-10")) = Ok true
  /\ semver.gt (Some (str "1.0.0-alpha.1")) (Some (str "1.0.0-alpha"))
     = Ok true
  /\ semver.gte (Some (str "1.0.0-rc.1")) (Some (str "1.0.0")) = Ok false.
Proof. repeat split. Qed.

Example isRangePrerelease_is_textual :
  isRangePrerelease (str "^1.0.0-beta.1") = true
  /\ isRangePrerelease (str "^1.0.0") = false
  /\ isRangePrerelease (str ">=1.0.0 <2.0.0-0") = true
  /\ isRangePrerelease (str "1.0.0-") = false.
Proof. repeat split. Qed.

Example updateRange_keeps_operator :
  updateRange (str "^1.2.3") (Some (str "1.3.0")) = str "^1.3.0"
  /\ updateRange (str "~1.0.0-beta.1") (Some (str "1.0.0")) = str "~1.0.0"
  /\ updateRange (str ">= 1.2.3") (Some (str "2.0.0")) = str ">= 2.0.0"
  /\ updateRange (str "^1.2.3") None = str "^null"
  /\ updateRange (str "^1") (Some (str "2.0.0")) = str "^1".
Proof. repeat split. Qed.

Example replacement_patterns :
  Replace.replace_all (str "^1.0.0-rc <2.0.0") (str "[$&|$1|$`|$'|$$|$0|$2]")
  = str "^[1.0.0-rc <2.0.0|-rc <2.0.0|^||$|$0|$2]".
Proof. reflexivity. Qed.

(** ** Characters and strings *)

Lemma char_eqb_eq (a b : ascii) : char_eqb a b = true <-> a = b.
Proof.
  unfold char_eqb, code. rewrite N.eqb_eq. split; [|congruence].
  intros H. rewrite <- (ascii_N_embedding a), <- (ascii_N_embedding b).
  now rewrite H.
Qed.

Lemma char_eqb_refl (a : ascii) : char_eqb a a = true.
Proof. now apply char_eqb_eq. Qed.

Lemma char_eqb_neq (a b : ascii) : char_eqb a b = false <-> a <> b.
Proof.
  rewrite <- char_eqb_eq. destruct (char_eqb a b); split; congruence.
Qed.

Lemma string_eqb_eq (a b : jsstring) : string_eqb a b = true <-> a = b.
Proof.
  revert b. induction a as [|x a IH]; intros [|y b]; simpl; try easy.
  rewrite andb_true_iff, char_eqb_eq, IH. split.
  - intros [-> ->]. reflexivity.
  - intros H. injection H as -> ->. easy.
Qed.

Lemma string_eqb_neq (a b : jsstring) : string_eqb a b = false <-> a <> b.
Proof.
  rewrite <- string_eqb_eq. destruct (string_eqb a b); split; congruence.
Qed.

(** What [span] returns: the text in two parts, the first within the
    class, the second not starting in it. *)
Lemma span_spec (p : ascii -> bool) (s a r : jsstring) :
  span p s = (a, r) ->
  s = a ++ r /\ forallb p a = true
  /\ match r with [] => True | c :: _ => p c = false end.
Proof.
  revert a r. induction s as [|c s IH]; simpl; intros a r H.
  - injection H as <- <-. easy.
  - destruct (p c) eqn:Ec.
    + destruct (span p s) as [a' r'] eqn:Es. injection H as <- <-.
      destruct (IH a' r' eq_refl) as (-> & Ha & Hr).
      simpl. rewrite Ec, Ha. easy.
    + injection H as <- <-. simpl. now rewrite Ec.
Qed.

Lemma span_app (p : ascii -> bool) (a r : jsstring) :
  forallb p a = true ->
  match r with [] => True | c :: _ => p c = false end ->
  span p (a ++ r) = (a, r).
Proof.
  intros Ha Hr. induction a as [|c a IH]; simpl in *.
  - destruct r as [|c r]; [reflexivity|]. simpl. now rewrite Hr.
  - apply andb_true_iff in Ha as [Hc Ha]. now rewrite Hc, IH.
Qed.

(** ** The token *)

Lemma digits1_spec (s a r : jsstring) :
  Token.digits1 s = Some (a, r) ->
  s = a ++ r /\ a <> [] /\ forallb is_digit a = true
  /\ match r with [] => True | c :: _ => is_digit c = false end.
Proof.
  unfold Token.digits1. destruct (span is_digit s) as [a' r'] eqn:E.
  apply span_spec in E as (-> & Ha & Hr).
  destruct a' as [|c a']; [discriminate|]. intros H. injection H as <- <-.
  easy.
Qed.

Lemma digits1_app (a r : jsstring) :
  a <> [] -> forallb is_digit a = true ->
  match r with [] => True | c :: _ => is_digit c = false end ->
  Token.digits1 (a ++ r) = Some (a, r).
Proof.
  intros Hne Ha Hr. unfold Token.digits1. rewrite (span_app _ _ _ Ha Hr).
  now destruct a.
Qed.

Lemma digits1_head (s : jsstring) :
  Token.digits1 s = None <->
  match s with [] => True | c :: _ => is_digit c = false end.
Proof.
  unfold Token.digits1. destruct s as [|c s]; simpl; [easy|].
  destruct (is_digit c); [|easy].
  destruct (span is_digit s). easy.
Qed.

(** The shape of a match of the three numbers. *)
Lemma main_spec (s m r : jsstring) :
  Token.main s = Some (m, r) ->
  exists a b c,
    m = a ++ "." :: b ++ "." :: c /\ s = m ++ r
    /\ a <> [] /\ forallb is_digit a = true
    /\ b <> [] /\ forallb is_digit b = true
    /\ c <> [] /\ forallb is_digit c = true
    /\ match r with [] => True | x :: _ => is_digit x = false end.
Proof.
  unfold Token.main.
  destruct (Token.digits1 s) as [[a s1]|] eqn:E1; [|discriminate].
  apply digits1_spec in E1 as (-> & Ha & Da & _).
  destruct s1 as [|x s2]; [discriminate|]. simpl.
  destruct (char_eqb x ".") eqn:Ex; [|discriminate].
  apply char_eqb_eq in Ex as ->.
  destruct (Token.digits1 s2) as [[b s3]|] eqn:E2; [|discriminate].
  apply digits1_spec in E2 as (-> & Hb & Db & _).
  destruct s3 as [|y s4]; [discriminate|]. simpl.
  destruct (char_eqb y ".") eqn:Ey; [|discriminate].
  apply char_eqb_eq in Ey as ->.
  destruct (Token.digits1 s4) as [[c s5]|] eqn:E3; [|discriminate].
  apply digits1_spec in E3 as (-> & Hc & Dc & Hr).
  intros H. injection H as <- <-.
  exists a, b, c. repeat split; try assumption.
  now rewrite <- !app_assoc, <- !app_comm_cons, <- !app_assoc.
Qed.

Lemma main_app (a b c r : jsstring) :
  a <> [] -> forallb is_digit a = true ->
  b <> [] -> forallb is_digit b = true ->
  c <> [] -> forallb is_digit c = true ->
  match r with [] => True | x :: _ => is_digit x = false end ->
  Token.main ((a ++ "." :: b ++ "." :: c) ++ r) = Some (a ++ "." :: b ++ "." :: c, r).
Proof.
  intros Ha Da Hb Db Hc Dc Hr. unfold Token.main.
  rewrite <- !app_assoc, <- !app_comm_cons, <- !app_assoc.
  rewrite (digits1_app a _ Ha Da) by reflexivity. simpl.
  rewrite (digits1_app b _ Hb Db) by reflexivity. simpl.
  rewrite (digits1_app c _ Hc Dc Hr). reflexivity.
Qed.

Lemma tag_spec (s t r : jsstring) :
  Token.tag s = Some (t, r) ->
  s = t ++ r /\ t <> []
  /\ match r with [] => True | c :: _ => is_dot_char c = false end.
Proof.
  unfold Token.tag. destruct s as [|x s1]; [discriminate|]. simpl.
  destruct (char_eqb x "-") eqn:Ex; [|discriminate].
  apply char_eqb_eq in Ex as ->.
  destruct (span is_dot_char s1) as [u r'] eqn:E.
  apply span_spec in E as (-> & _ & Hr).
  destruct u as [|c u]; [discriminate|]. intros H. injection H as <- <-.
  easy.
Qed.

Lemma tag_none (s : jsstring) : ends_token s = true -> Token.tag s = None.
Proof.
  unfold ends_token, Token.tag. destruct s as [|x s1]; [reflexivity|]. simpl.
  destruct (char_eqb x "-"); [|reflexivity].
  rewrite andb_true_iff. intros [_ H]. simpl in H.
  destruct s1 as [|d s2]; [reflexivity|]. simpl.
  apply negb_true_iff in H. now rewrite H.
Qed.

Lemma line_terminator_not_digit (c : ascii) :
  is_dot_char c = false -> is_digit c = false /\ char_eqb c "-" = false.
Proof.
  unfold is_dot_char, is_line_terminator, is_digit, char_eqb.
  rewrite negb_false_iff, orb_true_iff, !N.eqb_eq.
  intros [H|H]; rewrite H; easy.
Qed.

(** A match splits the text; what follows it cannot continue it. *)
Lemma token_spec (s : jsstring) (f : Token.found) :
  Token.token s = Some f ->
  s = Token.matched f ++ Token.after f
  /\ Token.matched f <> []
  /\ ends_token (Token.after f) = true.
Proof.
  unfold Token.token.
  destruct (Token.main s) as [[m r]|] eqn:Em; [|discriminate].
  apply main_spec in Em as (a & b & c & Hm & Hs & Ha & _ & _ & _ & _ & _ & Hr).
  assert (Hne : m <> []) by (rewrite Hm; now destruct a).
  destruct (Token.tag r) as [[t r']|] eqn:Et.
  - apply tag_spec in Et as (-> & Ht & Hr'). intros H. injection H as <-.
    simpl. repeat split.
    + now rewrite <- app_assoc.
    + now destruct m.
    + destruct r' as [|x r']; [reflexivity|].
      apply line_terminator_not_digit in Hr' as [H1 H2].
      unfold ends_token. now rewrite H1, H2.
  - intros H. injection H as <-. simpl. repeat split; try assumption.
    unfold ends_token. destruct r as [|x r1]; [reflexivity|].
    rewrite Hr. simpl. apply negb_true_iff.
    destruct (char_eqb x "-") eqn:Ex; [|reflexivity]. simpl.
    apply char_eqb_eq in Ex as ->.
    unfold Token.tag in Et. simpl in Et.
    destruct r1 as [|d r2]; [reflexivity|]. simpl in Et.
    destruct (is_dot_char d); [|reflexivity].
    destruct (span is_dot_char r2); discriminate.
Qed.

Lemma token_none_main (s : jsstring) :
  Token.token s = None <-> Token.main s = None.
Proof.
  unfold Token.token. destruct (Token.main s) as [[m r]|]; [|easy].
  destruct (Token.tag r) as [[t r']|]; easy.
Qed.

(** *** The scan states *)

Lemma on_digit_idem (q : scan_state) : on_digit (on_digit q) = on_digit q.
Proof. now destruct q. Qed.

Lemma accepts_digit (q : scan_state) (c : ascii) (t : jsstring) :
  is_digit c = true -> accepts q (c :: t) = accepts (on_digit q) t.
Proof.
  intros H. destruct q; simpl; rewrite ?H; try reflexivity.
  now destruct t.
Qed.

Lemma accepts_run (q : scan_state) (a t : jsstring) :
  a <> [] -> forallb is_digit a = true ->
  accepts q (a ++ t) = accepts (on_digit q) t.
Proof.
  revert q. induction a as [|c a IH]; intros q Hne Ha; [easy|].
  simpl in Ha. apply andb_true_iff in Ha as [Hc Ha].
  change ((c :: a) ++ t) with (c :: (a ++ t)).
  rewrite accepts_digit by assumption.
  destruct a as [|d a]; [reflexivity|].
  rewrite IH by easy. now rewrite on_digit_idem.
Qed.

Lemma accepts_dot (q : scan_state) (t : jsstring) :
  accepts q ("." :: t) =
  match q with
  | Q5 => true
  | _ => match on_dot q with Some q' => accepts q' t | None => false end
  end.
Proof. now destruct q. Qed.

Lemma accepts_Q5 (s : jsstring) : accepts Q5 s = true.
Proof. now destruct s. Qed.

(** A text that starts with the three numbers completes the pattern from
    every state. *)
Lemma main_accepts (s m r : jsstring) (q : scan_state) :
  Token.main s = Some (m, r) -> accepts q s = true.
Proof.
  intros H.
  apply main_spec in H as (a & b & c & -> & -> & Ha & Da & Hb & Db & Hc & Dc & _).
  rewrite <- !app_assoc, <- !app_comm_cons, <- !app_assoc.
  rewrite <- !app_comm_cons.
  destruct q;
    repeat (first [rewrite accepts_run by assumption | rewrite accepts_dot];
            simpl on_digit; simpl on_dot; cbv iota);
    try reflexivity; apply accepts_Q5.
Qed.

Lemma accepts_inner (q q' : scan_state) (s : jsstring) :
  on_digit q = q -> on_dot q = Some q' -> q <> Q5 ->
  accepts q s = true ->
  exists a t, s = a ++ "." :: t /\ forallb is_digit a = true
              /\ accepts q' t = true.
Proof.
  intros Hd Hq Hn. induction s as [|c s IH]; intros H.
  - destruct q; try discriminate; now contradiction Hn.
  - destruct (is_digit c) eqn:Ec.
    + rewrite accepts_digit, Hd in H by assumption.
      destruct (IH H) as (a & t & -> & Ha & Ht).
      exists (c :: a), t. simpl. now rewrite Ec, Ha.
    + destruct (char_eqb c ".") eqn:Ed.
      * apply char_eqb_eq in Ed as ->. rewrite accepts_dot, Hq in H.
        exists [], s. repeat split. destruct q; try discriminate; try easy.
        all: simpl in Hq; congruence.
      * destruct q; simpl in H; rewrite ?Ec, ?Ed in H; try discriminate;
          now contradiction Hn.
Qed.

Lemma accepts_outer (q : scan_state) (s : jsstring) :
  on_dot q = None -> q <> Q5 ->
  accepts q s = true ->
  exists c t, s = c :: t /\ is_digit c = true
              /\ accepts (on_digit q) t = true.
Proof.
  intros Hq Hn H. destruct s as [|c s].
  - destruct q; try discriminate; now contradiction Hn.
  - destruct (is_digit c) eqn:Ec.
    + rewrite accepts_digit in H by assumption. now exists c, s.
    + destruct q; simpl in H, Hq; rewrite ?Ec in H; try discriminate;
        try (destruct (char_eqb c "."); discriminate);
        now contradiction Hn.
Qed.

(** The scan from the first state decides the match of the numbers. *)
Lemma accepts_main (s : jsstring) :
  accepts Q0 s = true -> Token.main s <> None.
Proof.
  intros H.
  apply accepts_outer in H as (c & t & -> & Hc & H); [|easy..].
  apply (accepts_inner Q1 Q2) in H as (a & t1 & -> & Ha & H); [|easy..].
  apply accepts_outer in H as (d & t & -> & Hd & H); [|easy..].
  apply (accepts_inner Q3 Q4) in H as (b & t2 & -> & Hb & H); [|easy..].
  apply accepts_outer in H as (e & t & -> & He & _); [|easy..].
  unfold Token.main.
  change (c :: a ++ "." :: d :: b ++ "." :: e :: t)
    with ((c :: a) ++ "." :: (d :: b) ++ "." :: e :: t).
  rewrite (digits1_app (c :: a)); [|easy|simpl; now rewrite Hc|reflexivity].
  simpl Token.lit. cbv iota.
  change (d :: b ++ "." :: e :: t) with ((d :: b) ++ "." :: e :: t).
  rewrite (digits1_app (d :: b)); [|easy|simpl; now rewrite Hd|reflexivity].
  simpl Token.lit. cbv iota.
  destruct (Token.digits1 (e :: t)) as [[x y]|] eqn:E; [easy|].
  apply digits1_head in E. congruence.
Qed.

(** ** Replacing the tokens *)

Lemma GetSubstitution_no_dollar (m b a : jsstring) (g : option jsstring)
    (v : jsstring) :
  no_dollar v = true -> Replace.GetSubstitution m b a g v = v.
Proof.
  induction v as [|c v IH]; [reflexivity|].
  unfold no_dollar. simpl forallb. rewrite andb_true_iff, negb_true_iff.
  intros [Hc Hv]. simpl. rewrite Hc. f_equal. now apply IH.
Qed.

Section NoDollar.

Variable v : jsstring.
Hypothesis Hv : no_dollar v = true.

(** The text already passed matters to a dollar pattern only. *)
Lemma replace_from_before (b b' : jsstring) (k : nat) (s : jsstring) :
  Replace.replace_from v b k s = Replace.replace_from v b' k s.
Proof.
  revert b b' k. induction s as [|c s IH]; intros b b' k; [reflexivity|].
  simpl. destruct k as [|k]; [|apply IH].
  destruct (Token.token (c :: s)) as [f|].
  - rewrite !GetSubstitution_no_dollar by assumption. f_equal. apply IH.
  - f_equal. apply IH.
Qed.

Lemma replace_from_skip (b : jsstring) (k : nat) (s : jsstring) :
  Replace.replace_from v b k s = Replace.replace_from v [] 0 (skipn k s).
Proof.
  revert b k. induction s as [|c s IH]; intros b k.
  - now destruct k.
  - destruct k as [|k].
    + apply replace_from_before.
    + simpl. apply IH.
Qed.

(** The scan at a position without a match copies the character. *)
Lemma replace_all_copy (c : ascii) (s : jsstring) :
  Token.token (c :: s) = None ->
  Replace.replace_all (c :: s) v = c :: Replace.replace_all s v.
Proof.
  intros H. unfold Replace.replace_all. simpl Replace.replace_from.
  rewrite H. f_equal. apply replace_from_before.
Qed.

(** The scan at a match writes the new text and resumes after the
    match. *)
Lemma replace_all_token (s : jsstring) (f : Token.found) :
  Token.token s = Some f ->
  Replace.replace_all s v = v ++ Replace.replace_all (Token.after f) v.
Proof.
  intros H. destruct (token_spec s f H) as (Hs & Hm & _).
  unfold Replace.replace_all. destruct s as [|c s].
  - destruct (Token.matched f); [easy|discriminate].
  - simpl Replace.replace_from. rewrite H.
    rewrite GetSubstitution_no_dollar by assumption. f_equal.
    rewrite replace_from_skip. f_equal.
    destruct (Token.matched f) as [|x m]; [easy|].
    injection Hs as _ ->. simpl. rewrite Nat.sub_0_r.
    rewrite skipn_app, skipn_all, Nat.sub_diag. reflexivity.
Qed.

(** Rewriting leaves a text that cannot continue a token as such. *)
Lemma replace_all_ends_token (s : jsstring) :
  ends_token s = true -> ends_token (Replace.replace_all s v) = true.
Proof.
  destruct s as [|x s]; [easy|]. intros H.
  assert (Hx : is_digit x = false).
  { simpl in H. apply andb_true_iff in H as [H _]. now apply negb_true_iff. }
  rewrite replace_all_copy.
  2:{ apply token_none_main. unfold Token.main.
      now rewrite (proj2 (digits1_head (x :: s)) Hx). }
  simpl in H |- *. rewrite Hx in H |- *. simpl in H |- *.
  destruct (char_eqb x "-"); [|reflexivity]. simpl in H |- *.
  destruct s as [|d s]; [reflexivity|].
  apply negb_true_iff in H.
  destruct (line_terminator_not_digit d H) as [Hd _].
  rewrite replace_all_copy.
  - now rewrite H.
  - apply token_none_main. unfold Token.main.
    now rewrite (proj2 (digits1_head (d :: s)) Hd).
Qed.

(** Rewriting creates no match of the three numbers where there was
    none. *)
Lemma replace_all_accepts (q : scan_state) (s : jsstring) :
  accepts q (Replace.replace_all s v) = true -> accepts q s = true.
Proof.
  revert q. induction s as [|c s IH]; intros q; [easy|].
  destruct (Token.token (c :: s)) as [f|] eqn:E.
  - intros _. unfold Token.token in E.
    destruct (Token.main (c :: s)) as [[m r]|] eqn:Em; [|discriminate].
    now apply (main_accepts _ m r).
  - rewrite replace_all_copy by assumption.
    destruct q; try (intros _; apply accepts_Q5);
      simpl; destruct (is_digit c); try (apply IH);
      destruct (char_eqb c "."); try (apply IH); easy.
Qed.

Lemma replace_all_no_token (c : ascii) (s : jsstring) :
  Token.token (c :: s) = None ->
  Token.token (c :: Replace.replace_all s v) = None.
Proof.
  intros H. apply token_none_main.
  destruct (Token.main (c :: Replace.replace_all s v)) as [[m r]|] eqn:E;
    [|reflexivity].
  apply (main_accepts _ _ _ Q0) in E.
  rewrite <- replace_all_copy in E by assumption.
  apply replace_all_accepts, accepts_main in E.
  now apply token_none_main in H.
Qed.

End NoDollar.

(** *** Release texts *)

Lemma release_text_spec (v : jsstring) :
  release_text v = true ->
  exists a b c,
    v = a ++ "." :: b ++ "." :: c
    /\ a <> [] /\ forallb is_digit a = true
    /\ b <> [] /\ forallb is_digit b = true
    /\ c <> [] /\ forallb is_digit c = true.
Proof.
  unfold release_text.
  destruct (Token.main v) as [[m r]|] eqn:E; [|discriminate].
  destruct r; [|discriminate]. intros _.
  apply main_spec in E as (a & b & c & -> & Hv & H).
  rewrite app_nil_r in Hv. exists a, b, c. now rewrite Hv.
Qed.

Lemma digits_no_dollar (a : jsstring) :
  forallb is_digit a = true -> no_dollar a = true.
Proof.
  unfold no_dollar. rewrite !forallb_forall. intros H c Hc.
  apply negb_true_iff, char_eqb_neq. intros ->.
  now specialize (H _ Hc).
Qed.

Lemma release_text_no_dollar (v : jsstring) :
  release_text v = true -> no_dollar v = true.
Proof.
  intros H.
  apply release_text_spec in H as (a & b & c & -> & _ & Da & _ & Db & _ & Dc).
  apply digits_no_dollar in Da, Db, Dc. unfold no_dollar in *.
  rewrite forallb_app. simpl. rewrite forallb_app. simpl.
  now rewrite Da, Db, Dc.
Qed.

(** A release text followed by a text that cannot continue a token is a
    token by itself. *)
Lemma release_text_token (v t : jsstring) :
  release_text v = true -> ends_token t = true ->
  Token.token (v ++ t)
  = Some {| Token.matched := v; Token.group1 := None; Token.after := t |}.
Proof.
  intros Hv Ht.
  apply release_text_spec in Hv as (a & b & c & -> & Ha & Da & Hb & Db & Hc & Dc).
  unfold Token.token. rewrite main_app; try assumption.
  - now rewrite tag_none.
  - destruct t as [|x t]; [easy|]. simpl in Ht.
    apply andb_true_iff in Ht as [Ht _]. now apply negb_true_iff.
Qed.

Lemma replace_all_idempotent (v : jsstring) :
  release_text v = true ->
  forall s,
    Replace.replace_all (Replace.replace_all s v) v = Replace.replace_all s v.
Proof.
  intros Hr. pose proof (release_text_no_dollar v Hr) as Hv.
  intros s. remember (length s) as n eqn:Hn.
  revert s Hn. induction n as [n IH] using lt_wf_ind. intros s Hn.
  destruct s as [|c s]; [reflexivity|].
  destruct (Token.token (c :: s)) as [f|] eqn:E.
  - destruct (token_spec _ _ E) as (Hs & Hm & He).
    rewrite (replace_all_token v Hv _ _ E).
    rewrite (replace_all_token v Hv _ _
               (release_text_token v _ Hr (replace_all_ends_token v Hv _ He))).
    simpl Token.after. f_equal.
    apply (IH (length (Token.after f))); [|reflexivity].
    rewrite Hn, Hs, length_app.
    destruct (Token.matched f); [easy|]. simpl. lia.
  - rewrite (replace_all_copy v Hv _ _ E).
    rewrite (replace_all_copy v Hv _ _ (replace_all_no_token v Hv _ _ E)).
    f_equal. apply (IH (length s)); [|reflexivity].
    rewrite Hn. simpl. lia.
Qed.

(** ** The range rewriter *)

(** C3, as the code has it. For every old range and every new version
    without a dollar sign, [updateRange] leaves a range without a token as
    it is; otherwise it keeps the text before the first
    major.minor.patch(-prerelease)? token (the operator or comparator
    prefix), writes the new version in place of that token, and goes on
    rewriting the text after it in the same way, so that every later
    token is replaced as well and the text between tokens is kept. *)
Theorem updateRange_rewrites_every_token (r v : jsstring) :
  no_dollar v = true ->
  match first_token r with
  | None => updateRange r (Some v) = r
  | Some (p, f) =>
      r = p ++ Token.matched f ++ Token.after f
      /\ updateRange r (Some v) = p ++ v ++ updateRange (Token.after f) (Some v)
  end.
Proof.
  intros Hv. unfold updateRange. simpl ToString.
  induction r as [|c r IH]; [reflexivity|].
  simpl first_token. destruct (Token.token (c :: r)) as [f|] eqn:E.
  - split.
    + apply (token_spec _ _ E).
    + apply (replace_all_token v Hv _ _ E).
  - rewrite (replace_all_copy v Hv _ _ E).
    destruct (first_token r) as [[p f]|].
    + destruct IH as [Hr Hu]. split.
      * simpl. now f_equal.
      * simpl. now f_equal.
    + now f_equal.
Qed.

(** On a range with two comparators: the prefix stays, the first token is
    replaced, and the rest is rewritten in turn. *)
Lemma updateRange_rewrites_every_token_witness :
  no_dollar (str "3.0.0") = true
  /\ updateRange (str ">=1.0.0 <2.0.0") (Some (str "3.0.0"))
     = str ">=" ++ str "3.0.0"
       ++ updateRange (str " <2.0.0") (Some (str "3.0.0")).
Proof.
  split; [reflexivity|].
  exact (proj2 (updateRange_rewrites_every_token
                  (str ">=1.0.0 <2.0.0") (str "3.0.0") eq_refl)).
Defined.

(** C3, as the specification has it, fails: on a range with two tokens the
    code rewrites both, the specification's rewriter only the first. *)
Lemma updateRange_first_only_counterexample :
  updateRange (str ">=1.0.0 <2.0.0") (Some (str "3.0.0")) = str ">=3.0.0 <3.0.0"
  /\ rewrite_first (str ">=1.0.0 <2.0.0") (str "3.0.0") = str ">=3.0.0 <2.0.0"
  /\ updateRange (str ">=1.0.0 <2.0.0") (Some (str "3.0.0"))
     <> rewrite_first (str ">=1.0.0 <2.0.0") (str "3.0.0").
Proof.
  split; [reflexivity|]. split; [reflexivity|]. discriminate.
Qed.

(** *** Version texts with a prerelease part *)

Lemma ends_line_ends_token (x : jsstring) :
  ends_line x = true -> ends_token x = true.
Proof.
  destruct x as [|c x]; [reflexivity|]. simpl. intros H.
  assert (Hd : is_dot_char c = false) by (unfold is_dot_char; now rewrite H).
  destruct (line_terminator_not_digit c Hd) as [-> ->]. reflexivity.
Qed.

Lemma span_app_all (p : ascii -> bool) (a y : jsstring) :
  forallb p a = true ->
  span p (a ++ y) = (a ++ fst (span p y), snd (span p y)).
Proof.
  intros Ha. induction a as [|c a IH]; simpl in *.
  - now destruct (span p y).
  - apply andb_true_iff in Ha as [Hc Ha]. now rewrite Hc, (IH Ha).
Qed.

Lemma span_rest_ends_line (y : jsstring) :
  ends_line (snd (span is_dot_char y)) = true.
Proof.
  destruct (span is_dot_char y) as [w rest] eqn:E.
  apply span_spec in E as (_ & _ & Hr). simpl.
  destruct rest as [|c rest]; [reflexivity|]. simpl.
  unfold is_dot_char in Hr. now apply negb_false_iff in Hr.
Qed.

Lemma span_ends_line (y : jsstring) :
  ends_line y = true -> span is_dot_char y = ([], y).
Proof.
  destruct y as [|c y]; [reflexivity|]. simpl. intros H.
  unfold is_dot_char. now rewrite H.
Qed.

(** A version text is a release text, or a release text with a dash and
    a text within a line. *)
Lemma version_text_spec (v : jsstring) :
  version_text v = true ->
  release_text v = true
  \/ (release_text v = false
      /\ exists m u,
           v = m ++ "-" :: u /\ release_text m = true
           /\ u <> [] /\ forallb is_dot_char u = true).
Proof.
  unfold version_text, Token.token.
  destruct (Token.main v) as [[m r]|] eqn:Em; [|discriminate].
  destruct (Token.tag r) as [[t r']|] eqn:Et; cbn [Token.after].
  - destruct r' as [|x r']; [|discriminate]. intros _. right.
    unfold Token.tag in Et. destruct r as [|d r]; [discriminate|].
    cbn [Token.lit] in Et. destruct (char_eqb d "-") eqn:Ed; [|discriminate].
    apply char_eqb_eq in Ed as ->.
    destruct (span is_dot_char r) as [u r2] eqn:Es.
    apply span_spec in Es as (-> & Hu & _).
    destruct u as [|c u]; [discriminate|]. injection Et as _ ->.
    rewrite app_nil_r in Em.
    split; [unfold release_text; now rewrite Em|].
    exists m, (c :: u).
    apply main_spec in Em as (a & b & c' & -> & Hv & Ha & Da & Hb & Db & Hc & Dc & _).
    repeat split; try assumption; [|discriminate].
    unfold release_text.
    rewrite <- (app_nil_r (a ++ "." :: b ++ "." :: c')).
    now rewrite main_app.
  - destruct r as [|x r]; [|discriminate]. intros _. left.
    unfold release_text. now rewrite Em.
Qed.

(** A version text with a prerelease part, in a text: the token runs to
    the end of the line. *)
Lemma tagged_token (m u y : jsstring) :
  release_text m = true -> u <> [] -> forallb is_dot_char u = true ->
  Token.token (m ++ "-" :: u ++ y)
  = Some {| Token.matched := m ++ "-" :: u ++ fst (span is_dot_char y);
            Token.group1 := Some ("-" :: u ++ fst (span is_dot_char y));
            Token.after := snd (span is_dot_char y) |}.
Proof.
  intros Hm Hu Du.
  apply release_text_spec in Hm as (a & b & c & -> & Ha & Da & Hb & Db & Hc & Dc).
  unfold Token.token. rewrite main_app by easy.
  unfold Token.tag. cbn [Token.lit]. rewrite char_eqb_refl.
  rewrite (span_app_all _ u y Du).
  destruct u as [|x u]; [easy|]. reflexivity.
Qed.

(** *** Tokens at the end of their lines *)

Lemma tokens_end_lines_skip (k : nat) (s : jsstring) :
  tokens_end_lines_from k s = tokens_end_lines_from 0 (skipn k s).
Proof.
  revert k. induction s as [|c s IH]; intros k; [now destruct k|].
  destruct k as [|k]; [reflexivity|]. simpl. apply IH.
Qed.

Lemma tokens_end_lines_token (s : jsstring) (f : Token.found) :
  Token.token s = Some f ->
  tokens_end_lines s
  = ends_line (Token.after f) && tokens_end_lines (Token.after f).
Proof.
  intros H. destruct (token_spec s f H) as (Hs & Hm & _).
  unfold tokens_end_lines. destruct s as [|c s].
  - destruct (Token.matched f); [easy|discriminate].
  - cbn [tokens_end_lines_from]. rewrite H. f_equal.
    rewrite tokens_end_lines_skip. f_equal.
    destruct (Token.matched f) as [|x m]; [easy|].
    injection Hs as _ ->. simpl. rewrite Nat.sub_0_r.
    now rewrite skipn_app, skipn_all, Nat.sub_diag.
Qed.

Lemma tokens_end_lines_copy (c : ascii) (s : jsstring) :
  Token.token (c :: s) = None ->
  tokens_end_lines (c :: s) = tokens_end_lines s.
Proof.
  intros H. unfold tokens_end_lines. cbn [tokens_end_lines_from].
  now rewrite H.
Qed.

Lemma no_digit_no_token (c : ascii) (s : jsstring) :
  is_digit c = false -> Token.token (c :: s) = None.
Proof.
  intros H. apply token_none_main. unfold Token.main.
  now rewrite (proj2 (digits1_head (c :: s)) H).
Qed.

Section Tagged.

(** A version text [v] with a prerelease part. *)
Variable m : jsstring.
Variable u : jsstring.
Hypothesis Hm : release_text m = true.
Hypothesis Hu : u <> [].
Hypothesis Du : forallb is_dot_char u = true.
Hypothesis Hv : no_dollar (m ++ "-" :: u) = true.

Lemma replace_all_ends_line (s : jsstring) :
  ends_line s = true ->
  ends_line (Replace.replace_all s (m ++ "-" :: u)) = true.
Proof.
  destruct s as [|c s]; [reflexivity|]. intros H.
  pose proof (ends_line_ends_token _ H) as He. simpl in He.
  apply andb_true_iff in He as [He _]. apply negb_true_iff in He.
  now rewrite (replace_all_copy _ Hv _ _ (no_digit_no_token c s He)).
Qed.

(** The scan of a text that starts with [v]: the token is [v] and what
    follows it on its line. *)
Lemma replace_all_tagged (y : jsstring) :
  Replace.replace_all ((m ++ "-" :: u) ++ y) (m ++ "-" :: u)
  = (m ++ "-" :: u)
    ++ Replace.replace_all (snd (span is_dot_char y)) (m ++ "-" :: u).
Proof.
  rewrite <- app_assoc. cbn [app].
  now rewrite (replace_all_token _ Hv _ _ (tagged_token m u y Hm Hu Du)).
Qed.

(** Where every token ends its line, a second pass finds the new version
    at the places of the tokens and nothing else. *)
Lemma replace_all_twice (s : jsstring) :
  tokens_end_lines s = true ->
  Replace.replace_all (Replace.replace_all s (m ++ "-" :: u)) (m ++ "-" :: u)
  = Replace.replace_all s (m ++ "-" :: u).
Proof.
  remember (length s) as n eqn:Hn.
  revert s Hn. induction n as [n IH] using lt_wf_ind. intros s Hn.
  destruct s as [|c s]; [reflexivity|].
  destruct (Token.token (c :: s)) as [f|] eqn:E.
  - destruct (token_spec _ _ E) as (Hs & Hne & _).
    rewrite (tokens_end_lines_token _ _ E), andb_true_iff. intros [Hl Ht].
    rewrite (replace_all_token _ Hv _ _ E), replace_all_tagged.
    rewrite (span_ends_line _ (replace_all_ends_line _ Hl)). cbn [snd].
    f_equal. apply (IH (length (Token.after f))); [|reflexivity|assumption].
    rewrite Hn, Hs, length_app.
    destruct (Token.matched f); [easy|]. simpl. lia.
  - rewrite (tokens_end_lines_copy _ _ E). intros Ht.
    rewrite (replace_all_copy _ Hv _ _ E).
    rewrite (replace_all_copy _ Hv _ _ (replace_all_no_token _ Hv _ _ E)).
    f_equal. apply (IH (length s)); [|reflexivity|assumption].
    rewrite Hn. simpl. lia.
Qed.

(** Where a token has text after it on its line, the second pass takes
    that text into the token. *)
Lemma replace_all_twice_differs (s : jsstring) :
  tokens_end_lines s = false ->
  Replace.replace_all (Replace.replace_all s (m ++ "-" :: u)) (m ++ "-" :: u)
  <> Replace.replace_all s (m ++ "-" :: u).
Proof.
  remember (length s) as n eqn:Hn.
  revert s Hn. induction n as [n IH] using lt_wf_ind. intros s Hn.
  destruct s as [|c s]; [discriminate|].
  destruct (Token.token (c :: s)) as [f|] eqn:E.
  - destruct (token_spec _ _ E) as (Hs & Hne & He).
    rewrite (tokens_end_lines_token _ _ E).
    rewrite (replace_all_token _ Hv _ _ E), replace_all_tagged.
    intros Ht Heq. apply app_inv_head in Heq.
    destruct (ends_line (Token.after f)) eqn:Hl.
    + rewrite (span_ends_line _ (replace_all_ends_line _ Hl)) in Heq.
      cbn [snd] in Heq. revert Heq.
      apply (IH (length (Token.after f))); [|reflexivity|exact Ht].
      rewrite Hn, Hs, length_app.
      destruct (Token.matched f); [easy|]. simpl. lia.
    + destruct (Token.after f) as [|d a]; [discriminate|].
      assert (Hd : is_digit d = false).
      { simpl in He. apply andb_true_iff in He as [He _].
        now apply negb_true_iff. }
      rewrite (replace_all_copy _ Hv _ _ (no_digit_no_token d a Hd)) in Heq.
      pose proof (replace_all_ends_line _
                    (span_rest_ends_line
                       (d :: Replace.replace_all a (m ++ "-" :: u)))) as Hr.
      rewrite Heq in Hr. simpl in Hr, Hl. congruence.
  - rewrite (tokens_end_lines_copy _ _ E). intros Ht.
    rewrite (replace_all_copy _ Hv _ _ E).
    rewrite (replace_all_copy _ Hv _ _ (replace_all_no_token _ Hv _ _ E)).
    intros Heq. injection Heq as Heq. revert Heq.
    apply (IH (length s)); [|reflexivity|assumption].
    rewrite Hn. simpl. lia.
Qed.

End Tagged.

(** C8, as the code has it. For every range and every new version text,
    major.minor.patch with an optional prerelease part, rewriting is
    idempotent exactly when the version has no prerelease part or every
    version token of the range is followed by the end of its line, as in
    a range made of an operator and one version. A version with a
    prerelease part is, once written, a token that runs to the end of
    its line: a second pass leaves it alone when nothing follows it
    there, and takes what follows into the token otherwise. *)
Theorem updateRange_idempotent_version (r v : jsstring) :
  version_text v = true ->
  no_dollar v = true ->
  updateRange (updateRange r (Some v)) (Some v) = updateRange r (Some v)
  <-> release_text v = true \/ tokens_end_lines r = true.
Proof.
  intros Ht Hv. unfold updateRange. simpl ToString.
  destruct (version_text_spec v Ht) as [Hr|(Hr & m & u & -> & Hm & Hu & Du)].
  - split; [now left|]. intros _. now apply replace_all_idempotent.
  - split.
    + intros H. right.
      destruct (tokens_end_lines r) eqn:E; [reflexivity|].
      now destruct (replace_all_twice_differs m u Hm Hu Du Hv r E).
    + intros [H|H]; [congruence|].
      now apply replace_all_twice.
Qed.

(** The range [^1.0.0-beta.1] rewritten twice with the next beta. *)
Lemma updateRange_idempotent_version_witness :
  updateRange (updateRange (str "^1.0.0-beta.1") (Some (str "1.0.0-beta.2")))
              (Some (str "1.0.0-beta.2"))
  = updateRange (str "^1.0.0-beta.1") (Some (str "1.0.0-beta.2")).
Proof.
  apply (updateRange_idempotent_version (str "^1.0.0-beta.1")
           (str "1.0.0-beta.2")).
  - reflexivity.
  - reflexivity.
  - right. reflexivity.
Defined.

(** C8, as the specification has it, fails: a prerelease version written
    into a range with two tokens is itself a token that runs to the end of
    the line, so the second pass swallows the upper bound. *)
Lemma updateRange_idempotent_counterexample :
  updateRange (str ">=1.0.0 <3.0.0") (Some (str "2.0.0-beta"))
  = str ">=2.0.0-beta <2.0.0-beta"
  /\ updateRange (updateRange (str ">=1.0.0 <3.0.0") (Some (str "2.0.0-beta")))
                 (Some (str "2.0.0-beta"))
     = str ">=2.0.0-beta"
  /\ updateRange (updateRange (str ">=1.0.0 <3.0.0") (Some (str "2.0.0-beta")))
                 (Some (str "2.0.0-beta"))
     <> updateRange (str ">=1.0.0 <3.0.0") (Some (str "2.0.0-beta")).
Proof.
  split; [reflexivity|]. split; [reflexivity|]. discriminate.
Qed.

(** ** Texts of versions *)

Lemma drop_while_head (p : ascii -> bool) (s : jsstring) :
  match s with [] => True | c :: _ => p c = false end ->
  drop_while p s = s.
Proof. destruct s as [|c s]; simpl; [easy|]. now intros ->. Qed.

Lemma drop_while_length (p : ascii -> bool) (s : jsstring) :
  (length (drop_while p s) <= length s)%nat.
Proof.
  induction s as [|c s IH]; simpl; [lia|]. destruct (p c); simpl; lia.
Qed.

Lemma trim_length (s : jsstring) : (length (trim s) <= length s)%nat.
Proof.
  unfold trim. rewrite length_rev.
  etransitivity; [apply drop_while_length|]. rewrite length_rev.
  apply drop_while_length.
Qed.

Lemma trim_no_white_space (s : jsstring) :
  forallb (fun c => negb (is_white_space c)) s = true -> trim s = s.
Proof.
  intros H. unfold trim.
  assert (Hd : forall t, forallb (fun c => negb (is_white_space c)) t = true ->
                         drop_while is_white_space t = t).
  { intros t Ht. apply drop_while_head. destruct t as [|c t]; [easy|].
    simpl in Ht. apply andb_true_iff in Ht as [Ht _].
    now apply negb_true_iff. }
  rewrite (Hd s H). rewrite Hd; [apply rev_involutive|].
  rewrite forallb_forall in *. intros c Hc. apply H. now apply in_rev.
Qed.

Lemma version_char_no_white_space (c : ascii) :
  is_version_char c = true -> negb (is_white_space c) = true.
Proof.
  destruct c as [[] [] [] [] [] [] [] []]; try discriminate; reflexivity.
Qed.

Lemma digit_or_dot_version_char (c : ascii) :
  is_digit_or_dot c = true -> is_version_char c = true.
Proof.
  destruct c as [[] [] [] [] [] [] [] []]; try discriminate; reflexivity.
Qed.

Lemma forallb_impl (p q : ascii -> bool) (s : jsstring) :
  (forall c, p c = true -> q c = true) ->
  forallb p s = true -> forallb q s = true.
Proof.
  intros Hpq. rewrite !forallb_forall. intros H c Hc. now apply Hpq, H.
Qed.

Lemma trim_version_chars (s : jsstring) :
  forallb is_version_char s = true -> trim s = s.
Proof.
  intros H. apply trim_no_white_space.
  revert H. apply forallb_impl, version_char_no_white_space.
Qed.

(** *** Cutting and splitting *)

Lemma cut_at_none (c : ascii) (s : jsstring) :
  forallb (fun x => negb (char_eqb x c)) s = true ->
  cut_at c s = (s, None).
Proof.
  induction s as [|x s IH]; simpl; [reflexivity|].
  rewrite andb_true_iff, negb_true_iff. intros [-> H].
  now rewrite (IH H).
Qed.

Lemma cut_at_some (c : ascii) (a t : jsstring) :
  forallb (fun x => negb (char_eqb x c)) a = true ->
  cut_at c (a ++ c :: t) = (a, Some t).
Proof.
  induction a as [|x a IH]; simpl.
  - now rewrite char_eqb_refl.
  - rewrite andb_true_iff, negb_true_iff. intros [-> H].
    now rewrite (IH H).
Qed.

Lemma cut_at_spec (c : ascii) (s a : jsstring) (r : option jsstring) :
  cut_at c s = (a, r) ->
  forallb (fun x => negb (char_eqb x c)) a = true
  /\ s = a ++ match r with Some t => c :: t | None => [] end.
Proof.
  revert a r. induction s as [|x s IH]; simpl; intros a r H.
  - injection H as <- <-. easy.
  - destruct (char_eqb x c) eqn:Ex.
    + injection H as <- <-. apply char_eqb_eq in Ex as ->. easy.
    + destruct (cut_at c s) as [a' r'] eqn:E. injection H as <- <-.
      destruct (IH a' r' eq_refl) as [Ha Hs]. simpl.
      rewrite Ex, Ha. split; [reflexivity|]. now f_equal.
Qed.

Lemma split_on_not_nil (c : ascii) (s : jsstring) : split_on c s <> [].
Proof.
  destruct s as [|x s]; simpl; [easy|].
  destruct (char_eqb x c); [easy|]. now destruct (split_on c s).
Qed.

Lemma join_cons (c : ascii) (a : jsstring) (l : list jsstring) :
  l <> [] -> join c (a :: l) = a ++ c :: join c l.
Proof. now destruct l. Qed.

Lemma join_split_on (c : ascii) (s : jsstring) : join c (split_on c s) = s.
Proof.
  induction s as [|x s IH]; [reflexivity|]. simpl.
  destruct (char_eqb x c) eqn:Ex.
  - apply char_eqb_eq in Ex as ->.
    rewrite join_cons by apply split_on_not_nil. simpl. now rewrite IH.
  - pose proof (split_on_not_nil c s) as Hne.
    destruct (split_on c s) as [|h t]; [easy|].
    destruct t as [|h' t].
    + simpl in *. now rewrite IH.
    + rewrite join_cons in IH |- * by easy.
      rewrite <- IH. reflexivity.
Qed.

Lemma split_on_no_sep (c : ascii) (a : jsstring) :
  forallb (fun x => negb (char_eqb x c)) a = true -> split_on c a = [a].
Proof.
  induction a as [|x a IH]; simpl; [reflexivity|].
  rewrite andb_true_iff, negb_true_iff. intros [-> H].
  now rewrite (IH H).
Qed.

Lemma split_on_app (c : ascii) (a t : jsstring) :
  forallb (fun x => negb (char_eqb x c)) a = true ->
  split_on c (a ++ c :: t) = a :: split_on c t.
Proof.
  induction a as [|x a IH]; simpl.
  - now rewrite char_eqb_refl.
  - rewrite andb_true_iff, negb_true_iff. intros [-> H].
    now rewrite (IH H).
Qed.

(** *** Decimal numerals *)

Lemma is_digit_cases (c : ascii) :
  is_digit c = true ->
  c = "0" \/ c = "1" \/ c = "2" \/ c = "3" \/ c = "4"
  \/ c = "5" \/ c = "6" \/ c = "7" \/ c = "8" \/ c = "9".
Proof.
  destruct c as [[] [] [] [] [] [] [] []]; try discriminate; intros _; tauto.
Qed.

Lemma digits_of_uint_digits (d : Decimal.uint) :
  forallb is_digit (digits_of_uint d) = true.
Proof. induction d; simpl; try rewrite IHd; reflexivity. Qed.

Lemma digits_of_uint_of_digits (s : jsstring) :
  forallb is_digit s = true -> digits_of_uint (uint_of_digits s) = s.
Proof.
  induction s as [|c s IH]; [reflexivity|]. simpl.
  rewrite andb_true_iff. intros [Hc Hs].
  destruct (is_digit_cases c Hc) as [->|[->|[->|[->|[->|[->|[->|[->|[->| ->]]]]]]]]];
    simpl; now rewrite IH.
Qed.

Lemma fold_digits_pos (d : Decimal.uint) (p : positive) :
  fold_left (fun acc c => (10 * acc + digit_val c)%N) (digits_of_uint d)
            (N.pos p)
  = N.pos (Pos.of_uint_acc d p).
Proof.
  revert p. induction d; intros p; simpl; try reflexivity;
    try (rewrite <- IHd; f_equal; unfold digit_val, code; simpl; lia).
Qed.

Lemma number_of_digits_of_uint (d : Decimal.uint) :
  number_of_digits (digits_of_uint d) = N.of_uint d.
Proof.
  unfold number_of_digits, N.of_uint.
  induction d; simpl; try reflexivity; try apply IHd;
    try (rewrite <- fold_digits_pos; reflexivity).
Qed.

Lemma numeric_identifier_digits (s : jsstring) :
  semver.numeric_identifier s = true -> forallb is_digit s = true /\ s <> [].
Proof.
  unfold semver.numeric_identifier. rewrite andb_true_iff.
  intros [H1 H2]. split; [assumption|]. now destruct s.
Qed.

Lemma numeric_identifier_unorm (s : jsstring) :
  semver.numeric_identifier s = true ->
  Decimal.unorm (uint_of_digits s) = uint_of_digits s.
Proof.
  unfold semver.numeric_identifier. rewrite andb_true_iff.
  intros [Hd H]. destruct s as [|c s]; [discriminate|].
  simpl in Hd. apply andb_true_iff in Hd as [Hc Hs].
  destruct s as [|c' s].
  - destruct (is_digit_cases c Hc) as [->|[->|[->|[->|[->|[->|[->|[->|[->| ->]]]]]]]]];
      reflexivity.
  - apply negb_true_iff, char_eqb_neq in H.
    destruct (is_digit_cases c Hc) as [->|[->|[->|[->|[->|[->|[->|[->|[->| ->]]]]]]]]];
      try reflexivity. now contradiction H.
Qed.

(** A number printed is the numeral it was read from, when that numeral
    has no leading zero. *)
Lemma string_of_number_of_digits (s : jsstring) :
  semver.numeric_identifier s = true ->
  string_of_number (number_of_digits s) = s.
Proof.
  intros H. destruct (numeric_identifier_digits s H) as [Hd _].
  unfold string_of_number.
  rewrite <- (digits_of_uint_of_digits s Hd) at 1.
  rewrite number_of_digits_of_uint, DecimalN.Unsigned.to_of.
  rewrite (numeric_identifier_unorm s H).
  now apply digits_of_uint_of_digits.
Qed.

Lemma string_of_number_digits (n : N) :
  forallb is_digit (string_of_number n) = true.
Proof. apply digits_of_uint_digits. Qed.

(** *** Character classes *)

Lemma digit_class (c : ascii) :
  is_digit c = true ->
  negb (char_eqb c "+") = true /\ negb (char_eqb c "-") = true
  /\ negb (char_eqb c ".") = true /\ char_eqb c "v" = false
  /\ is_alnum_dash c = true.
Proof.
  destruct c as [[] [] [] [] [] [] [] []]; try discriminate; intros _;
    repeat split.
Qed.

Lemma alnum_dash_class (c : ascii) :
  is_alnum_dash c = true ->
  negb (char_eqb c "+") = true /\ negb (char_eqb c ".") = true
  /\ is_version_char c = true.
Proof.
  destruct c as [[] [] [] [] [] [] [] []]; try discriminate; intros _;
    repeat split.
Qed.

Lemma digits_no (c : ascii) (s : jsstring) :
  c = "+" \/ c = "-" \/ c = "." ->
  forallb is_digit s = true ->
  forallb (fun x => negb (char_eqb x c)) s = true.
Proof.
  intros Hc. apply forallb_impl. intros x Hx.
  destruct (digit_class x Hx) as (H1 & H2 & H3 & _).
  now destruct Hc as [->|[->| ->]].
Qed.

Lemma digits_version_chars (s : jsstring) :
  forallb is_digit s = true -> forallb is_version_char s = true.
Proof.
  apply forallb_impl. intros x Hx.
  destruct (digit_class x Hx) as (_ & _ & _ & _ & H).
  now apply alnum_dash_class in H.
Qed.

Lemma forallb_join (q : ascii -> bool) (c : ascii) (l : list jsstring) :
  q c = true ->
  Forall (fun p => forallb q p = true) l ->
  forallb q (join c l) = true.
Proof.
  intros Hc. induction 1 as [|p l Hp Hl IH]; [reflexivity|].
  destruct l as [|p' l]; [assumption|].
  rewrite join_cons by easy. rewrite forallb_app. cbn [forallb].
  now rewrite Hp, Hc, IH.
Qed.

Lemma prerelease_identifier_chars (x : jsstring) :
  semver.prerelease_identifier x = true -> forallb is_alnum_dash x = true.
Proof.
  unfold semver.prerelease_identifier. rewrite orb_true_iff.
  intros [H|H].
  - apply numeric_identifier_digits in H as [H _]. revert H.
    apply forallb_impl. intros c Hc. apply (digit_class c Hc).
  - now apply andb_true_iff in H as [H _].
Qed.

(** The prerelease part of a matched text has identifier characters and
    dots. *)
Lemma prerelease_part_chars (p : jsstring) :
  forallb semver.prerelease_identifier (split_on "." p) = true ->
  forallb (fun c => negb (char_eqb c "+")) p = true
  /\ forallb is_version_char p = true.
Proof.
  intros H. rewrite <- (join_split_on "." p).
  rewrite forallb_forall in H.
  split; (apply forallb_join; [reflexivity|]);
    apply List.Forall_forall; intros x Hx; specialize (H x Hx);
    apply prerelease_identifier_chars in H; revert H;
    apply forallb_impl; intros c Hc; apply (alnum_dash_class c Hc).
Qed.

(** *** What FULL matches *)

Lemma match_full_inv (s : jsstring) (m : semver.full_match) :
  semver.match_full s = Some m ->
  (exists v, (v = [] \/ v = ["v"])
             /\ s = v ++ core m
                    ++ match semver.m5 m with
                       | Some b => "+" :: b
                       | None => []
                       end)
  /\ semver.numeric_identifier (semver.m1 m) = true
  /\ semver.numeric_identifier (semver.m2 m) = true
  /\ semver.numeric_identifier (semver.m3 m) = true
  /\ match semver.m4 m with
     | Some p => forallb semver.prerelease_identifier (split_on "." p) = true
     | None => True
     end.
Proof.
  unfold semver.match_full.
  set (s0 := match s with
             | c :: r => if char_eqb c "v" then r else s
             | [] => s
             end).
  assert (Hs0 : exists v, (v = [] \/ v = ["v"]) /\ s = v ++ s0).
  { subst s0. destruct s as [|c r]; [exists []; auto|].
    destruct (char_eqb c "v") eqn:Ec.
    - apply char_eqb_eq in Ec as ->. exists ["v"]. auto.
    - exists []. auto. }
  clearbody s0.
  destruct (cut_at "+" s0) as [s1 bld] eqn:E1.
  destruct (cut_at "-" s1) as [mn pre] eqn:E2.
  apply cut_at_spec in E1 as [_ E1]. apply cut_at_spec in E2 as [_ E2].
  pose proof (join_split_on "." mn) as Hj.
  destruct (split_on "." mn) as [|a [|b [|c [|]]]]; try discriminate.
  simpl in Hj.
  destruct (semver.numeric_identifier a) eqn:Ha; [|discriminate].
  destruct (semver.numeric_identifier b) eqn:Hb; [|discriminate].
  destruct (semver.numeric_identifier c) eqn:Hc; [|discriminate].
  simpl andb.
  destruct (match pre with
            | Some p => forallb semver.prerelease_identifier (split_on "." p)
            | None => true
            end) eqn:Hp; [|discriminate].
  simpl andb.
  destruct (match bld with
            | Some p => forallb semver.build_identifier (split_on "." p)
            | None => true
            end); [|discriminate].
  intros H. injection H as <-. simpl. unfold core. simpl.
  repeat split; try assumption.
  - destruct Hs0 as (v & Hv & ->). exists v. split; [assumption|].
    f_equal. rewrite E1, E2, <- Hj.
    repeat (rewrite <- ?app_assoc, <- ?app_comm_cons). reflexivity.
  - now destruct pre.
Qed.

Lemma core_split (m : semver.full_match) :
  core m
  = (semver.m1 m ++ "." :: semver.m2 m ++ "." :: semver.m3 m)
    ++ match semver.m4 m with
       | Some p => "-" :: p
       | None => []
       end.
Proof.
  unfold core. repeat (rewrite <- ?app_assoc, <- ?app_comm_cons). reflexivity.
Qed.

(** The core of a matched text matches by itself, with the same numbers
    and the same prerelease part. *)
Lemma match_full_core (s : jsstring) (m : semver.full_match) :
  semver.match_full s = Some m ->
  semver.match_full (core m)
  = Some {| semver.m1 := semver.m1 m; semver.m2 := semver.m2 m;
            semver.m3 := semver.m3 m; semver.m4 := semver.m4 m;
            semver.m5 := None |}
  /\ forallb is_version_char (core m) = true
  /\ (length (core m) <= length s)%nat.
Proof.
  intros H. destruct (match_full_inv s m H) as ((v & _ & Hs) & H1 & H2 & H3 & H4).
  destruct (numeric_identifier_digits _ H1) as [D1 N1].
  destruct (numeric_identifier_digits _ H2) as [D2 N2].
  destruct (numeric_identifier_digits _ H3) as [D3 N3].
  assert (Hmain : forall c, c = "+" \/ c = "-" ->
            forallb (fun x => negb (char_eqb x c))
                    (semver.m1 m ++ "." :: semver.m2 m ++ "." :: semver.m3 m)
            = true).
  { intros c Hc. rewrite forallb_app. simpl. rewrite forallb_app. simpl.
    rewrite !(digits_no c) by (assumption || tauto).
    now destruct Hc as [->| ->]. }
  split; [|split].
  - unfold semver.match_full.
    assert (Hv : match core m with
                 | c :: r => if char_eqb c "v" then r else core m
                 | [] => core m
                 end = core m).
    { unfold core. destruct (semver.m1 m) as [|c r]; [easy|].
      simpl in D1. apply andb_true_iff in D1 as [Dc _].
      simpl. now rewrite (proj1 (proj2 (proj2 (proj2 (digit_class c Dc))))). }
    rewrite Hv.
    assert (Hplus : forallb (fun x => negb (char_eqb x "+")) (core m) = true).
    { rewrite core_split, forallb_app, Hmain by tauto.
      destruct (semver.m4 m) as [p|]; [|reflexivity].
      simpl. now apply prerelease_part_chars. }
    rewrite (cut_at_none _ _ Hplus).
    assert (Hcut : cut_at "-" (core m)
                   = (semver.m1 m ++ "." :: semver.m2 m ++ "." :: semver.m3 m,
                      semver.m4 m)).
    { rewrite core_split. destruct (semver.m4 m) as [p|].
      - apply cut_at_some, Hmain. tauto.
      - rewrite app_nil_r. apply cut_at_none, Hmain. tauto. }
    rewrite Hcut.
    rewrite split_on_app by (apply digits_no; tauto).
    rewrite split_on_app by (apply digits_no; tauto).
    rewrite split_on_no_sep by (apply digits_no; tauto).
    rewrite H1, H2, H3. simpl andb.
    destruct (semver.m4 m) as [p|]; [rewrite H4|]; reflexivity.
  - rewrite core_split, forallb_app. apply andb_true_iff. split.
    + rewrite forallb_app. cbn [forallb]. rewrite forallb_app. cbn [forallb].
      now rewrite !digits_version_chars by assumption.
    + destruct (semver.m4 m) as [p|]; [|reflexivity].
      cbn [forallb]. now apply prerelease_part_chars.
  - rewrite Hs, !length_app. lia.
Qed.

(** *** Parsing and printing *)

Lemma new_SemVer_inv (s : jsstring) (p : semver.SemVer) :
  semver.new_SemVer (Some s) = Ok p ->
  (length s <= semver.MAX_LENGTH)%nat
  /\ exists m,
       semver.match_full (trim s) = Some m /\ p = built m
       /\ (number_of_digits (semver.m1 m) <= semver.MAX_SAFE_INTEGER)%N
       /\ (number_of_digits (semver.m2 m) <= semver.MAX_SAFE_INTEGER)%N
       /\ (number_of_digits (semver.m3 m) <= semver.MAX_SAFE_INTEGER)%N.
Proof.
  unfold semver.new_SemVer.
  destruct (semver.MAX_LENGTH <? length s)%nat eqn:El; [discriminate|].
  apply Nat.ltb_ge in El.
  destruct (semver.match_full (trim s)) as [m|]; [|discriminate].
  destruct (semver.MAX_SAFE_INTEGER <? number_of_digits (semver.m1 m))%N eqn:E1;
    [discriminate|].
  destruct (semver.MAX_SAFE_INTEGER <? number_of_digits (semver.m2 m))%N eqn:E2;
    [discriminate|].
  destruct (semver.MAX_SAFE_INTEGER <? number_of_digits (semver.m3 m))%N eqn:E3;
    [discriminate|].
  apply N.ltb_ge in E1, E2, E3.
  intros H. injection H as <-. split; [assumption|].
  exists m. repeat split; assumption.
Qed.

Lemma new_SemVer_built (s : jsstring) (m : semver.full_match) :
  (length s <= semver.MAX_LENGTH)%nat ->
  semver.match_full (trim s) = Some m ->
  (number_of_digits (semver.m1 m) <= semver.MAX_SAFE_INTEGER)%N ->
  (number_of_digits (semver.m2 m) <= semver.MAX_SAFE_INTEGER)%N ->
  (number_of_digits (semver.m3 m) <= semver.MAX_SAFE_INTEGER)%N ->
  semver.new_SemVer (Some s) = Ok (built m).
Proof.
  intros Hl Hm H1 H2 H3. unfold semver.new_SemVer.
  apply Nat.ltb_ge in Hl. apply N.ltb_ge in H1, H2, H3.
  now rewrite Hl, Hm, H1, H2, H3.
Qed.

Lemma parse_new_SemVer (s : jsstring) (p : semver.SemVer) :
  semver.parse (Some s) = Some p -> semver.new_SemVer (Some s) = Ok p.
Proof.
  unfold semver.parse.
  destruct (semver.MAX_LENGTH <? length s)%nat; [discriminate|].
  destruct (semver.match_full s); [|discriminate].
  destruct (semver.new_SemVer (Some s)); [|discriminate]. congruence.
Qed.

Lemma all_digits_no_other (x : jsstring) :
  forallb is_digit x = true ->
  existsb (fun c => negb (is_digit c)) x = false.
Proof.
  induction x as [|c x IH]; [reflexivity|]. simpl.
  rewrite andb_true_iff. intros [-> H]. now rewrite IH.
Qed.

(** An identifier prints as it was written. *)
Lemma identifier_string_numberify (x : jsstring) :
  semver.prerelease_identifier x = true ->
  semver.identifier_string (semver.numberify x) = x.
Proof.
  intros H. unfold semver.numberify.
  destruct (forallb is_digit x) eqn:Ed; [|reflexivity].
  destruct x as [|c x]; [reflexivity|]. cbn [andb].
  destruct (number_of_digits (c :: x) <? semver.MAX_SAFE_INTEGER)%N;
    [|reflexivity].
  simpl. apply string_of_number_of_digits.
  unfold semver.prerelease_identifier in H.
  rewrite (all_digits_no_other _ Ed), andb_false_r, orb_false_r in H.
  assumption.
Qed.

Lemma map_identifier_string_numberify (l : list jsstring) :
  forallb semver.prerelease_identifier l = true ->
  map semver.identifier_string (map semver.numberify l) = l.
Proof.
  induction l as [|x l IH]; [reflexivity|]. simpl.
  rewrite andb_true_iff. intros [Hx Hl].
  now rewrite identifier_string_numberify, IH.
Qed.

(** The [version] of a built object is the core of the matched text. *)
Lemma version_built (s : jsstring) (m : semver.full_match) :
  semver.match_full s = Some m -> semver.version (built m) = core m.
Proof.
  intros H. destruct (match_full_inv s m H) as (_ & H1 & H2 & H3 & H4).
  unfold semver.version, built, core.
  cbn [semver.major semver.minor semver.patch semver.prerelease].
  rewrite !string_of_number_of_digits by assumption.
  do 5 f_equal.
  destruct (semver.m4 m) as [p|]; [|reflexivity].
  pose proof (split_on_not_nil "." p) as Hne.
  pose proof (join_split_on "." p) as Hj.
  pose proof (map_identifier_string_numberify _ H4) as Hmap.
  destruct (split_on "." p) as [|x l]; [easy|].
  cbn [map] in *. now rewrite Hmap, Hj.
Qed.

(** Reading the [version] of a parsed version gives it back, without its
    build identifiers. *)
Lemma new_SemVer_version (s : jsstring) (p : semver.SemVer) :
  semver.new_SemVer (Some s) = Ok p ->
  semver.new_SemVer (Some (semver.version p)) = Ok (without_build p)
  /\ semver.parse (Some (semver.version p)) = Some (without_build p).
Proof.
  intros H.
  destruct (new_SemVer_inv s p H) as (Hl & m & Hm & -> & B1 & B2 & B3).
  destruct (match_full_core _ m Hm) as (Hc & Hchars & Hlen).
  rewrite (version_built _ m Hm).
  assert (Hn : semver.new_SemVer (Some (core m)) = Ok (without_build (built m))).
  { apply (new_SemVer_built (core m)
             {| semver.m1 := semver.m1 m; semver.m2 := semver.m2 m;
                semver.m3 := semver.m3 m; semver.m4 := semver.m4 m;
                semver.m5 := None |}); try assumption.
    - pose proof (trim_length s). lia.
    - now rewrite trim_version_chars. }
  split; [assumption|].
  unfold semver.parse.
  assert (Hl' : (semver.MAX_LENGTH <? length (core m))%nat = false).
  { apply Nat.ltb_ge. pose proof (trim_length s). lia. }
  now rewrite Hl', Hc, Hn.
Qed.

Lemma parse_version (p : semver.SemVer) :
  parsed_version p ->
  semver.new_SemVer (Some (semver.version p)) = Ok (without_build p)
  /\ semver.parse (Some (semver.version p)) = Some (without_build p).
Proof.
  intros [s Hs]. apply (new_SemVer_version s), parse_new_SemVer, Hs.
Qed.

(** *** Texts of digits and dots *)

(** A text of digits and dots parses to a version without prerelease
    identifiers, if it parses. *)
Lemma parse_digits_dots (s : jsstring) (p : semver.SemVer) :
  forallb is_digit_or_dot s = true ->
  semver.parse (Some s) = Some p -> semver.prerelease p = [].
Proof.
  intros Hs Hp. apply parse_new_SemVer, new_SemVer_inv in Hp
    as (_ & m & Hm & -> & _).
  rewrite trim_version_chars in Hm
    by (revert Hs; apply forallb_impl, digit_or_dot_version_char).
  unfold semver.match_full in Hm.
  assert (Hno : forall c, c = "+" \/ c = "-" ->
                  forallb (fun x => negb (char_eqb x c)) s = true).
  { intros c Hc. revert Hs. apply forallb_impl. intros x.
    destruct Hc as [->| ->];
      destruct x as [[] [] [] [] [] [] [] []]; try discriminate; reflexivity. }
  assert (Hv : match s with
               | c :: r => if char_eqb c "v" then r else s
               | [] => s
               end = s).
  { destruct s as [|c r]; [reflexivity|]. simpl in Hs.
    apply andb_true_iff in Hs as [Hc _].
    replace (char_eqb c "v") with false; [reflexivity|].
    destruct c as [[] [] [] [] [] [] [] []]; try discriminate; reflexivity. }
  rewrite Hv, (cut_at_none "+" s), (cut_at_none "-" s) in Hm by (apply Hno; tauto).
  destruct (split_on "." s) as [|a [|b [|c [|]]]]; try discriminate.
  destruct (_ && _); [|discriminate]. now injection Hm as <-.
Qed.

Lemma version_release_chars (p : semver.SemVer) :
  semver.prerelease p = [] -> forallb is_digit_or_dot (semver.version p) = true.
Proof.
  intros H. unfold semver.version. rewrite H, app_nil_r.
  assert (Hd : forall n, forallb is_digit_or_dot (string_of_number n) = true).
  { intros n. generalize (string_of_number_digits n).
    apply forallb_impl. intros c Hc. unfold is_digit_or_dot. now rewrite Hc. }
  rewrite forallb_app. cbn [forallb]. rewrite forallb_app. cbn [forallb].
  now rewrite !Hd.
Qed.

(** The version text of a release does not read as a prerelease. *)
Lemma isVersionPrerelease_release (p : semver.SemVer) :
  semver.prerelease p = [] ->
  isVersionPrerelease (Some (semver.version p)) = false.
Proof.
  intros H. unfold isVersionPrerelease.
  destruct (semver.parse (Some (semver.version p))) as [q|] eqn:E;
    [|reflexivity].
  now rewrite (parse_digits_dots _ q (version_release_chars p H) E).
Qed.

(** *** Coercion *)

Lemma digits_1_16_digits (s a r : jsstring) :
  semver.digits_1_16 s = Some (a, r) -> forallb is_digit a = true.
Proof.
  unfold semver.digits_1_16.
  destruct (span is_digit s) as [ds r'] eqn:E.
  apply span_spec in E as (_ & Hd & _).
  destruct ds as [|c ds]; [discriminate|].
  destruct (length (c :: ds) <=? 16)%nat; [|discriminate].
  intros H. now injection H as <- <-.
Qed.

Lemma dot_digits_digits (s a r : jsstring) :
  semver.dot_digits s = Some (a, r) -> forallb is_digit a = true.
Proof.
  unfold semver.dot_digits. destruct (Token.lit "." s); [|discriminate].
  apply digits_1_16_digits.
Qed.

Lemma coerce_at_digits (s a : jsstring) (b c : option jsstring) :
  semver.coerce_at s = Some (a, b, c) ->
  forallb is_digit a = true
  /\ forallb is_digit (match b with Some x => x | None => str "0" end) = true
  /\ forallb is_digit (match c with Some x => x | None => str "0" end) = true.
Proof.
  unfold semver.coerce_at.
  destruct (semver.digits_1_16 s) as [[a' s1]|] eqn:E1; [|discriminate].
  apply digits_1_16_digits in E1.
  destruct (semver.dot_digits s1) as [[b' s2]|] eqn:E2.
  - apply dot_digits_digits in E2.
    destruct (semver.dot_digits s2) as [[c' s3]|] eqn:E3.
    + apply dot_digits_digits in E3. intros H. injection H as <- <- <-. easy.
    + intros H. injection H as <- <- <-. easy.
  - intros H. injection H as <- <- <-. easy.
Qed.

Lemma coerce_search_digits (boundary : bool) (s a : jsstring)
    (b c : option jsstring) :
  semver.coerce_search boundary s = Some (a, b, c) ->
  forallb is_digit a = true
  /\ forallb is_digit (match b with Some x => x | None => str "0" end) = true
  /\ forallb is_digit (match c with Some x => x | None => str "0" end) = true.
Proof.
  revert boundary. induction s as [|x s IH]; intros boundary; simpl.
  - destruct boundary; [|discriminate].
    destruct (semver.coerce_at []) as [[[a' b'] c']|] eqn:E; [|discriminate].
    intros H. injection H as <- <- <-. now apply (coerce_at_digits []).
  - destruct (if boundary then semver.coerce_at (x :: s) else None)
      as [[[a' b'] c']|] eqn:E.
    + destruct boundary; [|discriminate].
      intros H. injection H as <- <- <-. now apply (coerce_at_digits (x :: s)).
    + apply IH.
Qed.

(** A coerced version is a parsed version without prerelease
    identifiers. *)
Lemma coerce_release (s : jsstring) (c : semver.SemVer) :
  semver.coerce s = Some c -> parsed_version c /\ semver.prerelease c = [].
Proof.
  unfold semver.coerce.
  destruct (semver.coerce_search true s) as [[[a b'] c']|] eqn:E;
    [|discriminate].
  apply coerce_search_digits in E as (Ha & Hb & Hc).
  intros H. split; [eexists; exact H|].
  apply (parse_digits_dots _ c) in H; [assumption|].
  assert (Hd : forall t, forallb is_digit t = true ->
                         forallb is_digit_or_dot t = true).
  { intros t. apply forallb_impl. intros x Hx. unfold is_digit_or_dot.
    now rewrite Hx. }
  rewrite forallb_app. cbn [forallb]. rewrite forallb_app. cbn [forallb].
  now rewrite !Hd.
Qed.

(** ** Loops with an invariant *)

Lemma for_of_invariant {S : Type} (P : S -> Prop)
    (body : S -> jsstring -> result S) (l : list jsstring) (st st' : S) :
  (forall st x st', P st -> body st x = Ok st' -> P st') ->
  P st -> for_of body l st = Ok st' -> P st'.
Proof.
  intros Hbody. revert st. induction l as [|x l IH]; intros st Hst; simpl.
  - intros H. now injection H as <-.
  - destruct (body st x) as [st1|] eqn:E; [|discriminate]. cbn [bind].
    apply IH. now apply (Hbody st x).
Qed.

(** ** The release-only policy *)

Lemma findVersion_body_release (data : Data) (opts : Opts) (pre : bool)
    (classes : list jsstring) (st st' : option jsstring * Z)
    (version : jsstring) :
  useRel opts = true ->
  release_or_null (fst st) ->
  findVersion_body data opts pre classes st version = Ok st' ->
  release_or_null (fst st').
Proof.
  intros Hrel Hst. destruct st as [tv td]. unfold findVersion_body.
  destruct (semver.parse (Some version)) as [parsed|]; [|discriminate].
  rewrite Hrel, orb_true_r, andb_true_r.
  destruct (semver.prerelease parsed) eqn:Ep;
    [|intros H; now injection H as <-].
  destruct (semver.diff tv _) as [d|]; [|discriminate]. cbn [bind].
  destruct (negb (truthy d) || _); [intros H; now injection H as <-|].
  assert (Hnew : release_or_null (Some (semver.version parsed)))
    by (now exists parsed).
  destruct (useGreatest opts || negb (has_time data)).
  - destruct (semver.coerce _); [|discriminate].
    destruct (semver.gte _ _) as [[]|]; try discriminate; cbn [bind];
      intros H; now injection H as <-.
  - destruct (getTime data version) as [date|];
      [destruct ((0 <=? date)%Z && (td <? date)%Z)|];
      intros H; now injection H as <-.
Qed.

Lemma findVersion_release (data : Data) (versions : list jsstring)
    (opts : Opts) (v : option jsstring) :
  useRel opts = true ->
  findVersion data versions opts = Ok v ->
  release_or_null v.
Proof.
  intros Hrel. unfold findVersion.
  destruct (for_of _ versions _) as [st|] eqn:E; [|discriminate]. cbn [bind].
  intros H. injection H as <-.
  assert (Hst : release_or_null (fst st)).
  { revert E. apply (for_of_invariant (fun st => release_or_null (fst st))).
    - intros st0 x st1. now apply findVersion_body_release.
    - unfold rangeToVersion. simpl.
      destruct (semver.coerce (range opts)) as [c|] eqn:Ec; [|exact I].
      apply coerce_release in Ec as [_ Ec]. now exists c. }
  now destruct (truthy (fst st)).
Qed.

(** C5. With the release-only policy, [findNewVersion] never returns a
    prerelease version, for any registry answer, range and version list:
    the selector starts from the coerced range, which has lost its
    prerelease tag, skips every prerelease, and the decider returns the
    selected version whenever the latest dist-tag is a prerelease. The
    exception that the specification allows for a range that is itself a
    prerelease is never used. *)
Theorem release_only_never_prerelease (data : Data) (opts : Opts)
    (v : jsstring) :
  useRel opts = true ->
  findNewVersion data opts = Ok (Some v) ->
  isVersionPrerelease (Some v) = false.
Proof.
  intros Hrel. unfold findNewVersion.
  destruct (string_eqb (range opts) (str "*")).
  { intros H. injection H as <-. reflexivity. }
  destruct (findVersion data _ opts) as [version|] eqn:Ef; [|discriminate].
  cbn [bind].
  apply (findVersion_release _ _ _ _ Hrel) in Ef.
  assert (Hv : Ok version = Ok (Some v) -> isVersionPrerelease (Some v) = false).
  { intros H. injection H as ->. destruct Ef as (t & -> & Ht).
    now apply isVersionPrerelease_release. }
  destruct (useGreatest opts); [exact Hv|].
  destruct (semver.coerce (range opts)); [|discriminate].
  destruct (semver.gt version _) as [isGreater|]; [|discriminate]. cbn [bind].
  rewrite Hrel. cbn [negb andb].
  destruct (isRangePrerelease (range opts) && isVersionPrerelease version);
    [exact Hv|]. cbn [orb].
  destruct (negb isGreater && _ && _); [exact Hv|].
  destruct (_ && _ && isGreater); [exact Hv|].
  destruct (_ && _ && negb isGreater); [discriminate|].
  destruct (semver.diff _ (latest data)) as [d|]; [|discriminate]. cbn [bind].
  destruct (truthy d && _ && _); [exact Hv|].
  destruct (isVersionPrerelease (latest data)) eqn:El; [exact Hv|].
  intros H. injection H as H. now rewrite <- H.
Qed.

(** A prerelease range under the release-only policy, with a prerelease
    as latest dist-tag: the release 1.0.0 is returned. *)
Lemma release_only_never_prerelease_witness :
  findNewVersion (track_data (Some (str "1.0.0-beta.2")) None)
                 {| usePre := true; useRel := true; useGreatest := false;
                    semvers := all_classes; range := str "1.0.0-beta.1" |}
  = Ok (Some (str "1.0.0"))
  /\ isVersionPrerelease (Some (str "1.0.0")) = false.
Proof.
  split; [vm_compute; reflexivity|].
  apply (release_only_never_prerelease
           (track_data (Some (str "1.0.0-beta.2")) None)
           {| usePre := true; useRel := true; useGreatest := false;
              semvers := all_classes; range := str "1.0.0-beta.1" |}).
  - reflexivity.
  - vm_compute. reflexivity.
Defined.

(** ** The diff ceiling *)

Lemma diff_versions (a b : semver.SemVer) :
  parsed_version a -> parsed_version b ->
  semver.diff (Some (semver.version a)) (Some (semver.version b))
  = Ok (diff_of (without_build a) (without_build b)).
Proof.
  intros Ha Hb.
  destruct (parse_version a Ha) as [Na Pa].
  destruct (parse_version b Hb) as [Nb Pb].
  unfold semver.diff, semver.eq, semver.compare, diff_of.
  rewrite Na, Nb. cbn [bind].
  destruct (semver.SemVer_compare _ _ =? 0)%Z; [reflexivity|].
  rewrite Pa, Pb.
  destruct (negb (_ =? _)%N); [reflexivity|].
  destruct (negb (_ =? _)%N); [reflexivity|].
  destruct (negb (_ =? _)%N); reflexivity.
Qed.

Lemma diff_null (b : option jsstring) : semver.diff None b = Throw TypeError.
Proof. reflexivity. Qed.

Lemma accepted_classes_accepted (opts : Opts) (c : ceiling) (pre : bool) :
  semvers opts = semvers_of c ->
  accepted opts pre = accepted_classes c pre.
Proof. unfold accepted. intros ->. now destruct c, pre. Qed.

Lemma within_refl (c : ceiling) (b : semver.SemVer) : within c b b.
Proof. now destruct c. Qed.

Lemma within_trans (c : ceiling) (b t p : semver.SemVer) :
  within c b t -> within c t p -> within c b p.
Proof. destruct c; simpl; intuition congruence. Qed.

(** An accepted diff class keeps the numbers above the ceiling. *)
Lemma diff_of_within (c : ceiling) (pre : bool) (t p : semver.SemVer)
    (d : jsstring) :
  diff_of t p = Some d ->
  includes (accepted_classes c pre) d = true ->
  within c t p.
Proof.
  unfold diff_of.
  destruct (semver.SemVer_compare t p =? 0)%Z; [discriminate|].
  destruct (match semver.prerelease t, semver.prerelease p with
            | [], [] => false
            | _, _ => true
            end);
    destruct (semver.major t =? semver.major p)%N eqn:E1,
             (semver.minor t =? semver.minor p)%N eqn:E2,
             (semver.patch t =? semver.patch p)%N eqn:E3;
    cbn [negb]; intros H Hi; try discriminate; injection H as <-;
    rewrite ?N.eqb_eq in *;
    destruct c, pre; vm_compute in Hi; try discriminate; simpl; auto.
Qed.

(** From a release, a version within the ceiling differs by an accepted
    class, if it differs. *)
Lemma diff_of_accepted (c : ceiling) (allow : bool) (b t : semver.SemVer) :
  semver.prerelease b = [] ->
  within c b t ->
  (semver.prerelease t <> [] -> allow = true) ->
  match diff_of b t with
  | None => True
  | Some d => In d (accepted_classes c allow)
  end.
Proof.
  intros Hb Hw Hpre. unfold diff_of.
  destruct (semver.SemVer_compare b t =? 0)%Z; [exact I|].
  rewrite Hb.
  assert (Hplain : forall d, In d (semvers_of c) ->
                             In d (accepted_classes c allow)).
  { intros d Hd. unfold accepted_classes. apply in_or_app. now left. }
  destruct (semver.major b =? semver.major t)%N eqn:E1;
    [|apply N.eqb_neq in E1];
    (destruct (semver.minor b =? semver.minor t)%N eqn:E2;
     [|apply N.eqb_neq in E2]);
    (destruct (semver.patch b =? semver.patch t)%N eqn:E3);
    cbn [negb];
    (destruct (semver.prerelease t) as [|i ids];
     [|rewrite Hpre by easy]);
    try exact I;
    destruct c; simpl in Hw; try (destruct Hw; congruence);
    try congruence;
    try (apply Hplain; simpl; now auto);
    simpl; auto 10.
Qed.

Lemma findVersion_body_within (data : Data) (opts : Opts) (c : ceiling)
    (pre : bool) (b : option semver.SemVer) (st st' : option jsstring * Z)
    (version : jsstring) :
  selected_within c pre b (fst st) ->
  findVersion_body data opts pre (accepted_classes c pre) st version = Ok st' ->
  selected_within c pre b (fst st').
Proof.
  intros Hst. destruct st as [tv td]. unfold findVersion_body.
  destruct (semver.parse (Some version)) as [parsed|] eqn:Ep; [|discriminate].
  destruct (match semver.prerelease parsed with [] => false | _ => true end
            && (negb pre || useRel opts)) eqn:Eskip;
    [intros H; now injection H as <-|].
  assert (Hallow : semver.prerelease parsed <> [] -> pre = true).
  { intros Hne. destruct (semver.prerelease parsed); [easy|].
    simpl in Eskip. now destruct pre. }
  assert (Hparsed : parsed_version parsed) by (now exists version).
  destruct b as [bv|]; simpl in Hst.
  2:{ subst tv. rewrite diff_null. discriminate. }
  destruct Hst as (t & -> & Ht & Hw & Hp).
  rewrite (diff_versions t parsed Ht Hparsed). cbn [bind].
  destruct (diff_of (without_build t) (without_build parsed)) as [d|] eqn:Ed;
    [|intros H; injection H as <-; simpl; eauto 6].
  destruct (negb (truthy (Some d)) || negb (includes _ (ToString (Some d))))
    eqn:Ec; [intros H; injection H as <-; simpl; eauto 6|].
  apply orb_false_iff in Ec as [_ Ec]. apply negb_false_iff in Ec.
  simpl ToString in Ec.
  pose proof (diff_of_within c pre _ _ d Ed Ec) as Hstep.
  assert (Hnew : selected_within c pre (Some bv)
                                 (Some (semver.version parsed))).
  { exists parsed. repeat split; try assumption.
    apply (within_trans c bv t parsed Hw). now destruct c. }
  assert (Hold : selected_within c pre (Some bv) (Some (semver.version t))).
  { exists t. now repeat split. }
  destruct (useGreatest opts || negb (has_time data)).
  - destruct (semver.coerce _); [|discriminate].
    destruct (semver.gte _ _) as [[]|]; try discriminate; cbn [bind];
      intros H; now injection H as <-.
  - destruct (getTime data version) as [date|];
      [destruct ((0 <=? date)%Z && (td <? date)%Z)|];
      intros H; now injection H as <-.
Qed.

(** C1. Whatever the range, the policy and the list of published
    versions, a version that [findVersion] returns differs from the
    baseline version of the range, if at all, by a diff class of the
    accepted set of the policy's ceiling: patch, patch and minor, or all
    three, with the prerelease class and the pre-variants of these when
    the range is a prerelease or prereleases are allowed. Each turn of
    the loop compares with the running version, and a chain of accepted
    steps stays within the ceiling of the baseline. *)
Theorem findVersion_within_ceiling (data : Data) (versions : list jsstring)
    (opts : Opts) (c : ceiling) (v : jsstring) :
  semvers opts = semvers_of c ->
  findVersion data versions opts = Ok (Some v) ->
  exists d,
    semver.diff (rangeToVersion (range opts)) (Some v) = Ok d
    /\ match d with
       | None => True
       | Some cls =>
           In cls (accepted_classes c (isRangePrerelease (range opts)
                                       || usePre opts))
       end.
Proof.
  intros Hc. unfold findVersion.
  set (allow := isRangePrerelease (range opts) || usePre opts).
  rewrite (accepted_classes_accepted opts c allow Hc).
  destruct (for_of _ versions _) as [st|] eqn:E; [|discriminate]. cbn [bind].
  intros H. injection H as H.
  assert (Hst : selected_within c allow (semver.coerce (range opts)) (fst st)).
  { revert E.
    apply (for_of_invariant
             (fun st => selected_within c allow (semver.coerce (range opts))
                                        (fst st))).
    - intros st0 x st1. apply findVersion_body_within.
    - unfold rangeToVersion. simpl.
      destruct (semver.coerce (range opts)) as [bv|] eqn:Eb; [|reflexivity].
      apply coerce_release in Eb as [Hb1 Hb2].
      exists bv. repeat split; [assumption|apply within_refl|].
      now rewrite Hb2. }
  destruct (truthy (fst st)); [|discriminate].
  unfold rangeToVersion.
  destruct (semver.coerce (range opts)) as [bv|] eqn:Eb; simpl in Hst;
    [|congruence].
  destruct Hst as (t & Ht & Hparsed & Hw & Hp).
  rewrite Ht in H. injection H as <-.
  apply coerce_release in Eb as [Hb1 Hb2].
  rewrite (diff_versions bv t Hb1 Hparsed).
  eexists. split; [reflexivity|].
  apply diff_of_accepted; [assumption|now destruct c|assumption].
Qed.

(** From [^1.2.3] with the minor ceiling the selector returns 1.3.0, a
    minor step. *)
Lemma findVersion_within_ceiling_witness :
  findVersion (minor_data None) minor_versions (minor_opts false false false)
  = Ok (Some (str "1.3.0"))
  /\ exists d,
       semver.diff (rangeToVersion (str "^1.2.3")) (Some (str "1.3.0")) = Ok d
       /\ match d with
          | None => True
          | Some cls => In cls (accepted_classes UpToMinor false)
          end.
Proof.
  split; [vm_compute; reflexivity|].
  apply (findVersion_within_ceiling (minor_data None) minor_versions
           (minor_opts false false false) UpToMinor (str "1.3.0")).
  - reflexivity.
  - vm_compute. reflexivity.
Defined.

(** ** The loop over the registry answers *)

Section HandlerFacts.

Variable getInfoUrl : Data -> option jsstring -> jsstring.
Variable cfg : Config.

(** One answer leaves the other entries alone, and removes its own entry
    or makes it a changed one. *)
Lemma handle_spec (deps deps' : gmap jsstring Dep) (data : Data) :
  handle getInfoUrl cfg deps data = Ok deps' ->
  (forall n, n <> name data -> deps' !! n = deps !! n)
  /\ is_Some (deps !! name data)
  /\ (forall e, deps' !! name data = Some e -> changed e).
Proof.
  unfold handle. destruct (truthy (error data)); [discriminate|].
  destruct (deps !! name data) as [dep|] eqn:Ed; [|discriminate].
  destruct (findNewVersion data _) as [newVersion|]; [|discriminate].
  simpl bind.
  destruct (negb (truthy newVersion)
            || string_eqb (old dep) (updateRange (old dep) newVersion)) eqn:E;
    intros H; injection H as <-.
  - split; [|split].
    + intros n Hn. now apply lookup_delete_ne.
    + eauto.
    + intros e. now rewrite lookup_delete_eq.
  - split; [|split].
    + intros n Hn. now apply lookup_insert_ne.
    + eauto.
    + intros e. rewrite lookup_insert_eq. intros He. injection He as <-.
      apply orb_false_iff in E as [_ E]. apply string_eqb_neq in E.
      eexists. split; [reflexivity|]. simpl. congruence.
Qed.


End HandlerFacts.



(** C6. Whatever the policy and the published versions, a dependency
    declared with the range [*] resolves to no change: [findNewVersion]
    answers [*] at once, the rewritten range is the old range, and the
    entry is deleted from the result set. *)
Theorem wildcard_is_no_change
    (getInfoUrl : Data -> option jsstring -> jsstring) (cfg : Config)
    (deps : gmap jsstring Dep) (data : Data) (dep : Dep) :
  truthy (error data) = false ->
  deps !! name data = Some dep ->
  old dep = str "*" ->
  (forall opts, range opts = str "*" ->
                findNewVersion data opts = Ok (Some (str "*")))
  /\ updateRange (str "*") (Some (str "*")) = str "*"
  /\ handle getInfoUrl cfg deps data = Ok (delete (name data) deps).
Proof.
  intros He Hd Ho. split; [|split].
  - intros opts Hr. unfold findNewVersion. now rewrite Hr.
  - reflexivity.
  - unfold handle. rewrite He, Hd, Ho. reflexivity.
Qed.

(** An entry with the range [*] is deleted, whatever the registry has. *)
Lemma wildcard_is_no_change_witness :
  handle no_info minor_cfg star_deps (track_data None None)
  = Ok (delete (str "pkg") star_deps).
Proof.
  apply (wildcard_is_no_change no_info minor_cfg star_deps
           (track_data None None)
           {| old := str "*"; new := None; info := None |});
    reflexivity.
Defined.

(** ** The selector and the decider on the examples *)

(** C10. When [useGreatest] holds for a package whose range is not [*],
    [findNewVersion] returns what [findVersion] selected, and two registry
    answers that differ in the latest dist-tag only resolve alike. *)
Theorem findNewVersion_greatest_ignores_latest (data : Data) (opts : Opts) :
  useGreatest opts = true ->
  range opts <> str "*" ->
  findNewVersion data opts
  = findVersion data
      (filter (fun version => truthy (semver.valid (Some version)))
              (versions data)) opts
  /\ forall l1 l2,
       findNewVersion (with_latest l1 data) opts
       = findNewVersion (with_latest l2 data) opts.
Proof.
  intros Hg Hr. apply string_eqb_neq in Hr.
  assert (H : forall d,
             findNewVersion d opts
             = findVersion d
                 (filter (fun version => truthy (semver.valid (Some version)))
                         (versions d)) opts).
  { intros d. unfold findNewVersion. rewrite Hr, Hg.
    now destruct (findVersion d _ opts). }
  split; [apply H|]. intros l1 l2. rewrite !H. reflexivity.
Qed.

(** The same answer with and without a latest dist-tag. *)
Lemma findNewVersion_greatest_ignores_latest_witness :
  findNewVersion (with_latest (Some (str "1.0.0-rc.1")) late_beta_data)
                 late_beta_opts
  = findNewVersion (with_latest None late_beta_data) late_beta_opts.
Proof.
  apply (findNewVersion_greatest_ignores_latest late_beta_data late_beta_opts).
  - reflexivity.
  - discriminate.
Defined.

(** C4. With [useGreatest] the selector compares the coerced candidate,
    without its prerelease tag, to the running version, so among
    prereleases of one release it keeps the last one seen, not the
    greatest: here 1.0.0-beta.2, although 1.0.0-rc.1 qualifies and is
    greater. *)
Lemma findVersion_greatest_keeps_last_prerelease :
  findVersion late_beta_data late_beta_versions late_beta_opts
  = Ok (Some (str "1.0.0-beta.2"))
  /\ findNewVersion late_beta_data late_beta_opts
     = Ok (Some (str "1.0.0-beta.2"))
  /\ semver.gt (Some (str "1.0.0-rc.1")) (Some (str "1.0.0-beta.2")) = Ok true
  /\ findVersion late_beta_data [str "1.0.0-rc.1"] late_beta_opts
     = Ok (Some (str "1.0.0-rc.1")).
Proof. repeat split; vm_compute; reflexivity. Qed.


(** ** One turn of the selector's loop *)













(** ** Ranges made of an operator and a version *)

Lemma fold_digits_lower (s : jsstring) (acc : N) :
  (acc * 10 ^ N.of_nat (length s)
   <= fold_left (fun acc c => (10 * acc + digit_val c)%N) s acc)%N.
Proof.
  revert acc. induction s as [|c s IH]; intros acc.
  - simpl. lia.
  - cbn [fold_left length]. rewrite Nat2N.inj_succ, N.pow_succ_r'.
    etransitivity; [|apply IH]. nia.
Qed.

(** A numeral without a leading zero that denotes a safe integer has at
    most sixteen digits. *)
Lemma numeric_identifier_length (a : jsstring) :
  semver.numeric_identifier a = true ->
  (number_of_digits a <= semver.MAX_SAFE_INTEGER)%N ->
  (length a <= 16)%nat.
Proof.
  unfold semver.numeric_identifier. rewrite andb_true_iff.
  intros [Hd Hz] Hn. destruct a as [|c [|c' s]]; [discriminate|simpl; lia|].
  apply negb_true_iff, char_eqb_neq in Hz.
  cbn [forallb] in Hd. apply andb_true_iff in Hd as [Hc _].
  assert (H1 : (1 <= digit_val c)%N).
  { destruct (is_digit_cases c Hc) as [->|[->|[->|[->|[->|[->|[->|[->|[->| ->]]]]]]]]];
      try (now contradiction Hz); vm_compute; discriminate. }
  destruct (Nat.le_gt_cases (length (c :: c' :: s)) 16) as [Hl|Hl];
    [assumption|exfalso].
  assert (Hn' : (fold_left (fun acc c => (10 * acc + digit_val c)%N) (c' :: s)
                           (digit_val c) <= semver.MAX_SAFE_INTEGER)%N)
    by exact Hn.
  pose proof (fold_digits_lower (c' :: s) (digit_val c)) as Hlow.
  assert (Hp : (10 ^ 16 <= 10 ^ N.of_nat (length (c' :: s)))%N).
  { apply N.pow_le_mono_r; [lia|]. simpl in Hl |- *. lia. }
  assert (Hm : (semver.MAX_SAFE_INTEGER < 10 ^ 16)%N) by reflexivity.
  pose proof (N.mul_le_mono_r _ _ (10 ^ N.of_nat (length (c' :: s))) H1) as Hd1.
  rewrite N.mul_1_l in Hd1. lia.
Qed.

Lemma digits_1_16_app (a r : jsstring) :
  a <> [] -> forallb is_digit a = true -> (length a <= 16)%nat ->
  match r with [] => True | c :: _ => is_digit c = false end ->
  semver.digits_1_16 (a ++ r) = Some (a, r).
Proof.
  intros Hne Ha Hl Hr. unfold semver.digits_1_16.
  rewrite (span_app _ _ _ Ha Hr). destruct a as [|c a]; [easy|].
  apply Nat.leb_le in Hl. now rewrite Hl.
Qed.

Lemma coerce_search_skip (op s : jsstring) :
  forallb (fun c => negb (is_digit c)) op = true ->
  s <> [] ->
  semver.coerce_search true (op ++ s) = semver.coerce_search true s.
Proof.
  intros Hop Hs.
  assert (H : forall b, op <> [] ->
                semver.coerce_search b (op ++ s) = semver.coerce_search true s).
  { induction op as [|c op IH]; intros b Hne; [easy|].
    cbn [forallb] in Hop. apply andb_true_iff in Hop as [Hc Hop].
    assert (Hat : semver.coerce_at ((c :: op) ++ s) = None).
    { unfold semver.coerce_at, semver.digits_1_16. simpl.
      apply negb_true_iff in Hc. now rewrite Hc. }
    cbn [semver.coerce_search app]. change (c :: op ++ s) with ((c :: op) ++ s).
    rewrite Hat. replace (if b then None else None)
      with (@None (jsstring * option jsstring * option jsstring))
      by now destruct b.
    rewrite Hc. destruct op as [|c' op]; [reflexivity|].
    now apply IH. }
  destruct op as [|c op]; [reflexivity|]. now apply H.
Qed.

(** The groups that COERCE finds in three numerals, whatever text without
    a digit stands before them and whatever follows that is not a
    digit. *)
Lemma coerce_search_numbers (op a b c tail : jsstring) :
  forallb (fun x => negb (is_digit x)) op = true ->
  semver.numeric_identifier a = true ->
  semver.numeric_identifier b = true ->
  semver.numeric_identifier c = true ->
  (number_of_digits a <= semver.MAX_SAFE_INTEGER)%N ->
  (number_of_digits b <= semver.MAX_SAFE_INTEGER)%N ->
  (number_of_digits c <= semver.MAX_SAFE_INTEGER)%N ->
  match tail with [] => True | x :: _ => is_digit x = false end ->
  semver.coerce_search true (op ++ (a ++ "." :: b ++ "." :: c) ++ tail)
  = Some (a, Some b, Some c).
Proof.
  intros Hop Ha Hb Hc Na Nb Nc Ht.
  destruct (numeric_identifier_digits _ Ha) as [Da Ea].
  destruct (numeric_identifier_digits _ Hb) as [Db Eb].
  destruct (numeric_identifier_digits _ Hc) as [Dc Ec].
  rewrite coerce_search_skip; [|assumption|now destruct a].
  assert (Hat : semver.coerce_at ((a ++ "." :: b ++ "." :: c) ++ tail)
                = Some (a, Some b, Some c)).
  { unfold semver.coerce_at.
    repeat (rewrite <- ?app_assoc, <- ?app_comm_cons).
    rewrite (digits_1_16_app a);
      [|assumption|assumption|now apply numeric_identifier_length|reflexivity].
    unfold semver.dot_digits. cbn [Token.lit]. rewrite char_eqb_refl.
    rewrite (digits_1_16_app b);
      [|assumption|assumption|now apply numeric_identifier_length|reflexivity].
    cbn [Token.lit]. rewrite char_eqb_refl.
    rewrite (digits_1_16_app c);
      [|assumption|assumption|now apply numeric_identifier_length|assumption].
    reflexivity. }
  destruct ((a ++ "." :: b ++ "." :: c) ++ tail) as [|x s] eqn:E.
  - now destruct a.
  - cbn [semver.coerce_search]. now rewrite Hat.
Qed.

(** What a parsed version is made of: the groups of the match it was
    built from. *)
Lemma parsed_version_inv (p : semver.SemVer) :
  parsed_version p ->
  exists m,
    p = built m /\ semver.version p = core m
    /\ semver.numeric_identifier (semver.m1 m) = true
    /\ semver.numeric_identifier (semver.m2 m) = true
    /\ semver.numeric_identifier (semver.m3 m) = true
    /\ (number_of_digits (semver.m1 m) <= semver.MAX_SAFE_INTEGER)%N
    /\ (number_of_digits (semver.m2 m) <= semver.MAX_SAFE_INTEGER)%N
    /\ (number_of_digits (semver.m3 m) <= semver.MAX_SAFE_INTEGER)%N
    /\ match semver.m4 m with
       | Some pre =>
           forallb semver.prerelease_identifier (split_on "." pre) = true
       | None => True
       end.
Proof.
  intros [s Hs]. apply parse_new_SemVer, new_SemVer_inv in Hs
    as (_ & m & Hm & -> & B1 & B2 & B3).
  destruct (match_full_inv _ m Hm) as (_ & H1 & H2 & H3 & H4).
  exists m. rewrite (version_built _ m Hm). now repeat split.
Qed.

(** Three numerals joined by dots parse to their numbers. *)
Lemma parse_numbers (a b c : jsstring) :
  semver.numeric_identifier a = true ->
  semver.numeric_identifier b = true ->
  semver.numeric_identifier c = true ->
  (number_of_digits a <= semver.MAX_SAFE_INTEGER)%N ->
  (number_of_digits b <= semver.MAX_SAFE_INTEGER)%N ->
  (number_of_digits c <= semver.MAX_SAFE_INTEGER)%N ->
  semver.parse (Some (a ++ "." :: b ++ "." :: c))
  = Some {| semver.major := number_of_digits a;
            semver.minor := number_of_digits b;
            semver.patch := number_of_digits c;
            semver.prerelease := [];
            semver.build := [] |}.
Proof.
  intros Ha Hb Hc Na Nb Nc.
  destruct (numeric_identifier_digits _ Ha) as [Da Ea].
  destruct (numeric_identifier_digits _ Hb) as [Db Eb].
  destruct (numeric_identifier_digits _ Hc) as [Dc Ec].
  set (t := a ++ "." :: b ++ "." :: c).
  assert (Hno : forall x, x = "+" \/ x = "-" ->
                  forallb (fun y => negb (char_eqb y x)) t = true).
  { intros x Hx. subst t. rewrite forallb_app. cbn [forallb].
    rewrite forallb_app. cbn [forallb].
    rewrite !(digits_no x) by (assumption || tauto).
    now destruct Hx as [->| ->]. }
  assert (Hm : semver.match_full t
               = Some {| semver.m1 := a; semver.m2 := b; semver.m3 := c;
                         semver.m4 := None; semver.m5 := None |}).
  { unfold semver.match_full.
    assert (Hv : match t with
                 | x :: r => if char_eqb x "v" then r else t
                 | [] => t
                 end = t).
    { subst t. destruct a as [|x r]; [easy|].
      cbn [forallb] in Da. apply andb_true_iff in Da as [Dx _].
      simpl. now rewrite (proj1 (proj2 (proj2 (proj2 (digit_class x Dx))))). }
    rewrite Hv, (cut_at_none "+" t), (cut_at_none "-" t) by (apply Hno; tauto).
    subst t.
    rewrite split_on_app by (apply digits_no; tauto).
    rewrite split_on_app by (apply digits_no; tauto).
    rewrite split_on_no_sep by (apply digits_no; tauto).
    now rewrite Ha, Hb, Hc. }
  assert (Hchars : forallb is_version_char t = true).
  { subst t. rewrite forallb_app. cbn [forallb]. rewrite forallb_app.
    cbn [forallb]. now rewrite !digits_version_chars by assumption. }
  assert (Hlen : (length t <= semver.MAX_LENGTH)%nat).
  { subst t. rewrite length_app. cbn [length]. rewrite length_app.
    cbn [length].
    pose proof (numeric_identifier_length _ Ha Na).
    pose proof (numeric_identifier_length _ Hb Nb).
    pose proof (numeric_identifier_length _ Hc Nc).
    unfold semver.MAX_LENGTH. lia. }
  unfold semver.parse. apply Nat.ltb_ge in Hlen as Hlen'. rewrite Hlen', Hm.
  rewrite (new_SemVer_built t
             {| semver.m1 := a; semver.m2 := b; semver.m3 := c;
                semver.m4 := None; semver.m5 := None |});
    [reflexivity|assumption| |assumption..].
  now rewrite trim_version_chars.
Qed.

Lemma release_of_version (m : semver.full_match) :
  semver.numeric_identifier (semver.m1 m) = true ->
  semver.numeric_identifier (semver.m2 m) = true ->
  semver.numeric_identifier (semver.m3 m) = true ->
  semver.version (release_of (built m))
  = semver.m1 m ++ "." :: semver.m2 m ++ "." :: semver.m3 m.
Proof.
  intros H1 H2 H3. unfold semver.version, release_of, built.
  cbn [semver.major semver.minor semver.patch semver.prerelease].
  rewrite !string_of_number_of_digits by assumption.
  now rewrite app_nil_r.
Qed.

(** Coercing a version text, whatever operator stands before it, gives
    the numbers of the version. *)
Lemma coerce_plain_range (op : jsstring) (p : semver.SemVer) :
  forallb (fun c => negb (is_digit c)) op = true ->
  parsed_version p ->
  semver.coerce (op ++ semver.version p) = Some (release_of p).
Proof.
  intros Hop Hp.
  destruct (parsed_version_inv p Hp)
    as (m & -> & Hv & H1 & H2 & H3 & B1 & B2 & B3 & H4).
  rewrite Hv, core_split. unfold semver.coerce.
  rewrite coerce_search_numbers; try assumption.
  - now apply parse_numbers.
  - now destruct (semver.m4 m).
Qed.

(** X1. The baseline of a range made of an operator without digits and
    the text of a version as [semver] prints it, the three numbers and
    the prerelease identifiers without a leading [v] and without a build
    part, is the version without its prerelease tag: coercion reads the
    three numbers and nothing else. *)
Theorem rangeToVersion_plain_range (op : jsstring) (p : semver.SemVer) :
  forallb (fun c => negb (is_digit c)) op = true ->
  parsed_version p ->
  rangeToVersion (op ++ semver.version p)
  = Some (semver.version (release_of p)).
Proof.
  intros Hop Hp. unfold rangeToVersion.
  now rewrite (coerce_plain_range op p Hop Hp).
Qed.

(** The range [^1.2.3-beta.1] has the baseline 1.2.3. *)
Lemma rangeToVersion_plain_range_witness :
  exists p,
    semver.parse (Some (str "1.2.3-beta.1")) = Some p
    /\ rangeToVersion (str "^" ++ semver.version p)
       = Some (semver.version (release_of p))
    /\ semver.version (release_of p) = str "1.2.3".
Proof.
  eexists. split; [vm_compute; reflexivity|]. split; [|reflexivity].
  apply rangeToVersion_plain_range; [reflexivity|].
  exists (str "1.2.3-beta.1"). vm_compute. reflexivity.
Defined.

(** X2. For every range, the baseline that [rangeToVersion] returns is
    never a prerelease: the coercion drops the tag, which is why
    [isRangePrerelease] looks at the text of the range. *)
Theorem rangeToVersion_never_prerelease (range v : jsstring) :
  rangeToVersion range = Some v -> isVersionPrerelease (Some v) = false.
Proof.
  unfold rangeToVersion.
  destruct (semver.coerce range) as [c|] eqn:E; [|discriminate].
  intros H. injection H as <-.
  apply coerce_release in E as [_ E]. now apply isVersionPrerelease_release.
Qed.

Lemma rangeToVersion_never_prerelease_witness :
  rangeToVersion (str "~2.0.0-rc.3") = Some (str "2.0.0")
  /\ isVersionPrerelease (Some (str "2.0.0")) = false.
Proof.
  split; [reflexivity|].
  apply (rangeToVersion_never_prerelease (str "~2.0.0-rc.3")). reflexivity.
Defined.

(** *** The textual prerelease check *)

Lemma version_char_dot_char (c : ascii) :
  is_version_char c = true -> is_dot_char c = true.
Proof.
  destruct c as [[] [] [] [] [] [] [] []]; try discriminate; reflexivity.
Qed.

Lemma test_app (at_start : jsstring -> bool) (op s : jsstring) :
  at_start s = true -> Token.test at_start (op ++ s) = true.
Proof.
  intros H. induction op as [|c op IH]; simpl.
  - destruct s; simpl; now rewrite H.
  - rewrite IH. apply orb_true_r.
Qed.

Lemma pre_token_no_dash (s : jsstring) :
  forallb (fun c => negb (char_eqb c "-")) s = true ->
  Token.pre_token s = false.
Proof.
  intros H. unfold Token.pre_token.
  destruct (Token.main s) as [[m r]|] eqn:E; [|reflexivity].
  apply main_spec in E as (_ & _ & _ & _ & -> & _).
  rewrite forallb_app in H. apply andb_true_iff in H as [_ H].
  unfold Token.tag. destruct r as [|x r]; [reflexivity|]. simpl in H |- *.
  apply andb_true_iff in H as [H _]. apply negb_true_iff in H. now rewrite H.
Qed.

(** A range without a dash is no prerelease range. *)
Lemma isRangePrerelease_no_dash (s : jsstring) :
  forallb (fun c => negb (char_eqb c "-")) s = true ->
  isRangePrerelease s = false.
Proof.
  unfold isRangePrerelease. induction s as [|c s IH]; intros H.
  - reflexivity.
  - cbn [Token.test]. rewrite (pre_token_no_dash _ H).
    cbn [forallb] in H. apply andb_true_iff in H as [_ H]. now apply IH.
Qed.

(** The prerelease part of a matched text starts with a character that
    the dot of a pattern matches. *)
Lemma prerelease_part_head (pre : jsstring) :
  forallb semver.prerelease_identifier (split_on "." pre) = true ->
  pre <> [] /\ forallb is_dot_char pre = true.
Proof.
  intros H. split.
  - intros ->. discriminate.
  - apply prerelease_part_chars in H as [_ H]. revert H.
    apply forallb_impl, version_char_dot_char.
Qed.

(** The version text of a parsed version as a token: the whole text. *)
Lemma token_version (p : semver.SemVer) :
  parsed_version p ->
  exists g,
    Token.token (semver.version p)
    = Some {| Token.matched := semver.version p; Token.group1 := g;
              Token.after := [] |}
    /\ Token.pre_token (semver.version p)
       = match semver.prerelease p with [] => false | _ => true end.
Proof.
  intros Hp.
  destruct (parsed_version_inv p Hp)
    as (m & -> & Hv & H1 & H2 & H3 & _ & _ & _ & H4).
  destruct (numeric_identifier_digits _ H1) as [D1 E1].
  destruct (numeric_identifier_digits _ H2) as [D2 E2].
  destruct (numeric_identifier_digits _ H3) as [D3 E3].
  rewrite Hv, core_split. unfold Token.token, Token.pre_token.
  unfold built. cbn [semver.prerelease].
  destruct (semver.m4 m) as [pre|].
  - destruct (prerelease_part_head pre H4) as [Hne Hdot].
    rewrite main_app by (assumption || reflexivity).
    assert (Ht : Token.tag ("-" :: pre) = Some ("-" :: pre, [])).
    { unfold Token.tag. cbn [Token.lit]. rewrite char_eqb_refl.
      rewrite <- (app_nil_r pre) at 1.
      rewrite (span_app is_dot_char pre [] Hdot I). now destruct pre. }
    rewrite Ht. eexists. split; [reflexivity|].
    pose proof (split_on_not_nil "." pre). now destruct (split_on "." pre).
  - rewrite main_app by (assumption || reflexivity).
    cbn. rewrite app_nil_r. eexists. split; reflexivity.
Qed.

Lemma isVersionPrerelease_version (p : semver.SemVer) :
  parsed_version p ->
  isVersionPrerelease (Some (semver.version p))
  = match semver.prerelease p with [] => false | _ => true end.
Proof.
  intros Hp. unfold isVersionPrerelease.
  now rewrite (proj2 (parse_version p Hp)).
Qed.

(** X3. On a range made of an operator without a dash and the text of a
    version as [semver] prints it, without a leading [v] and without a
    build part, the textual check [isRangePrerelease] agrees with the
    parsed check [isVersionPrerelease] of the version. *)
Theorem isRangePrerelease_plain_range (op : jsstring) (p : semver.SemVer) :
  forallb (fun c => negb (char_eqb c "-")) op = true ->
  parsed_version p ->
  isRangePrerelease (op ++ semver.version p)
  = isVersionPrerelease (Some (semver.version p)).
Proof.
  intros Hop Hp. rewrite (isVersionPrerelease_version p Hp).
  destruct (token_version p Hp) as (g & _ & Hpre).
  destruct (semver.prerelease p) eqn:E.
  - apply isRangePrerelease_no_dash. rewrite forallb_app, Hop.
    generalize (version_release_chars p E). apply forallb_impl.
    intros c. destruct c as [[] [] [] [] [] [] [] []];
      try discriminate; reflexivity.
  - unfold isRangePrerelease. now apply test_app.
Qed.

Lemma isRangePrerelease_plain_range_witness :
  exists p,
    semver.parse (Some (str "1.0.0-beta.1")) = Some p
    /\ isRangePrerelease (str "^" ++ semver.version p) = true
    /\ isVersionPrerelease (Some (semver.version p)) = true.
Proof.
  eexists. split; [vm_compute; reflexivity|].
  split; [|vm_compute; reflexivity].
  etransitivity.
  - apply isRangePrerelease_plain_range; [reflexivity|].
    exists (str "1.0.0-beta.1"). vm_compute. reflexivity.
  - vm_compute. reflexivity.
Defined.

(** *** Rewriting an operator and a version *)

Lemma replace_all_prefix (v op s : jsstring) :
  no_dollar v = true ->
  forallb (fun c => negb (is_digit c)) op = true ->
  Replace.replace_all (op ++ s) v = op ++ Replace.replace_all s v.
Proof.
  intros Hv. induction op as [|c op IH]; [reflexivity|].
  cbn [forallb]. rewrite andb_true_iff, negb_true_iff. intros [Hc Hop].
  change ((c :: op) ++ s) with (c :: (op ++ s)).
  rewrite (replace_all_copy v Hv).
  - simpl. f_equal. now apply IH.
  - apply token_none_main. unfold Token.main.
    now rewrite (proj2 (digits1_head (c :: op ++ s)) Hc).
Qed.

(** X4. A range made of an operator without digits and the text of a
    version as [semver] prints it, without a leading [v] and without a
    build part, is rewritten to the operator and the new version, for
    every new version without a dollar sign: the whole version text, with
    its prerelease tag, gives way. *)
Theorem updateRange_plain_range (op v : jsstring) (p : semver.SemVer) :
  no_dollar v = true ->
  forallb (fun c => negb (is_digit c)) op = true ->
  parsed_version p ->
  updateRange (op ++ semver.version p) (Some v) = op ++ v.
Proof.
  intros Hv Hop Hp. unfold updateRange. cbn [ToString].
  rewrite (replace_all_prefix v op _ Hv Hop).
  destruct (token_version p Hp) as (g & Ht & _).
  rewrite (replace_all_token v Hv _ _ Ht). cbn [Token.after].
  unfold Replace.replace_all. simpl. now rewrite app_nil_r.
Qed.

Lemma updateRange_plain_range_witness :
  exists p,
    semver.parse (Some (str "1.0.0-beta.1")) = Some p
    /\ updateRange (str "~" ++ semver.version p) (Some (str "1.0.0"))
       = str "~" ++ str "1.0.0".
Proof.
  eexists. split; [vm_compute; reflexivity|].
  apply updateRange_plain_range; [reflexivity|reflexivity|].
  exists (str "1.0.0-beta.1"). vm_compute. reflexivity.
Defined.

(** ** What the selector and the decider return *)

Lemma for_of_invariant_in {S : Type} (P : S -> Prop)
    (body : S -> jsstring -> result S) (l : list jsstring) (st st' : S) :
  (forall st x st', In x l -> P st -> body st x = Ok st' -> P st') ->
  P st -> for_of body l st = Ok st' -> P st'.
Proof.
  revert st. induction l as [|x l IH]; intros st Hbody Hst; simpl.
  - intros H. now injection H as <-.
  - destruct (body st x) as [st1|] eqn:E; [|discriminate]. cbn [bind].
    apply IH.
    + intros st0 y st2 Hy. apply Hbody. now right.
    + apply (Hbody st x); [now left|assumption..].
Qed.

Lemma for_of_throw {S : Type} (P : exn -> Prop)
    (body : S -> jsstring -> result S) (l : list jsstring) (st : S) (e : exn) :
  (forall st x e, body st x = Throw e -> P e) ->
  for_of body l st = Throw e -> P e.
Proof.
  intros Hbody. revert st. induction l as [|x l IH]; intros st; simpl.
  - discriminate.
  - destruct (body st x) as [st1|e1] eqn:E; cbn [bind].
    + apply IH.
    + intros H. injection H as <-. now apply (Hbody st x).
Qed.

(** *** The library throws type errors only *)

Lemma new_SemVer_throw (a : option jsstring) (e : exn) :
  semver.new_SemVer a = Throw e -> e = TypeError.
Proof.
  unfold semver.new_SemVer. destruct a as [s|]; [|congruence].
  destruct (_ <? _)%nat; [congruence|].
  destruct (semver.match_full _); [|congruence].
  repeat (destruct (_ <? _)%N; [congruence|]). discriminate.
Qed.

Lemma compare_throw (a b : option jsstring) (e : exn) :
  semver.compare a b = Throw e -> e = TypeError.
Proof.
  unfold semver.compare.
  destruct (semver.new_SemVer a) as [va|ea] eqn:Ea; cbn [bind].
  - destruct (semver.new_SemVer b) as [vb|eb] eqn:Eb; cbn [bind];
      [discriminate|].
    intros H. injection H as <-. now apply (new_SemVer_throw b).
  - intros H. injection H as <-. now apply (new_SemVer_throw a).
Qed.

Lemma gt_throw (a b : option jsstring) (e : exn) :
  semver.gt a b = Throw e -> e = TypeError.
Proof.
  unfold semver.gt. destruct (semver.compare a b) eqn:E; cbn [bind];
    [discriminate|].
  intros H. injection H as <-. now apply (compare_throw a b).
Qed.

Lemma gte_throw (a b : option jsstring) (e : exn) :
  semver.gte a b = Throw e -> e = TypeError.
Proof.
  unfold semver.gte. destruct (semver.compare a b) eqn:E; cbn [bind];
    [discriminate|].
  intros H. injection H as <-. now apply (compare_throw a b).
Qed.

Lemma diff_throw (a b : option jsstring) (e : exn) :
  semver.diff a b = Throw e -> e = TypeError.
Proof.
  unfold semver.diff, semver.eq.
  destruct (semver.compare a b) as [c|ec] eqn:E; cbn [bind].
  - destruct (c =? 0)%Z; [discriminate|].
    destruct (semver.parse a), (semver.parse b); try congruence.
    repeat (destruct (negb _); [discriminate|]). discriminate.
  - intros H. injection H as <-. now apply (compare_throw a b).
Qed.

(** A diff class is no empty text. *)
Lemma diff_not_empty (a b : option jsstring) (d : jsstring) :
  semver.diff a b = Ok (Some d) -> d <> [].
Proof.
  unfold semver.diff, semver.eq.
  destruct (semver.compare a b) as [c|]; cbn [bind]; [|discriminate].
  destruct (c =? 0)%Z; [discriminate|].
  destruct (semver.parse a) as [v1|], (semver.parse b) as [v2|];
    try discriminate.
  destruct (match semver.prerelease v1, semver.prerelease v2 with
            | [], [] => false
            | _, _ => true
            end);
    repeat (destruct (negb _); [intros H; injection H as <-; discriminate|]);
    intros H; first [discriminate H | injection H as <-; discriminate].
Qed.

Lemma findVersion_body_throw (data : Data) (opts : Opts) (pre : bool)
    (classes : list jsstring) (st : option jsstring * Z) (x : jsstring)
    (e : exn) :
  findVersion_body data opts pre classes st x = Throw e -> e = TypeError.
Proof.
  destruct st as [tv td]. unfold findVersion_body.
  destruct (semver.parse (Some x)) as [parsed|]; [|congruence].
  destruct (_ && (negb pre || useRel opts)); [discriminate|].
  destruct (semver.diff tv _) as [d|ed] eqn:Ed; cbn [bind].
  2:{ intros H. injection H as <-. now apply (diff_throw _ _ _ Ed). }
  destruct (negb (truthy d) || _); [discriminate|].
  destruct (useGreatest opts || negb (has_time data)).
  - destruct (semver.coerce _); [|congruence].
    destruct (semver.gte _ tv) as [[]|eg] eqn:Eg; cbn [bind]; try discriminate.
    intros H. injection H as <-. now apply (gte_throw _ _ _ Eg).
  - destruct (getTime data x) as [date|]; [|discriminate].
    destruct (_ && _); discriminate.
Qed.

Lemma findVersion_throw (data : Data) (versions : list jsstring)
    (opts : Opts) (e : exn) :
  findVersion data versions opts = Throw e -> e = TypeError.
Proof.
  unfold findVersion.
  destruct (for_of _ versions _) as [st|e1] eqn:E; cbn [bind]; [discriminate|].
  intros H. injection H as <-. revert E.
  apply (for_of_throw (fun e => e = TypeError)).
  intros st x e. apply findVersion_body_throw.
Qed.

(** *** Where a selected version comes from *)

Lemma valid_parse (x : jsstring) (parsed : semver.SemVer) :
  semver.parse (Some x) = Some parsed ->
  semver.valid (Some x) = Some (semver.version parsed).
Proof. unfold semver.valid. now intros ->. Qed.

Lemma findVersion_body_cases (data : Data) (opts : Opts) (pre : bool)
    (classes : list jsstring) (st st' : option jsstring * Z) (x : jsstring) :
  findVersion_body data opts pre classes st x = Ok st' ->
  st' = st
  \/ exists parsed,
       semver.parse (Some x) = Some parsed
       /\ fst st' = Some (semver.version parsed)
       /\ match semver.prerelease parsed with [] => false | _ => true end
          && (negb pre || useRel opts) = false
       /\ fst st <> None.
Proof.
  destruct st as [tv td]. unfold findVersion_body.
  destruct (semver.parse (Some x)) as [parsed|]; [|discriminate].
  destruct (_ && (negb pre || useRel opts)) eqn:Es;
    [intros H; injection H as <-; now left|].
  destruct tv as [t|]; [|rewrite diff_null; discriminate].
  destruct (semver.diff _ _) as [d|]; cbn [bind]; [|discriminate].
  destruct (negb (truthy d) || _); [intros H; injection H as <-; now left|].
  destruct (useGreatest opts || negb (has_time data)).
  - destruct (semver.coerce _); [|discriminate].
    destruct (semver.gte _ _) as [[]|]; cbn [bind]; try discriminate;
      intros H; injection H as <-; [|now left].
    right. exists parsed. now repeat split.
  - destruct (getTime data x) as [date|];
      [destruct ((0 <=? date)%Z && (td <? date)%Z)|];
      intros H; injection H as <-; [|now left..].
    right. exists parsed. now repeat split.
Qed.

(** The selector returns the baseline of the range or the normal form of
    one of the versions it was given. *)
Lemma findVersion_provenance (data : Data) (versions : list jsstring)
    (opts : Opts) (v : jsstring) :
  findVersion data versions opts = Ok (Some v) ->
  rangeToVersion (range opts) = Some v
  \/ exists x, In x versions /\ semver.valid (Some x) = Some v.
Proof.
  unfold findVersion.
  destruct (for_of _ versions _) as [st|] eqn:E; [|discriminate]. cbn [bind].
  intros H. injection H as H.
  assert (Hst : fst st = rangeToVersion (range opts)
                \/ exists x, In x versions
                             /\ semver.valid (Some x) = fst st).
  { revert E.
    apply (for_of_invariant_in
             (fun st => fst st = rangeToVersion (range opts)
                        \/ exists x, In x versions
                                     /\ semver.valid (Some x) = fst st)).
    - intros st0 x st1 Hx Hst0 Hb.
      apply findVersion_body_cases in Hb as [->|(parsed & Hp & Hf & _)];
        [assumption|].
      right. exists x. split; [assumption|]. rewrite Hf.
      now apply valid_parse.
    - now left. }
  destruct (truthy (fst st)); [|discriminate].
  rewrite H in Hst. destruct Hst as [Hst|Hst]; [now left|now right].
Qed.

(** X5. Whatever [findNewVersion] returns is the wildcard, the baseline
    of the range, the normal form of one of the published versions, or
    the latest dist-tag: it never makes up a version. *)
Theorem findNewVersion_provenance (data : Data) (opts : Opts) (v : jsstring) :
  findNewVersion data opts = Ok (Some v) ->
  (range opts = str "*" /\ v = str "*")
  \/ rangeToVersion (range opts) = Some v
  \/ (exists x, In x (versions data) /\ semver.valid (Some x) = Some v)
  \/ latest data = Some v.
Proof.
  unfold findNewVersion.
  destruct (string_eqb (range opts) (str "*")) eqn:Er.
  { apply string_eqb_eq in Er. intros H. injection H as <-. now left. }
  destruct (findVersion data _ opts) as [version|] eqn:Ef; [|discriminate].
  cbn [bind].
  assert (Hv : Ok version = Ok (Some v) ->
               (range opts = str "*" /\ v = str "*")
               \/ rangeToVersion (range opts) = Some v
               \/ (exists x, In x (versions data)
                             /\ semver.valid (Some x) = Some v)
               \/ latest data = Some v).
  { intros H. injection H as ->.
    apply findVersion_provenance in Ef as [Hb|(x & Hx & Hval)].
    - right. now left.
    - right. right. left. exists x. split; [|assumption].
      apply list_elem_of_In, list_elem_of_filter in Hx as [_ Hx].
      now apply list_elem_of_In. }
  destruct (useGreatest opts); [exact Hv|].
  destruct (semver.coerce (range opts)); [|discriminate].
  destruct (semver.gt version _) as [isGreater|]; [|discriminate]. cbn [bind].
  destruct (_ || _); [exact Hv|].
  destruct (_ && _ && _ && _); [exact Hv|].
  destruct (_ && _ && isGreater); [exact Hv|].
  destruct (_ && _ && negb isGreater); [discriminate|].
  destruct (semver.diff _ (latest data)) as [d|]; [|discriminate]. cbn [bind].
  destruct (truthy d && _ && _); [exact Hv|].
  destruct (useRel opts && _); [exact Hv|].
  intros H. injection H as H. now repeat right.
Qed.

(** The minor ceiling with dates: 1.3.0 is returned, which is the normal
    form of a published version. *)
Lemma findNewVersion_provenance_witness :
  findNewVersion (minor_data (Some (in_order minor_versions)))
                 (minor_opts false false false)
  = Ok (Some (str "1.3.0"))
  /\ ((range (minor_opts false false false) = str "*"
       /\ str "1.3.0" = str "*")
      \/ rangeToVersion (range (minor_opts false false false))
         = Some (str "1.3.0")
      \/ (exists x, In x (versions (minor_data (Some (in_order minor_versions))))
                    /\ semver.valid (Some x) = Some (str "1.3.0"))
      \/ latest (minor_data (Some (in_order minor_versions)))
         = Some (str "1.3.0")).
Proof.
  split; [vm_compute; reflexivity|].
  apply (findNewVersion_provenance
           (minor_data (Some (in_order minor_versions)))
           (minor_opts false false false) (str "1.3.0")).
  vm_compute. reflexivity.
Defined.

(** *** Prereleases *)

(** Unless the range is a prerelease or prereleases are asked for, and
    always under the release-only policy, the selector returns a release
    or nothing. *)
Lemma findVersion_no_prerelease (data : Data) (versions : list jsstring)
    (opts : Opts) (v : option jsstring) :
  negb (isRangePrerelease (range opts) || usePre opts) || useRel opts = true ->
  findVersion data versions opts = Ok v ->
  release_or_null v.
Proof.
  intros Hpol. unfold findVersion.
  destruct (for_of _ versions _) as [st|] eqn:E; [|discriminate]. cbn [bind].
  intros H. injection H as <-.
  assert (Hst : release_or_null (fst st)).
  { revert E. apply (for_of_invariant (fun st => release_or_null (fst st))).
    - intros st0 x st1 Hst0 Hb.
      apply findVersion_body_cases in Hb as [->|(parsed & _ & -> & Hp & _)];
        [assumption|].
      rewrite Hpol, andb_true_r in Hp. exists parsed. split; [reflexivity|].
      now destruct (semver.prerelease parsed).
    - unfold rangeToVersion. simpl.
      destruct (semver.coerce (range opts)) as [c|] eqn:Ec; [|exact I].
      apply coerce_release in Ec as [_ Ec]. now exists c. }
  now destruct (truthy (fst st)).
Qed.

(** X6. Without the prerelease option and with a range that is no
    prerelease, the only prerelease that [findNewVersion] can return is
    the latest dist-tag itself: the selector skips every prerelease, so
    a prerelease can only come from the last line of the decider. *)
Theorem findNewVersion_prerelease_is_latest (data : Data) (opts : Opts)
    (v : jsstring) :
  isRangePrerelease (range opts) = false ->
  usePre opts = false ->
  findNewVersion data opts = Ok (Some v) ->
  isVersionPrerelease (Some v) = true ->
  latest data = Some v.
Proof.
  intros Hrange Hpre Hfind Hv. revert Hfind. unfold findNewVersion.
  destruct (string_eqb (range opts) (str "*")).
  { intros H. injection H as <-. discriminate Hv. }
  destruct (findVersion data _ opts) as [version|] eqn:Ef; [|discriminate].
  cbn [bind].
  apply findVersion_no_prerelease in Ef; [|now rewrite Hrange, Hpre].
  assert (Hsel : Ok version = Ok (Some v) -> latest data = Some v).
  { intros H. injection H as ->. destruct Ef as (t & -> & Ht).
    now rewrite (isVersionPrerelease_release t Ht) in Hv. }
  destruct (useGreatest opts); [exact Hsel|].
  destruct (semver.coerce (range opts)); [|discriminate].
  destruct (semver.gt version _) as [isGreater|]; [|discriminate]. cbn [bind].
  destruct (_ || _); [exact Hsel|].
  destruct (_ && _ && _ && _); [exact Hsel|].
  destruct (_ && _ && isGreater); [exact Hsel|].
  destruct (_ && _ && negb isGreater); [discriminate|].
  destruct (semver.diff _ (latest data)) as [d|]; [|discriminate]. cbn [bind].
  destruct (truthy d && _ && _); [exact Hsel|].
  destruct (useRel opts && _); [exact Hsel|].
  intros H. now injection H as H.
Qed.

(** A package whose latest dist-tag is a beta of the next minor: with the
    range [^1.0.0] and no option the beta is returned. *)
Lemma findNewVersion_prerelease_is_latest_witness :
  latest {| name := str "pkg"; error := None;
            versions := [str "1.0.0"; str "1.1.0-beta.1"];
            latest := Some (str "1.1.0-beta.1"); time := None |}
  = Some (str "1.1.0-beta.1").
Proof.
  apply (findNewVersion_prerelease_is_latest
           {| name := str "pkg"; error := None;
              versions := [str "1.0.0"; str "1.1.0-beta.1"];
              latest := Some (str "1.1.0-beta.1"); time := None |}
           {| usePre := false; useRel := false; useGreatest := false;
              semvers := all_classes; range := str "^1.0.0" |}
           (str "1.1.0-beta.1")).
  - vm_compute. reflexivity.
  - reflexivity.
  - vm_compute. reflexivity.
  - vm_compute. reflexivity.
Defined.

(** *** Ranges without a number *)

Lemma findVersion_no_baseline (data : Data) (versions : list jsstring)
    (opts : Opts) (v : option jsstring) :
  rangeToVersion (range opts) = None ->
  findVersion data versions opts = Ok v -> v = None.
Proof.
  intros Hbase. unfold findVersion.
  destruct (for_of _ versions _) as [st|] eqn:E; [|discriminate]. cbn [bind].
  intros H. injection H as <-.
  assert (Hst : fst st = None).
  { revert E. apply (for_of_invariant (fun st => fst st = None)).
    - intros st0 x st1 Hst0 Hb.
      apply findVersion_body_cases in Hb as [->|(parsed & _ & _ & _ & Hn)];
        [assumption|contradiction].
    - exact Hbase. }
  now rewrite Hst.
Qed.

(** X7. For a range in which [semver.coerce] finds no number, such as
    [x] or [latest], [findNewVersion] never returns a version: with the
    greatest option it returns nothing or throws, and without it every
    run ends in the TypeError of reading [.version] of [null]. *)
Theorem findNewVersion_no_baseline (data : Data) (opts : Opts) :
  rangeToVersion (range opts) = None ->
  range opts <> str "*" ->
  (forall v, findNewVersion data opts <> Ok (Some v))
  /\ (useGreatest opts = false -> findNewVersion data opts = Throw TypeError).
Proof.
  intros Hbase Hstar. unfold findNewVersion.
  destruct (string_eqb (range opts) (str "*")) eqn:Er;
    [now apply string_eqb_eq in Er|].
  assert (Hc : semver.coerce (range opts) = None).
  { unfold rangeToVersion in Hbase.
    now destruct (semver.coerce (range opts)). }
  destruct (findVersion data _ opts) as [version|e] eqn:Ef; cbn [bind].
  - apply (findVersion_no_baseline _ _ _ _ Hbase) in Ef as ->.
    rewrite Hc. split; [|now intros ->].
    intros v. now destruct (useGreatest opts).
  - apply findVersion_throw in Ef as ->. split; [discriminate|reflexivity].
Qed.

(** The range [x] with the minor example's registry answer. *)
Lemma findNewVersion_no_baseline_witness :
  (forall v,
     findNewVersion (minor_data None)
                    {| usePre := false; useRel := false; useGreatest := false;
                       semvers := all_classes; range := str "x" |}
     <> Ok (Some v))
  /\ (false = false ->
      findNewVersion (minor_data None)
                     {| usePre := false; useRel := false; useGreatest := false;
                        semvers := all_classes; range := str "x" |}
      = Throw TypeError).
Proof.
  apply (findNewVersion_no_baseline (minor_data None)
           {| usePre := false; useRel := false; useGreatest := false;
              semvers := all_classes; range := str "x" |}).
  - vm_compute. reflexivity.
  - discriminate.
Defined.

(** ** The greatest mode never goes below the baseline *)

Lemma compareMain_main_ge (v o : semver.SemVer) :
  (0 <= semver.compareMain v o)%Z -> main_ge v o.
Proof.
  unfold semver.compareMain, semver.compareIdentifiers, semver.or_else,
    main_ge.
  cbn [semver.numeric semver.to_number andb].
  destruct (N.eqb_spec (semver.major v) (semver.major o)) as [E1|E1];
    destruct (N.ltb_spec (semver.major v) (semver.major o)) as [L1|L1];
    destruct (N.eqb_spec (semver.minor v) (semver.minor o)) as [E2|E2];
    destruct (N.ltb_spec (semver.minor v) (semver.minor o)) as [L2|L2];
    destruct (N.eqb_spec (semver.patch v) (semver.patch o)) as [E3|E3];
    destruct (N.ltb_spec (semver.patch v) (semver.patch o)) as [L3|L3];
    cbn [Z.eqb]; lia.
Qed.

Lemma main_ge_trans (a b c : semver.SemVer) :
  main_ge a b -> main_ge b c -> main_ge a c.
Proof. unfold main_ge. lia. Qed.

Lemma main_ge_refl (a : semver.SemVer) : main_ge a a.
Proof. unfold main_ge. lia. Qed.

(** A release that [compare] does not put below a version has numbers
    that are not below it. *)
Lemma SemVer_compare_main_ge (v o : semver.SemVer) :
  parsed_version v -> parsed_version o ->
  (0 <= semver.SemVer_compare (without_build v) (without_build o))%Z ->
  main_ge v o.
Proof.
  intros Hv Ho. unfold semver.SemVer_compare.
  destruct (string_eqb _ _) eqn:E.
  - intros _. apply string_eqb_eq in E.
    destruct (parse_version v Hv) as [_ Pv].
    destruct (parse_version o Ho) as [_ Po].
    assert (Hv' : parsed_version (without_build v)) by (eexists; exact Pv).
    assert (Ho' : parsed_version (without_build o)) by (eexists; exact Po).
    destruct (parse_version _ Hv') as [_ Pv'].
    destruct (parse_version _ Ho') as [_ Po'].
    rewrite E, Po' in Pv'. injection Pv' as H1 H2 H3 _.
    unfold main_ge. cbn [semver.major semver.minor semver.patch without_build]
      in H1, H2, H3. lia.
  - unfold semver.or_else.
    destruct (semver.compareMain _ _ =? 0)%Z eqn:Em.
    + intros _. apply Z.eqb_eq in Em.
      apply (compareMain_main_ge (without_build v) (without_build o)). lia.
    + intros H.
      now apply (compareMain_main_ge (without_build v) (without_build o)).
Qed.

Lemma gte_versions (a b : semver.SemVer) :
  parsed_version a -> parsed_version b ->
  semver.gte (Some (semver.version a)) (Some (semver.version b))
  = Ok (0 <=? semver.SemVer_compare (without_build a) (without_build b))%Z.
Proof.
  intros Ha Hb.
  destruct (parse_version a Ha) as [Na _].
  destruct (parse_version b Hb) as [Nb _].
  unfold semver.gte, semver.compare. now rewrite Na, Nb.
Qed.

Lemma findVersion_body_not_below (data : Data) (opts : Opts) (pre : bool)
    (classes : list jsstring) (b : option semver.SemVer)
    (st st' : option jsstring * Z) (x : jsstring) :
  useGreatest opts || negb (has_time data) = true ->
  not_below b (fst st) ->
  findVersion_body data opts pre classes st x = Ok st' ->
  not_below b (fst st').
Proof.
  intros Hmode Hst. destruct st as [tv td]. unfold findVersion_body.
  destruct (semver.parse (Some x)) as [parsed|] eqn:Ep; [|discriminate].
  destruct (_ && (negb pre || useRel opts));
    [intros H; now injection H as <-|].
  assert (Hparsed : parsed_version parsed) by (now exists x).
  destruct b as [bv|]; simpl in Hst.
  2:{ subst tv. rewrite diff_null. discriminate. }
  destruct Hst as (t & -> & Ht & Hge).
  assert (Hold : not_below (Some bv) (Some (semver.version t)))
    by (exists t; now repeat split).
  destruct (semver.diff _ _) as [d|]; cbn [bind]; [|discriminate].
  destruct (negb (truthy d) || _); [intros H; now injection H as <-|].
  rewrite Hmode.
  assert (Hc : semver.coerce (semver.version parsed)
               = Some (release_of parsed))
    by exact (coerce_plain_range [] parsed eq_refl Hparsed).
  rewrite Hc.
  assert (Hrel : parsed_version (release_of parsed))
    by (eapply coerce_release; exact Hc).
  rewrite (gte_versions _ t Hrel Ht). cbn [bind].
  destruct (0 <=? _)%Z eqn:Ege; intros H; injection H as <-; [|exact Hold].
  apply Z.leb_le, SemVer_compare_main_ge in Ege; [|assumption..].
  exists parsed. repeat split; [assumption|].
  apply (main_ge_trans parsed t bv); [exact Ege|exact Hge].
Qed.

(** X8. In the greatest mode, which is also the mode for a registry that
    gives no publish times, a version that [findVersion] returns is
    never below the baseline of the range in its major, minor and patch
    numbers: every replacement of the running version passes
    [semver.gte] on the coerced candidate. *)
Theorem findVersion_greatest_not_below (data : Data)
    (versions : list jsstring) (opts : Opts) (v : jsstring) :
  useGreatest opts || negb (has_time data) = true ->
  findVersion data versions opts = Ok (Some v) ->
  exists b t,
    semver.coerce (range opts) = Some b
    /\ semver.parse (Some v) = Some t
    /\ main_ge t b.
Proof.
  intros Hmode. unfold findVersion.
  destruct (for_of _ versions _) as [st|] eqn:E; [|discriminate]. cbn [bind].
  intros H. injection H as H.
  assert (Hst : not_below (semver.coerce (range opts)) (fst st)).
  { revert E.
    apply (for_of_invariant
             (fun st => not_below (semver.coerce (range opts)) (fst st))).
    - intros st0 x st1. now apply findVersion_body_not_below.
    - unfold rangeToVersion. simpl.
      destruct (semver.coerce (range opts)) as [bv|] eqn:Eb; [|reflexivity].
      apply coerce_release in Eb as [Hb1 Hb2].
      exists bv. repeat split; [assumption|apply main_ge_refl]. }
  destruct (truthy (fst st)); [|discriminate].
  destruct (semver.coerce (range opts)) as [bv|]; simpl in Hst;
    [|congruence].
  destruct Hst as (t & Ht & Hparsed & Hge).
  rewrite Ht in H. injection H as <-.
  exists bv, (without_build t). split; [reflexivity|].
  split; [apply (parse_version t Hparsed)|exact Hge].
Qed.

(** The late beta example: from [^1.0.0-beta.1] the greatest mode stays
    at 1.0.0, whatever prerelease it ends on. *)
Lemma findVersion_greatest_not_below_witness :
  exists b t,
    semver.coerce (range late_beta_opts) = Some b
    /\ semver.parse (Some (str "1.0.0-beta.2")) = Some t
    /\ main_ge t b.
Proof.
  apply (findVersion_greatest_not_below late_beta_data late_beta_versions
           late_beta_opts (str "1.0.0-beta.2")).
  - reflexivity.
  - vm_compute. reflexivity.
Defined.

(** ** The ceiling, end to end *)

Lemma includes_In (l : list jsstring) (s : jsstring) :
  includes l s = true -> In s l.
Proof.
  unfold includes. intros H. apply existsb_exists in H as (x & Hx & E).
  apply string_eqb_eq in E. now subst x.
Qed.

Lemma accepted_classes_strip (c : ceiling) (allow : bool) (cls : jsstring) :
  In cls (accepted_classes c allow) ->
  cls = str "prerelease" \/ In (strip_pre cls) (semvers_of c).
Proof.
  destruct c, allow; simpl; intuition (subst; simpl; auto 10).
Qed.

(** The selector under a ceiling: the same statement as for the loop,
    on its result. *)
Lemma findVersion_selected_within (data : Data) (versions : list jsstring)
    (opts : Opts) (c : ceiling) (v : option jsstring) :
  semvers opts = semvers_of c ->
  findVersion data versions opts = Ok v ->
  v = None
  \/ selected_within c (isRangePrerelease (range opts) || usePre opts)
                     (semver.coerce (range opts)) v.
Proof.
  intros Hc. unfold findVersion.
  set (allow := isRangePrerelease (range opts) || usePre opts).
  rewrite (accepted_classes_accepted opts c allow Hc).
  destruct (for_of _ versions _) as [st|] eqn:E; [|discriminate]. cbn [bind].
  intros H. injection H as H.
  assert (Hst : selected_within c allow (semver.coerce (range opts)) (fst st)).
  { revert E.
    apply (for_of_invariant
             (fun st => selected_within c allow (semver.coerce (range opts))
                                        (fst st))).
    - intros st0 x st1. apply findVersion_body_within.
    - unfold rangeToVersion. simpl.
      destruct (semver.coerce (range opts)) as [bv|] eqn:Eb; [|reflexivity].
      apply coerce_release in Eb as [Hb1 Hb2].
      exists bv. repeat split; [assumption|apply within_refl|].
      now rewrite Hb2. }
  destruct (truthy (fst st)); [right; now subst v|now left].
Qed.

(** X9. Under a ceiling, whatever [findNewVersion] returns for a range
    other than the wildcard differs from the baseline of the range, if
    at all, by the prerelease class or by a class whose plain form is
    within the ceiling: this holds for the selected version by the loop
    and for the latest dist-tag by the check before the last line. *)
Theorem findNewVersion_within_ceiling (data : Data) (opts : Opts)
    (c : ceiling) (v : jsstring) :
  semvers opts = semvers_of c ->
  range opts <> str "*" ->
  findNewVersion data opts = Ok (Some v) ->
  exists d,
    semver.diff (rangeToVersion (range opts)) (Some v) = Ok d
    /\ match d with
       | None => True
       | Some cls => cls = str "prerelease"
                     \/ In (strip_pre cls) (semvers_of c)
       end.
Proof.
  intros Hc Hstar. unfold findNewVersion.
  destruct (string_eqb (range opts) (str "*")) eqn:Er;
    [now apply string_eqb_eq in Er|].
  destruct (findVersion data _ opts) as [version|] eqn:Ef; [|discriminate].
  cbn [bind].
  apply (findVersion_selected_within _ _ _ c _ Hc) in Ef.
  assert (Hv : Ok version = Ok (Some v) ->
               exists d,
                 semver.diff (rangeToVersion (range opts)) (Some v) = Ok d
                 /\ match d with
                    | None => True
                    | Some cls => cls = str "prerelease"
                                  \/ In (strip_pre cls) (semvers_of c)
                    end).
  { intros H. injection H as ->. destruct Ef as [Ef|Ef]; [discriminate|].
    unfold rangeToVersion.
    destruct (semver.coerce (range opts)) as [bv|] eqn:Eb; simpl in Ef;
      [|discriminate].
    destruct Ef as (t & Ht & Hparsed & Hw & Hp). injection Ht as ->.
    apply coerce_release in Eb as [Hb1 Hb2].
    rewrite (diff_versions bv t Hb1 Hparsed).
    eexists. split; [reflexivity|].
    pose proof (diff_of_accepted c _ (without_build bv) (without_build t)
                  Hb2 (ltac:(now destruct c)) Hp) as Hd.
    destruct (diff_of _ _) as [cls|]; [|exact I].
    now apply accepted_classes_strip in Hd. }
  clear Ef.
  destruct (useGreatest opts); [exact Hv|].
  unfold rangeToVersion in *.
  destruct (semver.coerce (range opts)) as [coerced|]; [|discriminate].
  destruct (semver.gt version _) as [isGreater|]; [|discriminate]. cbn [bind].
  destruct (_ || _); [exact Hv|].
  destruct (_ && _ && _ && _); [exact Hv|].
  destruct (_ && _ && isGreater); [exact Hv|].
  destruct (_ && _ && negb isGreater); [discriminate|].
  destruct (semver.diff _ (latest data)) as [d|] eqn:Ed; [|discriminate].
  cbn [bind].
  destruct (truthy d && _ && _) eqn:Ecls; [exact Hv|].
  destruct (useRel opts && _); [exact Hv|].
  intros H. injection H as H. rewrite H in Ed. exists d.
  split; [exact Ed|].
  destruct d as [cls|]; [|exact I].
  pose proof (diff_not_empty _ _ _ Ed) as Hne.
  destruct cls as [|ch cls]; [contradiction|].
  cbn [truthy andb ToString] in Ecls.
  apply andb_false_iff in Ecls as [Ecls|Ecls]; apply negb_false_iff in Ecls.
  - left. now apply string_eqb_eq in Ecls.
  - right. rewrite <- Hc. now apply includes_In.
Qed.

(** The minor ceiling with dates: 1.3.0 is a minor step from 1.2.3. *)
Lemma findNewVersion_within_ceiling_witness :
  exists d,
    semver.diff (rangeToVersion (range (minor_opts false false false)))
                (Some (str "1.3.0")) = Ok d
    /\ match d with
       | None => True
       | Some cls => cls = str "prerelease"
                     \/ In (strip_pre cls) (semvers_of UpToMinor)
       end.
Proof.
  apply (findNewVersion_within_ceiling
           (minor_data (Some (in_order minor_versions)))
           (minor_opts false false false) UpToMinor (str "1.3.0")).
  - reflexivity.
  - discriminate.
  - vm_compute. reflexivity.
Defined.

(** ** What the loop over the answers leaves alone *)

Section HandlerFrame.

Variable getInfoUrl : Data -> option jsstring -> jsstring.
Variable cfg : Config.

Lemma handle_frame (deps deps' : gmap jsstring Dep) (data : Data) :
  handle getInfoUrl cfg deps data = Ok deps' ->
  truthy (error data) = false
  /\ (forall n, n <> name data -> deps' !! n = deps !! n)
  /\ (forall n e, deps' !! n = Some e ->
        exists e0, deps !! n = Some e0 /\ old e = old e0).
Proof.
  unfold handle. destruct (truthy (error data)); [discriminate|].
  destruct (deps !! name data) as [dep|] eqn:Ed; [|discriminate].
  destruct (findNewVersion data _) as [newVersion|]; [|discriminate].
  cbn [bind].
  destruct (negb (truthy newVersion) || _); intros H; injection H as <-;
    (split; [reflexivity|split]).
  - intros n Hn. now apply lookup_delete_ne.
  - intros n e. destruct (decide (n = name data)) as [->|Hn].
    + now rewrite lookup_delete_eq.
    + rewrite lookup_delete_ne by congruence. eauto.
  - intros n Hn. now apply lookup_insert_ne.
  - intros n e. destruct (decide (n = name data)) as [->|Hn].
    + rewrite lookup_insert_eq. intros H. injection H as <-. eauto.
    + rewrite lookup_insert_ne by congruence. eauto.
Qed.

Lemma resolve_frame (dati : list Data) (deps deps' : gmap jsstring Dep) :
  resolve getInfoUrl cfg dati deps = Ok deps' ->
  (forall n, ~ In n (map name dati) -> deps' !! n = deps !! n)
  /\ (forall n e, deps' !! n = Some e ->
        exists e0, deps !! n = Some e0 /\ old e = old e0)
  /\ Forall (fun data => truthy (error data) = false
                         /\ is_Some (deps !! name data)) dati.
Proof.
  revert deps. induction dati as [|data dati IH]; intros deps; simpl.
  - intros H. injection H as <-. repeat split; eauto.
  - destruct (handle getInfoUrl cfg deps data) as [deps1|] eqn:Eh;
      [|discriminate]. cbn [bind]. intros Hr.
    destruct (handle_frame _ _ _ Eh) as (Herr & Hother & Hold).
    destruct (handle_spec _ _ _ _ _ Eh) as (_ & Hsome & _).
    destruct (IH _ Hr) as (IH1 & IH2 & IH3).
    split; [|split].
    + intros n Hn. rewrite IH1 by tauto. apply Hother. intros ->. tauto.
    + intros n e He. destruct (IH2 n e He) as (e1 & He1 & Ho1).
      destruct (Hold n e1 He1) as (e0 & He0 & Ho0).
      exists e0. split; [assumption|congruence].
    + constructor; [now split|].
      apply List.Forall_forall. intros d Hd.
      rewrite List.Forall_forall in IH3. destruct (IH3 d Hd) as [Hd1 [e1 Hd2]].
      split; [assumption|].
      destruct (Hold _ _ Hd2) as (e0 & He0 & _). eauto.
Qed.

End HandlerFrame.

(** X10. The loop over the registry answers never adds an entry and
    never touches the declared range of one: an entry of the result was
    in the dependency set from the start, under the same name and with
    the same old range. *)
Theorem resolve_keeps_old_range
    (getInfoUrl : Data -> option jsstring -> jsstring) (cfg : Config)
    (dati : list Data) (deps deps' : gmap jsstring Dep)
    (n : jsstring) (e : Dep) :
  resolve getInfoUrl cfg dati deps = Ok deps' ->
  deps' !! n = Some e ->
  exists e0, deps !! n = Some e0 /\ old e = old e0.
Proof.
  intros Hr. destruct (resolve_frame _ _ _ _ _ Hr) as (_ & H & _). apply H.
Qed.

(** The minor example: left-pad stays at its old range [^1.2.3]. *)
Lemma resolve_keeps_old_range_witness :
  exists e0, minor_deps !! str "left-pad" = Some e0
             /\ old {| old := str "^1.2.3"; new := Some (str "^1.3.0");
                       info := Some [] |} = old e0.
Proof.
  apply (resolve_keeps_old_range no_info minor_cfg
           [minor_data (Some (in_order minor_versions))] minor_deps
           (<[str "left-pad" := {| old := str "^1.2.3";
                                   new := Some (str "^1.3.0");
                                   info := Some [] |}]> minor_deps)).
  - vm_compute. reflexivity.
  - apply lookup_insert_eq.
Defined.

(** X11. An entry for which no answer came is in the result as it was
    in the dependency set, and an absent name stays absent. *)
Theorem resolve_unanswered_untouched
    (getInfoUrl : Data -> option jsstring -> jsstring) (cfg : Config)
    (dati : list Data) (deps deps' : gmap jsstring Dep) (n : jsstring) :
  resolve getInfoUrl cfg dati deps = Ok deps' ->
  ~ In n (map name dati) ->
  deps' !! n = deps !! n.
Proof.
  intros Hr. destruct (resolve_frame _ _ _ _ _ Hr) as (H & _). apply H.
Qed.

(** The minor example with an answer for left-pad only: the wildcard
    entry of another package stays as it was. *)
Lemma resolve_unanswered_untouched_witness :
  (<[str "left-pad" := {| old := str "^1.2.3"; new := Some (str "^1.3.0");
                          info := Some [] |}]> (minor_deps ∪ star_deps)
   : gmap jsstring Dep) !! str "pkg"
  = (minor_deps ∪ star_deps) !! str "pkg".
Proof.
  apply (resolve_unanswered_untouched no_info minor_cfg
           [minor_data (Some (in_order minor_versions))]
           (minor_deps ∪ star_deps)).
  - vm_compute. reflexivity.
  - vm_compute. intros [H|[]]. discriminate H.
Defined.



(** ** Options *)

Lemma includes_iff (l : list jsstring) (s : jsstring) :
  includes l s = true <-> In s l.
Proof.
  unfold includes. rewrite existsb_exists. split.
  - intros (x & Hx & E). apply string_eqb_eq in E. now subst x.
  - intros H. exists s. split; [assumption|]. now apply string_eqb_eq.
Qed.

Lemma existsb_comma (s : jsstring) :
  existsb (fun c => char_eqb c ",") s = false ->
  forallb (fun x => negb (char_eqb x ",")) s = true.
Proof.
  induction s as [|c s IH]; simpl; [reflexivity|].
  rewrite orb_false_iff. intros [-> H]. now rewrite IH.
Qed.

(** X13. An option with a text applies to a package exactly when the
    text is empty, the bare option, or the package is one of the names
    between its commas: the test for a comma in [parseMixedArg] changes
    nothing, a text without one being its own only part. *)
Theorem parseMixedArg_applies (s n : jsstring) :
  applies (Cli.parseMixedArg (Cli.ArgString s)) n = true
  <-> s = [] \/ In n (split_on "," s).
Proof.
  destruct s as [|c s]; [simpl; tauto|].
  unfold Cli.parseMixedArg.
  destruct (existsb _ (c :: s)) eqn:E; cbn [applies].
  - rewrite includes_iff. split; [now right|]. now intros [H|H].
  - rewrite (split_on_no_sep _ _ (existsb_comma _ E)), includes_iff.
    split; [now right|]. now intros [H|H].
Qed.

(** ** Requests *)

Lemma endsWith_app (u : jsstring) (c d : ascii) :
  Cli.endsWith (u ++ [c]) d = char_eqb c d.
Proof. unfold Cli.endsWith. now rewrite rev_app_distr. Qed.

Lemma endsWith_inv (s : jsstring) (c : ascii) :
  Cli.endsWith s c = true -> exists u, s = u ++ [c].
Proof.
  unfold Cli.endsWith. destruct (rev s) as [|x r] eqn:E; [discriminate|].
  intros H. apply char_eqb_eq in H as ->. exists (rev r).
  rewrite <- (rev_involutive s), E. reflexivity.
Qed.

Lemma normalize_slash (u : jsstring) :
  Cli.normalizeRegistryUrl (u ++ ["/"]) = u.
Proof.
  unfold Cli.normalizeRegistryUrl. rewrite endsWith_app, char_eqb_refl.
  rewrite length_app, Nat.add_sub. now rewrite firstn_app, Nat.sub_diag,
    firstn_all, app_nil_r.
Qed.

(** X14. [normalizeRegistryUrl] takes one slash off the end, no more:
    an address that ends with two slashes keeps one. *)
Theorem normalizeRegistryUrl_strips_one (u : jsstring) :
  Cli.normalizeRegistryUrl (u ++ ["/"]) = u
  /\ Cli.normalizeRegistryUrl (u ++ ["/"; "/"]) = u ++ ["/"].
Proof.
  split; [apply normalize_slash|].
  change (u ++ ["/"; "/"]) with (u ++ ["/"] ++ ["/"]).
  rewrite app_assoc. apply normalize_slash.
Qed.

(** X15. A normalized address is the constant [npmRegisty], which ends
    with a slash, only for the constant with one more slash: the
    comparison of the registry with [npmRegisty] in [get] fails for the
    official registry as the program normalizes it. *)
Theorem normalizeRegistryUrl_npmRegisty (url : jsstring) :
  Cli.normalizeRegistryUrl url = Cli.npmRegisty
  <-> url = Cli.npmRegisty ++ ["/"].
Proof.
  split.
  - unfold Cli.normalizeRegistryUrl.
    destruct (Cli.endsWith url "/") eqn:E.
    + apply endsWith_inv in E as [u ->].
      rewrite length_app, Nat.add_sub, firstn_app, Nat.sub_diag, firstn_all,
        app_nil_r. now intros ->.
    + intros ->. discriminate E.
  - intros ->. apply normalize_slash.
Qed.

(** *** The address of a package *)

Lemma replace_slash_keep (r b a s : jsstring) :
  forallb (fun x => negb (char_eqb x "/")) a = true ->
  Cli.replace_from Cli.slash r b 0 (a ++ s)
  = a ++ Cli.replace_from Cli.slash r (b ++ a) 0 s.
Proof.
  revert b. induction a as [|c a IH]; intros b;
    cbn [app forallb Cli.replace_from].
  - now rewrite app_nil_r.
  - rewrite andb_true_iff, negb_true_iff. intros [Hc Ha].
    assert (Hs : Cli.slash (c :: a ++ s) = None).
    { unfold Cli.slash. apply char_eqb_neq in Hc.
      destruct c as [[] [] [] [] [] [] [] []]; try reflexivity.
      now contradiction Hc. }
    rewrite Hs, (IH _ Ha), <- app_assoc. reflexivity.
Qed.

Lemma replace_slash_none (r b s : jsstring) :
  forallb (fun x => negb (char_eqb x "/")) s = true ->
  Cli.replace_from Cli.slash r b 0 s = s.
Proof.
  intros H. rewrite <- (app_nil_r s) at 1.
  rewrite (replace_slash_keep r b s [] H). simpl. apply app_nil_r.
Qed.

Lemma replace_slash_hit (b s : jsstring) :
  Cli.replace_from Cli.slash (str "%2f") b 0 ("/" :: s)
  = str "%2f" ++ Cli.replace_from Cli.slash (str "%2f") (b ++ ["/"]) 0 s.
Proof. reflexivity. Qed.

Lemma alnum_word (c : ascii) :
  Cli.is_alnum c = true -> Cli.is_word_dash_dot c = true.
Proof. unfold Cli.is_word_dash_dot. now intros ->. Qed.

Lemma word_no_slash (c : ascii) :
  Cli.is_word_dash_dot c = true -> negb (char_eqb c "/") = true.
Proof.
  destruct c as [[] [] [] [] [] [] [] []]; vm_compute; congruence.
Qed.

(** X16. For a scoped name whose scope is a letter or a digit followed
    by one character or more among letters, digits, underscore, dash and
    dot, and whose package part starts with a letter or a digit and has
    no slash, [fetchFromRegistry] asks for the name with its slash
    encoded, under the registry. *)
Theorem fetchFromRegistry_scoped (registry scope pkg : jsstring)
    (c d : ascii) :
  Cli.is_alnum c = true ->
  scope <> [] ->
  forallb Cli.is_word_dash_dot scope = true ->
  Cli.is_alnum d = true ->
  forallb (fun x => negb (char_eqb x "/")) pkg = true ->
  Cli.fetchFromRegistry ("@" :: c :: scope ++ "/" :: d :: pkg) registry
  = registry ++ str "/@" ++ c :: scope ++ str "%2f" ++ d :: pkg.
Proof.
  intros Hc Hne Hscope Hd Hpkg. unfold Cli.fetchFromRegistry.
  assert (Ht : Token.test Cli.scoped_at
                 ("@" :: c :: scope ++ "/" :: d :: pkg) = true).
  { cbn [Token.test]. unfold Cli.scoped_at at 1.
    rewrite Hc, (span_app _ scope ("/" :: d :: pkg) Hscope eq_refl), Hd.
    now destruct scope. }
  rewrite Ht.
  change ("@" :: c :: scope ++ "/" :: d :: pkg)
    with (("@" :: c :: scope) ++ "/" :: d :: pkg).
  rewrite replace_slash_keep.
  2:{ cbn [forallb]. rewrite (word_no_slash c (alnum_word c Hc)).
      cbn [andb char_eqb]. apply forallb_forall. intros x Hx.
      apply word_no_slash. revert x Hx. now apply forallb_forall. }
  rewrite replace_slash_hit, replace_slash_none.
  2:{ cbn [forallb]. now rewrite (word_no_slash d (alnum_word d Hd)). }
  reflexivity.
Qed.

(** The package [@types/node] on a registry. *)
Lemma fetchFromRegistry_scoped_witness :
  Cli.fetchFromRegistry ("@" :: "t" :: str "ypes" ++ "/" :: "n" :: str "ode")
                        (str "https://registry.npmjs.org")
  = str "https://registry.npmjs.org" ++ str "/@" ++ "t" :: str "ypes"
    ++ str "%2f" ++ "n" :: str "ode".
Proof.
  apply (fetchFromRegistry_scoped (str "https://registry.npmjs.org")
           (str "ypes") (str "ode") "t" "n");
    solve [reflexivity | discriminate].
Defined.

Lemma test_false (at_start : jsstring -> bool) (s : jsstring) :
  (forall t, at_start t = true -> exists r, t = "@" :: r) ->
  forallb (fun x => negb (char_eqb x "@")) s = true ->
  Token.test at_start s = false.
Proof.
  intros Hat. induction s as [|c s IH]; cbn [Token.test forallb].
  - intros _. destruct (at_start []) eqn:E; [|reflexivity].
    now destruct (Hat _ E).
  - rewrite andb_true_iff, negb_true_iff. intros [Hc Hs].
    rewrite (IH Hs), orb_false_r.
    destruct (at_start (c :: s)) eqn:E; [|reflexivity].
    destruct (Hat _ E) as [r Hr]. injection Hr as -> _. discriminate Hc.
Qed.

Lemma scoped_at_head (t : jsstring) :
  Cli.scoped_at t = true -> exists r, t = "@" :: r.
Proof.
  destruct t as [|c t]; [discriminate|].
  destruct c as [[] [] [] [] [] [] [] []]; try discriminate. eauto.
Qed.

(** X17. A scope of one character is not seen as a scope: the pattern
    wants two characters before the slash, and the name goes out with
    its slash as it is. *)
Theorem fetchFromRegistry_short_scope (registry pkg : jsstring) (c : ascii) :
  forallb (fun x => negb (char_eqb x "@")) (c :: pkg) = true ->
  Cli.fetchFromRegistry ("@" :: c :: "/" :: pkg) registry
  = registry ++ "/" :: "@" :: c :: "/" :: pkg.
Proof.
  intros H. unfold Cli.fetchFromRegistry.
  assert (Ht : Token.test Cli.scoped_at ("@" :: c :: "/" :: pkg) = false).
  { cbn [Token.test].
    assert (H0 : Cli.scoped_at ("@" :: c :: "/" :: pkg) = false)
      by (unfold Cli.scoped_at; cbn [span]; apply andb_false_r).
    rewrite H0. cbn [orb].
    change (Token.test Cli.scoped_at (c :: "/" :: pkg) = false).
    apply (test_false _ _ scoped_at_head).
    cbn [forallb] in *. apply andb_true_iff in H as [-> H]. now rewrite H. }
  now rewrite Ht.
Qed.

(** The package [@a/b] on a registry. *)
Lemma fetchFromRegistry_short_scope_witness :
  Cli.fetchFromRegistry (str "@a/b") (str "https://registry.npmjs.org")
  = str "https://registry.npmjs.org/@a/b".
Proof.
  apply (fetchFromRegistry_short_scope (str "https://registry.npmjs.org")
           (str "b") "a").
  reflexivity.
Defined.

(** ** The dependency set *)

Section CollectFacts.

Variable isValidSemverRange : jsstring -> bool.
Variable pkg : jsstring -> option (list (jsstring * jsstring)).
Variable include : option (list jsstring).
Variable exclude : option (list jsstring).

Lemma property_In (entries : list (jsstring * jsstring)) (n o : jsstring) :
  Cli.property entries n = Some o -> In n (map fst entries).
Proof.
  induction entries as [|[k v] entries IH]; simpl; [discriminate|].
  destruct (string_eqb k n) eqn:E.
  - apply string_eqb_eq in E. now left.
  - intros H. right. now apply IH.
Qed.

Lemma names_of_In (entries : list (jsstring * jsstring)) (n : jsstring) :
  In n (Cli.names_of include exclude entries)
  <-> In n (map fst entries)
      /\ (forall l, include = Some l -> In n l)
      /\ (forall l, exclude = Some l -> ~ In n l).
Proof.
  unfold Cli.names_of. rewrite !filter_In. split.
  - intros [[Hn Hi] He]. split; [assumption|]. split; intros l ->.
    + now apply includes_iff.
    + intros Hl. apply includes_iff in Hl. now rewrite Hl in He.
  - intros (Hn & Hi & He). repeat split; [assumption| |].
    + destruct include as [l|]; [|reflexivity].
      apply includes_iff. now apply Hi.
    + destruct exclude as [l|]; [|reflexivity].
      destruct (includes l n) eqn:E; [|reflexivity].
      apply includes_iff in E. now destruct (He l eq_refl).
Qed.

(** What the loop over the names of a section leaves under a name. *)
Lemma assign_lookup (deps : gmap jsstring Dep) (name n : jsstring)
    (e : Dep) :
  Cli.assign deps name e !! n
  = if string_eqb n name && negb (string_eqb n (str "__proto__"))
    then Some e
    else deps !! n.
Proof.
  unfold Cli.assign. destruct (string_eqb n name) eqn:E.
  - apply string_eqb_eq in E as <-.
    destruct (string_eqb n (str "__proto__")); [reflexivity|].
    apply lookup_insert_eq.
  - apply string_eqb_neq in E.
    destruct (string_eqb name (str "__proto__")); [reflexivity|].
    apply lookup_insert_ne. congruence.
Qed.

Lemma add_names_lookup (entries : list (jsstring * jsstring))
    (names : list jsstring) (deps : gmap jsstring Dep) (n : jsstring) :
  Cli.add_names isValidSemverRange entries names deps !! n
  = if includes names n && negb (string_eqb n (str "__proto__"))
    then match Cli.property entries n with
         | Some o => if isValidSemverRange o then Some (declared o)
                     else deps !! n
         | None => deps !! n
         end
    else deps !! n.
Proof.
  revert deps. induction names as [|name names IH]; intros deps;
    [reflexivity|].
  cbn [Cli.add_names]. rewrite IH. unfold includes. cbn [existsb].
  fold (includes names n).
  assert (Hd : match Cli.property entries name with
               | Some old0 =>
                   if isValidSemverRange old0
                   then Cli.assign deps name (declared old0)
                   else deps
               | None => deps
               end !! n
               = if string_eqb n name && negb (string_eqb n (str "__proto__"))
                 then match Cli.property entries n with
                      | Some o => if isValidSemverRange o
                                  then Some (declared o) else deps !! n
                      | None => deps !! n
                      end
                 else deps !! n).
  { destruct (string_eqb n name) eqn:E.
    - apply string_eqb_eq in E as <-. cbn [andb].
      destruct (Cli.property entries n) as [o|];
        [|now destruct (negb _)].
      destruct (isValidSemverRange o); [|now destruct (negb _)].
      rewrite assign_lookup.
      assert (En : string_eqb n n = true) by now apply string_eqb_eq.
      now rewrite En.
    - cbn [andb].
      destruct (Cli.property entries name) as [o'|]; [|reflexivity].
      destruct (isValidSemverRange o'); [|reflexivity].
      now rewrite assign_lookup, E. }
  unfold declared in Hd. rewrite Hd.
  destruct (string_eqb n name), (includes names n),
    (negb (string_eqb n (str "__proto__"))); cbn [orb andb];
    try reflexivity;
    destruct (Cli.property entries n) as [o|]; try reflexivity;
    now destruct (isValidSemverRange o).
Qed.

Lemma collect_app (t1 t2 : list jsstring) (deps : gmap jsstring Dep) :
  Cli.collect isValidSemverRange pkg include exclude (t1 ++ t2) deps
  = Cli.collect isValidSemverRange pkg include exclude t2
      (Cli.collect isValidSemverRange pkg include exclude t1 deps).
Proof.
  revert deps. induction t1 as [|key t1 IH]; intros deps; [reflexivity|].
  simpl. apply IH.
Qed.

Lemma collect_origin (types : list jsstring) (deps : gmap jsstring Dep)
    (n : jsstring) (e : Dep) :
  Cli.collect isValidSemverRange pkg include exclude types deps !! n = Some e ->
  deps !! n = Some e
  \/ (e = declared (old e)
      /\ isValidSemverRange (old e) = true
      /\ exists key entries,
           In key types /\ pkg key = Some entries
           /\ In n (Cli.names_of include exclude entries)
           /\ Cli.property entries n = Some (old e)).
Proof.
  revert deps. induction types as [|key types IH]; intros deps; simpl;
    [now left|].
  intros H. destruct (IH _ H) as [H0|(He & Hv & k & en & Hk & Hp & Hn & Ho)].
  - destruct (pkg key) as [entries|] eqn:Ek; [|now left].
    rewrite add_names_lookup in H0.
    destruct (includes _ n) eqn:Ei; [|now left].
    destruct (negb (string_eqb n (str "__proto__"))); [|now left].
    cbn [andb] in H0.
    destruct (Cli.property entries n) as [o|] eqn:Eo; [|now left].
    destruct (isValidSemverRange o) eqn:Ev; [|now left].
    injection H0 as <-. right. repeat split; [assumption|].
    exists key, entries. repeat split; try assumption; [now left|].
    now apply includes_iff.
  - right. repeat split; try assumption.
    exists k, en. repeat split; try assumption. now right.
Qed.

Lemma collect_keeps (types : list jsstring) (deps : gmap jsstring Dep)
    (n : jsstring) :
  is_Some (deps !! n) ->
  is_Some (Cli.collect isValidSemverRange pkg include exclude types deps !! n).
Proof.
  revert deps. induction types as [|key types IH]; intros deps; simpl;
    [easy|].
  intros H. apply IH. destruct (pkg key) as [entries|]; [|assumption].
  rewrite add_names_lookup. destruct (includes _ n && _); [|assumption].
  destruct (Cli.property entries n) as [o|]; [|assumption].
  now destruct (isValidSemverRange o).
Qed.

Lemma collect_section (key : jsstring) (entries : list (jsstring * jsstring))
    (deps : gmap jsstring Dep) (n o : jsstring) :
  pkg key = Some entries ->
  Cli.property entries n = Some o ->
  isValidSemverRange o = true ->
  (forall l, include = Some l -> In n l) ->
  (forall l, exclude = Some l -> ~ In n l) ->
  n <> str "__proto__" ->
  Cli.collect isValidSemverRange pkg include exclude [key] deps !! n
  = Some (declared o).
Proof.
  intros Hp Ho Hv Hi He Hproto. simpl.
  rewrite Hp, add_names_lookup, Ho, Hv.
  assert (Hn : includes (Cli.names_of include exclude entries) n = true).
  { apply includes_iff, names_of_In. split; [|now split].
    now apply (property_In entries n o). }
  apply string_eqb_neq in Hproto. now rewrite Hn, Hproto.
Qed.

End CollectFacts.

(** X18. Every entry of the collected dependency set comes from the
    package file: it has no new range yet, its range is a valid one, its
    name passes the include and exclude lists, and a listed dependency
    type has it with that range. *)
Theorem collect_sound (isValidSemverRange : jsstring -> bool)
    (pkg : jsstring -> option (list (jsstring * jsstring)))
    (include exclude : option (list jsstring)) (types : list jsstring)
    (n : jsstring) (e : Dep) :
  Cli.collect isValidSemverRange pkg include exclude types ∅ !! n = Some e ->
  e = declared (old e)
  /\ isValidSemverRange (old e) = true
  /\ (forall l, include = Some l -> In n l)
  /\ (forall l, exclude = Some l -> ~ In n l)
  /\ exists key entries,
       In key types /\ pkg key = Some entries
       /\ Cli.property entries n = Some (old e).
Proof.
  intros H.
  apply collect_origin in H
    as [H|(He & Hv & key & entries & Hk & Hp & Hn & Ho)];
    [now rewrite lookup_empty in H|].
  apply names_of_In in Hn as (_ & Hi & Hx).
  repeat split; try assumption. now exists key, entries.
Qed.

(** The package file with two sections, both read: left-pad is there
    with the range of the second. *)
Lemma collect_sound_witness :
  declared (str "~1.0.0") = declared (old (declared (str "~1.0.0")))
  /\ has_version (old (declared (str "~1.0.0"))) = true
  /\ (forall l, None = Some l -> In (str "left-pad") l)
  /\ (forall l, None = Some l -> ~ In (str "left-pad") l)
  /\ exists key entries,
       In key default_types
       /\ two_sections key = Some entries
       /\ Cli.property entries (str "left-pad")
          = Some (old (declared (str "~1.0.0"))).
Proof.
  apply (collect_sound has_version two_sections None None
           default_types (str "left-pad")
           (declared (str "~1.0.0"))).
  vm_compute. reflexivity.
Defined.

(** X19. A package that a listed dependency type declares with a valid
    range, that passes the include and exclude lists and whose name is
    not [__proto__], is in the collected set. The name [__proto__] is
    set aside: assigning to it gives the plain object [deps] another
    prototype and no key. *)
Theorem collect_complete (isValidSemverRange : jsstring -> bool)
    (pkg : jsstring -> option (list (jsstring * jsstring)))
    (include exclude : option (list jsstring)) (types : list jsstring)
    (deps : gmap jsstring Dep) (key : jsstring)
    (entries : list (jsstring * jsstring)) (n o : jsstring) :
  In key types ->
  pkg key = Some entries ->
  Cli.property entries n = Some o ->
  isValidSemverRange o = true ->
  (forall l, include = Some l -> In n l) ->
  (forall l, exclude = Some l -> ~ In n l) ->
  n <> str "__proto__" ->
  is_Some (Cli.collect isValidSemverRange pkg include exclude types deps !! n).
Proof.
  intros Hk Hp Ho Hv Hi He Hproto. apply in_split in Hk as (t1 & t2 & ->).
  change (key :: t2) with ([key] ++ t2). rewrite !collect_app.
  apply collect_keeps.
  rewrite (collect_section _ _ _ _ key entries _ n o); eauto.
Qed.

(** Left-pad of the first section is collected with only left-pad
    included. *)
Lemma collect_complete_witness :
  is_Some (Cli.collect has_version two_sections (Some [str "left-pad"]) None
             default_types ∅ !! str "left-pad").
Proof.
  apply (collect_complete has_version two_sections (Some [str "left-pad"])
           None default_types ∅
           (str "dependencies")
           [(str "left-pad", str "^1.2.3"); (str "local", str "file:../local")]
           (str "left-pad") (str "^1.2.3")).
  - now left.
  - reflexivity.
  - reflexivity.
  - vm_compute. reflexivity.
  - intros l H. injection H as <-. now left.
  - discriminate.
  - discriminate.
Defined.



(** X25. A dependency named [__proto__] is never collected, whatever the
    package file declares for it: the assignment to that name of the
    plain object [deps] adds no key. *)
Theorem collect_skips_proto (isValidSemverRange : jsstring -> bool)
    (pkg : jsstring -> option (list (jsstring * jsstring)))
    (include exclude : option (list jsstring)) (types : list jsstring) :
  Cli.collect isValidSemverRange pkg include exclude types ∅
    !! str "__proto__" = None.
Proof.
  generalize (lookup_empty (M := gmap jsstring) (A := Dep) (str "__proto__")).
  generalize (∅ : gmap jsstring Dep).
  induction types as [|key types IH]; intros deps Hd; [exact Hd|].
  simpl. apply IH. destruct (pkg key) as [entries|]; [|exact Hd].
  now rewrite (add_names_lookup isValidSemverRange), andb_false_r.
Qed.

(** ** The table *)

Section HighlightFacts.

Variable color : jsstring -> jsstring.

Lemma highlight_from_res (aParts bParts : list jsstring) (res : jsstring) :
  Cli.highlight_from color aParts bParts res
  = res ++ Cli.highlight_from color aParts bParts [].
Proof.
  revert bParts res. induction aParts as [|a aParts IH]; intros bParts res;
    cbn [Cli.highlight_from].
  - now rewrite app_nil_r.
  - destruct (negb _); [now destruct (Cli.versionPartRe a)|].
    rewrite (IH _ (res ++ a ++ ["."])), (IH _ ([] ++ a ++ ["."])).
    now rewrite <- !app_assoc.
Qed.

Lemma highlight_from_same (l : list jsstring) :
  l <> [] -> Cli.highlight_from color l l [] = join "." l ++ ["."].
Proof.
  induction l as [|a l IH]; [easy|]. intros _. cbn [Cli.highlight_from].
  assert (E : string_eqb a a = true) by now apply string_eqb_eq.
  rewrite E. cbn [negb tl app]. rewrite highlight_from_res.
  destruct l as [|a' l]; [cbn [Cli.highlight_from join]; apply app_nil_r|].
  rewrite IH by easy. rewrite (join_cons "." a (a' :: l)) by easy.
  now rewrite <- !app_assoc.
Qed.

End HighlightFacts.

(** X21. A text compared with itself comes back without any colour and
    with a dot after it: every part is added with its dot, and no part
    differs to end the loop. *)
Theorem highlightDiff_same (color : jsstring -> jsstring) (a : jsstring) :
  Cli.highlightDiff color a a = a ++ ["."].
Proof.
  unfold Cli.highlightDiff.
  rewrite highlight_from_same by apply split_on_not_nil.
  now rewrite join_split_on.
Qed.

Lemma flat_map_chars (f : ascii -> bool) (a : jsstring) :
  flat_map (fun char => if f char then [char] else [char]) a = a.
Proof.
  induction a as [|c a IH]; [reflexivity|]. simpl. rewrite IH.
  now destruct (f c).
Qed.

Lemma highlight_from_plain (aParts bParts : list jsstring) :
  aParts <> [] ->
  Cli.highlight_from (fun s => s) aParts bParts []
  = match first_difference aParts bParts with
    | Some (x, rest) =>
        if Cli.versionPartRe x || match rest with [] => false | _ => true end
        then join "." aParts
        else join "." aParts ++ ["."]
    | None => join "." aParts ++ ["."]
    end.
Proof.
  revert bParts. induction aParts as [|a aParts IH]; [easy|].
  intros bParts _. cbn [Cli.highlight_from first_difference].
  assert (Hdiff :
    (if Cli.versionPartRe a then [] ++ join "." (a :: aParts)
     else [] ++ flat_map (fun char => if Cli.versionPartRe [char]
                                      then [char] else [char]) a
          ++ "." :: join "." aParts)
    = if Cli.versionPartRe a
         || match aParts with [] => false | _ => true end
      then join "." (a :: aParts)
      else join "." (a :: aParts) ++ ["."]).
  { rewrite flat_map_chars. destruct (Cli.versionPartRe a); [reflexivity|].
    destruct aParts as [|a' aParts]; [reflexivity|].
    cbn [orb app]. now rewrite (join_cons "." a (a' :: aParts)). }
  destruct bParts as [|b bParts]; [exact Hdiff|].
  destruct (string_eqb a b); [|exact Hdiff].
  cbn [negb tl app]. rewrite highlight_from_res.
  destruct aParts as [|a' aParts];
    [cbn [Cli.highlight_from join first_difference]; apply app_nil_r|].
  rewrite IH by easy. rewrite (join_cons "." a (a' :: aParts)) by easy.
  destruct (first_difference (a' :: aParts) bParts) as [[x rest]|];
    [destruct (Cli.versionPartRe x
               || match rest with [] => false | _ => true end)|];
    now rewrite <- ?app_assoc.
Qed.

(** X22. Without colours, [highlightDiff] gives back its first text,
    followed by a dot in two cases: when no part of it differs from the
    part of the second text at the same place, and when the first part
    that differs is the last one and does not pass the pattern of a
    version part, being empty or having a character that is no letter,
    digit, dash or dot. *)
Theorem highlightDiff_plain (a b : jsstring) :
  Cli.highlightDiff (fun s => s) a b
  = match first_difference (split_on "." a) (split_on "." b) with
    | Some (x, rest) =>
        if Cli.versionPartRe x || match rest with [] => false | _ => true end
        then a
        else a ++ ["."]
    | None => a ++ ["."]
    end.
Proof.
  unfold Cli.highlightDiff.
  rewrite highlight_from_plain by apply split_on_not_nil.
  now rewrite join_split_on.
Qed.

(** ** The new package file *)

Lemma GetSubstitution_plain (m b a v : jsstring) :
  no_dollar v = true -> Cli.GetSubstitution m b a v = v.
Proof.
  induction v as [|c v IH]; [reflexivity|].
  unfold no_dollar. simpl forallb. rewrite andb_true_iff, negb_true_iff.
  intros [Hc Hv]. simpl. rewrite Hc. f_equal. now apply IH.
Qed.

Lemma strip_prefix_app (p r : jsstring) : Cli.strip_prefix p (p ++ r) = Some r.
Proof.
  induction p as [|c p IH]; [reflexivity|]. simpl.
  now rewrite char_eqb_refl.
Qed.

Lemma strip_prefix_inv (p s r : jsstring) :
  Cli.strip_prefix p s = Some r -> s = p ++ r.
Proof.
  revert s. induction p as [|c p IH]; intros s; simpl.
  - now intros [= ->].
  - destruct s as [|x s]; [discriminate|].
    destruct (char_eqb x c) eqn:E; [|discriminate].
    apply char_eqb_eq in E as ->. intros H. now rewrite (IH _ H).
Qed.

(** A prefix is looked for in the first characters only. *)
Lemma strip_prefix_none (p a x y : jsstring) :
  (length p <= length a)%nat ->
  Cli.strip_prefix p (a ++ x) = None -> Cli.strip_prefix p (a ++ y) = None.
Proof.
  revert a. induction p as [|c p IH]; intros a; simpl; [discriminate|].
  destruct a as [|z a]; simpl; [lia|]. intros Hl.
  destruct (char_eqb z c); [|reflexivity]. apply IH. lia.
Qed.

Lemma entry_at_none (dep old s : jsstring) :
  Cli.strip_prefix (Cli.key_text dep) s = None -> Cli.entry_at dep old s = None.
Proof. unfold Cli.entry_at. now intros ->. Qed.

Lemma entry_at_hit (dep old spaces post : jsstring) :
  spaces <> [] ->
  forallb (fun c => char_eqb c " ") spaces = true ->
  Cli.entry_at dep old
    (Cli.key_text dep ++ spaces ++ Cli.quoted old ++ post)
  = Some (Cli.key_text dep ++ spaces ++ Cli.quoted old, post).
Proof.
  intros Hne Hsp. unfold Cli.entry_at. rewrite strip_prefix_app.
  rewrite (span_app _ spaces (Cli.quoted old ++ post) Hsp eq_refl).
  rewrite strip_prefix_app. now destruct spaces.
Qed.

Section Rewriting.

Variable at_start : jsstring -> option (jsstring * jsstring).
Variable v : jsstring.
Hypothesis Hv : no_dollar v = true.

Lemma plain_replace_before (b b' : jsstring) (k : nat) (s : jsstring) :
  Cli.replace_from at_start v b k s = Cli.replace_from at_start v b' k s.
Proof.
  revert b b' k. induction s as [|c s IH]; intros b b' k; [reflexivity|].
  simpl. destruct k as [|k]; [|apply IH].
  destruct (at_start (c :: s)) as [[m a]|].
  - rewrite !GetSubstitution_plain by assumption. f_equal. apply IH.
  - f_equal. apply IH.
Qed.

Lemma plain_replace_skip (b : jsstring) (k : nat) (s : jsstring) :
  Cli.replace_from at_start v b k s
  = Cli.replace_from at_start v [] 0 (skipn k s).
Proof.
  revert b k. induction s as [|c s IH]; intros b k.
  - now destruct k.
  - destruct k as [|k].
    + apply plain_replace_before.
    + simpl. apply IH.
Qed.

Lemma plain_replace_copy (b : jsstring) (c : ascii) (s : jsstring) :
  at_start (c :: s) = None ->
  Cli.replace_from at_start v b 0 (c :: s)
  = c :: Cli.replace_from at_start v [] 0 s.
Proof.
  intros H. simpl. rewrite H. f_equal. apply plain_replace_before.
Qed.

Lemma plain_replace_hit (b m post : jsstring) :
  m <> [] ->
  at_start (m ++ post) = Some (m, post) ->
  Cli.replace_from at_start v b 0 (m ++ post)
  = v ++ Cli.replace_from at_start v [] 0 post.
Proof.
  intros Hm H. destruct m as [|c m]; [easy|].
  cbn [app Cli.replace_from]. cbn [app] in H. rewrite H.
  rewrite GetSubstitution_plain by assumption. f_equal.
  rewrite plain_replace_skip. f_equal.
  cbn [length]. rewrite Nat.sub_succ, Nat.sub_0_r.
  now rewrite skipn_app, skipn_all, Nat.sub_diag.
Qed.

Lemma plain_replace_unmatched (b s : jsstring) :
  Token.test (fun t => match at_start t with
                       | Some _ => true
                       | None => false
                       end) s = false ->
  Cli.replace_from at_start v b 0 s = s.
Proof.
  revert b. induction s as [|c s IH]; intros b; [reflexivity|].
  cbn [Token.test]. rewrite orb_false_iff. intros [Hc Hs].
  rewrite plain_replace_copy by (now destruct (at_start (c :: s))).
  now rewrite IH.
Qed.

End Rewriting.

Lemma entry_text_no_dollar (dep range : jsstring) (e : Dep) :
  no_dollar dep = true -> new e = Some range -> no_dollar range = true ->
  no_dollar (Cli.entry_text dep e) = true.
Proof.
  intros Hd He Hr. unfold Cli.entry_text, Cli.key_text, Cli.quoted.
  rewrite He. unfold no_dollar in *. cbn [app forallb].
  rewrite !forallb_app, Hd. cbn [forallb]. rewrite forallb_app, Hr.
  reflexivity.
Qed.

Lemma key_text_quoted (dep : jsstring) :
  Cli.key_text dep = Cli.quoted dep ++ [":"].
Proof.
  unfold Cli.key_text, Cli.quoted. cbn [app]. now rewrite <- app_assoc.
Qed.

(** X23. Where the quoted name of a dependency with its colon first
    occurs in the package file, followed by one space or more and the
    quoted old range, [updatePkg] writes the name, one space and the new
    range; the text before it stays, and the replacing goes on after
    it. *)
Theorem updatePkg_entry (dep range pre spaces post : jsstring) (e : Dep) :
  no_dollar dep = true ->
  new e = Some range ->
  no_dollar range = true ->
  occurs (Cli.key_text dep) (pre ++ Cli.quoted dep) = false ->
  spaces <> [] ->
  forallb (fun c => char_eqb c " ") spaces = true ->
  Cli.updatePkg [(dep, e)]
    (pre ++ Cli.key_text dep ++ spaces ++ Cli.quoted (old e) ++ post)
  = pre ++ Cli.key_text dep ++ " " :: Cli.quoted range
    ++ Cli.updatePkg [(dep, e)] post.
Proof.
  intros Hd He Hr Hpre Hne Hsp. cbn [Cli.updatePkg].
  pose proof (entry_text_no_dollar dep range e Hd He Hr) as Hv.
  generalize (@nil ascii) at 1 as b.
  induction pre as [|c pre IH]; intros b.
  - cbn [app]. rewrite !app_assoc, <- (app_assoc (Cli.key_text dep)).
    rewrite (plain_replace_hit _ _ Hv).
    + unfold Cli.entry_text. rewrite He, <- !app_assoc. reflexivity.
    + unfold Cli.key_text. discriminate.
    + rewrite <- !app_assoc. now apply entry_at_hit.
  - cbn [app]. unfold occurs in Hpre. cbn [Token.test app] in Hpre.
    apply orb_false_iff in Hpre as [Hc Hpre].
    rewrite (plain_replace_copy _ _ Hv).
    + f_equal. apply IH. exact Hpre.
    + apply entry_at_none.
      rewrite (key_text_quoted dep) at 2. rewrite <- app_assoc.
      rewrite (app_assoc pre), app_comm_cons.
      apply (strip_prefix_none _ _ []).
      * rewrite key_text_quoted. cbn [length]. rewrite !length_app.
        cbn [length]. lia.
      * rewrite app_nil_r.
        now destruct (Cli.strip_prefix _ (c :: pre ++ Cli.quoted dep)).
Qed.

(** The file with two spaces before the range of left-pad: the new file
    has one. *)
Lemma updatePkg_entry_witness :
  Cli.updatePkg [(str "left-pad", left_pad_entry)]
    (left_pad_file (str "^1.2.3") (str "  "))
  = left_pad_file (str "^1.3.0") (str " ").
Proof.
  exact (updatePkg_entry (str "left-pad") (str "^1.3.0")
           (str "{ " ++ Cli.key_text (str "name") ++ " "
            :: Cli.quoted (str "app") ++ str ", "
            ++ Cli.key_text (str "dependencies") ++ str " { ")
           (str "  ") (str " } }") left_pad_entry
           eq_refl eq_refl eq_refl eq_refl
           ltac:(discriminate) eq_refl).
Defined.

Lemma replace_unmatched (at_start : jsstring -> option (jsstring * jsstring))
    (v b s : jsstring) :
  Token.test (fun t => match at_start t with
                       | Some _ => true
                       | None => false
                       end) s = false ->
  Cli.replace_from at_start v b 0 s = s.
Proof.
  revert b. induction s as [|c s IH]; intros b; [reflexivity|].
  cbn [Token.test Cli.replace_from]. rewrite orb_false_iff. intros [Hc Hs].
  destruct (at_start (c :: s)); [discriminate|]. now rewrite IH.
Qed.

(** X24. A package file in which the pattern of no entry matches is
    written back as it is: this is so for a file without a space after
    the colon, or with one before it, whatever the new ranges are. *)
Theorem updatePkg_unmatched (entries : list (jsstring * Dep))
    (s : jsstring) :
  (forall dep e, In (dep, e) entries -> entry_occurs dep (old e) s = false) ->
  Cli.updatePkg entries s = s.
Proof.
  induction entries as [|[dep e] entries IH]; intros H; [reflexivity|].
  cbn [Cli.updatePkg]. rewrite replace_unmatched.
  - apply IH. intros d e' Hin. apply H. now right.
  - apply (H dep e). now left.
Qed.

(** The file without a space before the range of left-pad. *)
Lemma updatePkg_unmatched_witness :
  Cli.updatePkg [(str "left-pad", left_pad_entry)]
    (left_pad_file (str "^1.2.3") [])
  = left_pad_file (str "^1.2.3") [].
Proof.
  apply (updatePkg_unmatched [(str "left-pad", left_pad_entry)]
           (left_pad_file (str "^1.2.3") [])).
  intros dep e [H|[]]. injection H as <- <-. vm_compute. reflexivity.
Defined.
